(** * Request orchestration and file pipeline of the biomedical scraper

    A shallow embedding of the request-orchestration core of the
    platform: the file download pipeline
    ([common/pipeline/file_pipeline.py]), the adaptive rate limiter and
    the session manager ([common/middleware/rate_limit.py]) and the proxy
    pool ([common/proxy/proxy_pool.py]).

    Conventions of the embedding:
    - Python [int] is [Z]; Python [float] is an exact rational [Q];
    - [str] and [bytes] are [string] (8-bit characters);
    - a [dict] used as a map is a [gmap]; [Optional[T]] is [option T];
    - every read of the wall clock ([datetime.now()]) is an explicit
      argument, a timestamp in microseconds (the resolution of
      [datetime]);
    - calls into the Python standard library ([urlparse],
      [hashlib.sha256], [random.choice]) are parameters of the
      development. *)

From Stdlib Require Import ZArith QArith Qminmax Qpower Lqa Ascii String.
From Stdlib Require Import DecimalString DecimalZ DecimalPos.
From stdpp Require Import base option list gmap strings.

Local Open Scope string_scope.
Local Open Scope Z_scope.

(** ** Python built-ins used by the sources *)

Module Py.

(** [str(n)] for an [int]: decimal digits, with a leading [-] when
    negative. *)
Definition str_of_int (n : Z) : string :=
  NilZero.string_of_int (Z.to_int n).

(** [c.lower()] on one ASCII character. *)
Definition lower_ascii (c : ascii) : ascii :=
  let n := nat_of_ascii c in
  if ((65 <=? n)%nat && (n <=? 90)%nat)%bool then ascii_of_nat (n + 32) else c.

(** [s.lower()]. *)
Fixpoint lower (s : string) : string :=
  match s with
  | EmptyString => EmptyString
  | String c s' => String (lower_ascii c) (lower s')
  end.

(** [s.rfind(c)]: the index of the last occurrence of [c], or [-1]. *)
Fixpoint rfind (c : ascii) (s : string) : Z :=
  match s with
  | EmptyString => -1
  | String a s' =>
      let r := rfind c s' in
      if 0 <=? r then r + 1
      else if Ascii.eqb a c then 0 else -1
  end.

(** [s[i:]] for [0 <= i]. *)
Fixpoint drop (i : nat) (s : string) : string :=
  match i, s with
  | O, _ => s
  | S _, EmptyString => EmptyString
  | S i', String _ s' => drop i' s'
  end.

(** [s[:i]] for [0 <= i]. *)
Fixpoint take (i : nat) (s : string) : string :=
  match i, s with
  | O, _ => EmptyString
  | S _, EmptyString => EmptyString
  | S i', String a s' => String a (take i' s')
  end.

(** [s[i:j]] for [0 <= i]. *)
Definition slice (i j : nat) (s : string) : string :=
  take (j - i) (drop i s).

(** Some character of [s] differs from [c]. *)
Fixpoint has_other (c : ascii) (s : string) : bool :=
  match s with
  | EmptyString => false
  | String a s' => negb (Ascii.eqb a c) || has_other c s'
  end.

(** [needle in hay] on strings. *)
Fixpoint contains (needle hay : string) : bool :=
  String.prefix needle hay ||
  match hay with
  | EmptyString => false
  | String _ hay' => contains needle hay'
  end.

(** [os.path.splitext(p)] (posixpath): the extension starts at the last
    dot of the last path component, unless that component has nothing
    but dots before it. *)
Definition splitext (p : string) : string * string :=
  let sepIndex := rfind "/" p in
  let dotIndex := rfind "." p in
  if sepIndex <? dotIndex then
    if has_other "." (slice (Z.to_nat (sepIndex + 1)) (Z.to_nat dotIndex) p)
    then (take (Z.to_nat dotIndex) p, drop (Z.to_nat dotIndex) p)
    else (p, EmptyString)
  else (p, EmptyString).

(** [os.path.basename(p)] (posixpath). *)
Definition basename (p : string) : string :=
  drop (Z.to_nat (rfind "/" p + 1)) p.

(** [os.path.join(a, b)] (posixpath) for two components. *)
Definition path_join (a b : string) : string :=
  if String.prefix "/" b then b
  else if (String.eqb a EmptyString || String.eqb (drop (String.length a - 1) a) "/")%bool
       then a +:+ b
       else a +:+ "/" +:+ b.

(** Truthiness of a [str]. *)
Definition truthy (s : string) : bool := negb (String.eqb s EmptyString).

(** [a < b] on floats. *)
Definition Qltb (a b : Q) : bool := negb (Qle_bool b a).

(** The built-ins [min(a, b)] and [max(a, b)]: the first argument, unless
    the second is strictly smaller (larger). *)
Definition py_min (a b : Q) : Q := if Qltb b a then b else a.
Definition py_max (a b : Q) : Q := if Qltb a b then b else a.

(** [timedelta(seconds=n)], in microseconds. *)
Definition timedelta_seconds (n : Z) : Z := n * 1000000.

End Py.

Example splitext_pdf : Py.splitext "/files/report.v2.PDF" = ("/files/report.v2", ".PDF").
Proof. reflexivity. Qed.

Example splitext_hidden : Py.splitext "/files/.bashrc" = ("/files/.bashrc", EmptyString).
Proof. reflexivity. Qed.

Example splitext_dir_dot : Py.splitext "/a.b/readme" = ("/a.b/readme", EmptyString).
Proof. reflexivity. Qed.

Example basename_ex : Py.basename "/files/data.pdf" = "data.pdf".
Proof. reflexivity. Qed.

Example basename_dir : Py.basename "/files/" = EmptyString.
Proof. reflexivity. Qed.

Example str_of_int_ex : Py.str_of_int 0 = "0" /\ Py.str_of_int 12 = "12" /\ Py.str_of_int (-7) = "-7".
Proof. repeat split; reflexivity. Qed.

(** ** Facts about the built-ins *)

(** Every character of [s] satisfies the test [P]. *)
Fixpoint all_chars (P : ascii -> bool) (s : string) : bool :=
  match s with
  | EmptyString => true
  | String a s' => P a && all_chars P s'
  end.

(** The characters [str] of an [int] is made of. *)
Definition digit_or_minus (c : ascii) : bool :=
  let n := nat_of_ascii c in
  (((48 <=? n)%nat && (n <=? 57)%nat) || (n =? 45)%nat)%bool.

Lemma append_cons (a : ascii) (s t : string) : String a s +:+ t = String a (s +:+ t).
Proof. reflexivity. Qed.

Lemma append_nil (t : string) : EmptyString +:+ t = t.
Proof. reflexivity. Qed.

Ltac push_append := rewrite ?append_cons, ?append_nil in *.

Lemma append_cancel_l (p x y : string) : p +:+ x = p +:+ y -> x = y.
Proof.
  induction p as [|a p IH]; push_append; intros H; [exact H|].
  injection H as H. auto.
Qed.

(** Two strings that agree up to a first separator character agree on
    what precedes it and on what follows it. *)
Lemma split_at_separator (P : ascii -> bool) (s1 s2 : string) (c1 c2 : ascii) (r1 r2 : string) :
  all_chars P s1 = true -> all_chars P s2 = true ->
  P c1 = false -> P c2 = false ->
  s1 +:+ String c1 r1 = s2 +:+ String c2 r2 ->
  s1 = s2 /\ r1 = r2.
Proof.
  revert s2. induction s1 as [|a s1 IH]; intros [|b s2]; simpl; intros H1 H2 Hc1 Hc2 E;
    push_append.
  - injection E as _ E. auto.
  - injection E as E _. subst. apply andb_prop in H2 as [H2 _]. congruence.
  - injection E as E _. subst. apply andb_prop in H1 as [H1 _]. congruence.
  - injection E as Ea E. subst b.
    apply andb_prop in H1 as [_ H1]. apply andb_prop in H2 as [_ H2].
    destruct (IH s2 H1 H2 Hc1 Hc2 E) as [-> ->]. auto.
Qed.

Lemma string_of_uint_digits (d : Decimal.uint) :
  all_chars digit_or_minus (NilEmpty.string_of_uint d) = true.
Proof. induction d; simpl; auto. Qed.

Lemma str_of_int_chars (n : Z) : all_chars digit_or_minus (Py.str_of_int n) = true.
Proof.
  unfold Py.str_of_int.
  destruct n as [|p|p]; simpl; [reflexivity| |].
  - unfold NilZero.string_of_uint.
    destruct (Pos.to_uint p); try reflexivity; apply string_of_uint_digits.
  - unfold NilZero.string_of_uint.
    destruct (Pos.to_uint p); try reflexivity; apply string_of_uint_digits.
Qed.

Lemma str_of_int_inj (n m : Z) : Py.str_of_int n = Py.str_of_int m -> n = m.
Proof.
  unfold Py.str_of_int. intros E.
  assert (Hnn : forall z, Z.to_int z <> Decimal.Pos Decimal.Nil /\ Z.to_int z <> Decimal.Neg Decimal.Nil).
  { intros [|p|p]; simpl; split; try discriminate;
      intros [= H]; exact (DecimalPos.Unsigned.to_uint_nonnil p H). }
  apply (f_equal NilZero.int_of_string) in E.
  rewrite !NilZero.isi in E by apply Hnn.
  injection E as E. now apply DecimalZ.to_int_inj.
Qed.

(** The character found by [rfind] stands at the index it returns. *)
Lemma rfind_drop (c : ascii) (s : string) :
  0 <= Py.rfind c s -> exists r, Py.drop (Z.to_nat (Py.rfind c s)) s = String c r.
Proof.
  induction s as [|a s IH]; simpl; [lia|].
  destruct (0 <=? Py.rfind c s) eqn:E.
  - intros _. apply Z.leb_le in E. destruct (IH E) as [r Hr].
    exists r. rewrite Z2Nat.inj_add by lia. rewrite Nat.add_comm. simpl. exact Hr.
  - destruct (Ascii.eqb_spec a c) as [->|]; [|lia].
    intros _. exists s. reflexivity.
Qed.

(** A non-empty extension given by [splitext] starts with a dot. *)
Lemma splitext_dot (p : string) :
  snd (Py.splitext p) = EmptyString \/ exists r, snd (Py.splitext p) = String "." r.
Proof.
  unfold Py.splitext.
  destruct (Py.rfind "/" p <? Py.rfind "." p) eqn:E; [|left; reflexivity].
  destruct (Py.has_other _ _); [|left; reflexivity].
  right. simpl. apply rfind_drop.
  apply Z.ltb_lt in E.
  assert (-1 <= Py.rfind "/" p); [|lia].
  clear. induction p as [|a p IH]; simpl; [lia|].
  destruct (0 <=? Py.rfind "/" p) eqn:E; [apply Z.leb_le in E; lia|].
  destruct (Ascii.eqb a "/"); lia.
Qed.

Lemma truthy_spec (s : string) : Py.truthy s = true <-> s <> EmptyString.
Proof.
  unfold Py.truthy. destruct (String.eqb_spec s EmptyString); simpl; split; congruence.
Qed.

(** ** The file download pipeline ([BiomedicalFilesPipeline]) *)

Module FilePipeline.

(** [request.meta]: the keys set by [get_media_requests]; a key that is
    absent is [None]. *)
Record Meta := {
  track_id : option string;
  file_type : option string;
  file_index : option Z;
  comment_index : option Z;
  file_info : option (gmap string string)
}.

Record Request := { url : string; meta : Meta }.

(** The part of a response the pipeline reads: the [Content-Type] header,
    when the response carries one. *)
Record Response := { content_type : option string }.

(** [ext_map], in the order the dict literal lists its items. *)
Definition ext_map : list (string * string) :=
  [ ("application/pdf", ".pdf");
    ("application/msword", ".doc");
    ("application/vnd.openxmlformats-officedocument.wordprocessingml.document", ".docx");
    ("application/vnd.ms-excel", ".xls");
    ("application/vnd.openxmlformats-officedocument.spreadsheetml.sheet", ".xlsx");
    ("text/plain", ".txt");
    ("text/csv", ".csv");
    ("application/zip", ".zip");
    ("application/x-gzip", ".gz") ].

(** The loop [for mime_type, extension in ext_map.items()] with its early
    [return]. *)
Fixpoint scan_ext_map (content_type : string) (items : list (string * string)) : option string :=
  match items with
  | [] => None
  | (mime_type, extension) :: rest =>
      if Py.contains mime_type content_type then Some extension
      else scan_ext_map content_type rest
  end.

(** [f"{track_id}"]: a missing track id is formatted as [None]. *)
Definition fmt_track (t : option string) : string :=
  match t with Some s => s | None => "None" end.

Section Urlparse.

(** [urlparse(url).path] of the Python standard library. *)
Variable urlparse_path : string -> string.

(** [_get_file_extension(url, response)]; each [return] of the source is
    a [Some] of the step it belongs to. *)
Definition _get_file_extension (url : string) (response : option Response) : string :=
  let path := urlparse_path url in
  let from_url :=
    if Py.truthy path then
      let ext := snd (Py.splitext path) in
      if Py.truthy ext then Some (Py.lower ext) else None
    else None in
  match from_url with
  | Some ext => ext
  | None =>
      let from_header :=
        match response with
        | Some r =>
            let content_type := Py.lower (default EmptyString (content_type r)) in
            scan_ext_map content_type ext_map
        | None => None
        end in
      match from_header with
      | Some extension => extension
      | None => ".bin"
      end
  end.

Definition file_path (request : Request) (response : option Response) : string :=
  let track_id := fmt_track (track_id (meta request)) in
  let file_type := default "unknown" (file_type (meta request)) in
  let file_index := default 0 (file_index (meta request)) in
  let file_ext := _get_file_extension (url request) response in
  if String.eqb file_type "main" then
    let filename := track_id +:+ file_ext in
    "main_file/" +:+ filename
  else if String.eqb file_type "supplementary" then
    let filename := "sup_" +:+ Py.str_of_int file_index +:+ file_ext in
    "SI_file/" +:+ track_id +:+ "/" +:+ filename
  else if String.eqb file_type "peer_review" then
    let filename := "pr_" +:+ Py.str_of_int file_index +:+ file_ext in
    "PR_file/" +:+ track_id +:+ "/" +:+ filename
  else if String.eqb file_type "comment_attachment" then
    let comment_idx := default 0 (comment_index (meta request)) in
    let filename :=
      "comment_" +:+ Py.str_of_int comment_idx +:+ "_attach_" +:+
      Py.str_of_int file_index +:+ file_ext in
    "PR_file/" +:+ track_id +:+ "/" +:+ filename
  else
    let filename := Py.basename (urlparse_path (url request)) in
    let filename :=
      if Py.truthy filename then filename
      else "file_" +:+ Py.str_of_int file_index +:+ file_ext in
    "other/" +:+ track_id +:+ "/" +:+ filename.

End Urlparse.

(** *** Download requests of an item ([get_media_requests]) *)

(** An entry of a file list of an item: a dict, or a bare URL. *)
Inductive FileRef :=
| RefDict (d : gmap string string)
| RefUrl (url : string).

(** [file_info.get('url') if isinstance(file_info, dict) else file_info]. *)
Definition ref_url (ref : FileRef) : option string :=
  match ref with
  | RefDict d => d !! "url"
  | RefUrl u => Some u
  end.

(** [file_info if isinstance(file_info, dict) else {}]. *)
Definition ref_info (ref : FileRef) : gmap string string :=
  match ref with
  | RefDict d => d
  | RefUrl _ => ∅
  end.

(** The fields of a scraped item that the pipeline reads; [comments]
    holds the attachments of each comment. *)
Record Item := {
  item_track_id : option string;
  pdf_url : option string;
  supplementary_files : list FileRef;
  peer_review_files : list FileRef;
  comments : list (list FileRef)
}.

(** A loop [for idx, file_info in enumerate(refs, start=idx)] that yields
    a request for every entry with a URL. *)
Fixpoint file_requests (make : Z -> string -> FileRef -> Request) (idx : Z)
    (refs : list FileRef) : list Request :=
  match refs with
  | [] => []
  | ref :: rest =>
      match ref_url ref with
      | Some file_url =>
          if Py.truthy file_url
          then make idx file_url ref :: file_requests make (idx + 1) rest
          else file_requests make (idx + 1) rest
      | None => file_requests make (idx + 1) rest
      end
  end.

Definition file_request (track_id file_type : string) (comment_idx : option Z)
    (idx : Z) (file_url : string) (ref : FileRef) : Request :=
  {| url := file_url;
     meta := {| track_id := Some track_id; file_type := Some file_type;
                file_index := Some idx; comment_index := comment_idx;
                file_info := Some (ref_info ref) |} |}.

(** The loop over the comments of the item, each with its attachments. *)
Fixpoint comment_requests (track_id : string) (comment_idx : Z)
    (comments : list (list FileRef)) : list Request :=
  match comments with
  | [] => []
  | attachments :: rest =>
      file_requests (file_request track_id "comment_attachment" (Some comment_idx)) 1
        attachments
      ++ comment_requests track_id (comment_idx + 1) rest
  end.

(** [get_media_requests(item, info)]: the requests it yields, in order.
    An item without a track id yields none. *)
Definition get_media_requests (item : Item) : list Request :=
  match item_track_id item with
  | Some track_id =>
      if Py.truthy track_id then
        (match pdf_url item with
         | Some main_pdf_url =>
             if Py.truthy main_pdf_url then
               [ {| url := main_pdf_url;
                    meta := {| track_id := Some track_id; file_type := Some "main";
                               file_index := Some 0; comment_index := None;
                               file_info := None |} |} ]
             else []
         | None => []
         end)
        ++ file_requests (file_request track_id "supplementary" None) 1
             (supplementary_files item)
        ++ file_requests (file_request track_id "peer_review" None) 1
             (peer_review_files item)
        ++ comment_requests track_id 1 (comments item)
      else []
  | None => []
  end.

(** *** The path table and the resolution order, as the specification
    words them *)

Inductive Role := Main | Supplementary | PeerReview | CommentAttachment | Other.

Global Instance Role_eq_dec : EqDecision Role.
Proof. solve_decision. Defined.

(** The role a [file_type] tag stands for; an unrecognised tag is
    [Other]. *)
Definition role_of (file_type : string) : Role :=
  if String.eqb file_type "main" then Main
  else if String.eqb file_type "supplementary" then Supplementary
  else if String.eqb file_type "peer_review" then PeerReview
  else if String.eqb file_type "comment_attachment" then CommentAttachment
  else Other.

(** The path table of the specification: track id [t], role [r], position
    index [i], comment index [c], resolved extension [e]; [base] is the
    basename of the URL path, which the last row falls back from when it
    is empty. *)
Definition path_pattern (t : string) (r : Role) (i c : Z) (e base : string) : string :=
  match r with
  | Main => "main_file/" +:+ t +:+ e
  | Supplementary => "SI_file/" +:+ t +:+ "/sup_" +:+ Py.str_of_int i +:+ e
  | PeerReview => "PR_file/" +:+ t +:+ "/pr_" +:+ Py.str_of_int i +:+ e
  | CommentAttachment =>
      "PR_file/" +:+ t +:+ "/comment_" +:+ Py.str_of_int c +:+ "_attach_" +:+
      Py.str_of_int i +:+ e
  | Other =>
      "other/" +:+ t +:+ "/" +:+
      (if Py.truthy base then base else "file_" +:+ Py.str_of_int i +:+ e)
  end.

(** What a request is told apart by: its role, its position index and,
    for a comment attachment only, its comment index. *)
Definition role (request : Request) : Role :=
  role_of (default "unknown" (file_type (meta request))).

Definition index (request : Request) : Z := default 0 (file_index (meta request)).

Definition comment_of (request : Request) : Z :=
  match role request with
  | CommentAttachment => default 0 (comment_index (meta request))
  | _ => 0
  end.

Definition path_key (request : Request) : Role * Z * Z :=
  (role request, index request, comment_of request).

(** The extension present in a URL path, if any (lower-cased). *)
Definition url_extension (path : string) : option string :=
  let ext := snd (Py.splitext path) in
  if Py.truthy ext then Some (Py.lower ext) else None.

(** The extension the MIME table gives for a response: that of the first
    entry whose MIME type occurs in the lower-cased [Content-Type]. *)
Definition content_type_extension (response : option Response) : option string :=
  match response with
  | Some r =>
      let ct := Py.lower (default EmptyString (content_type r)) in
      snd <$> List.find (fun entry => Py.contains (fst entry) ct) ext_map
  | None => None
  end.

Definition default_extension : string := ".bin".

(** Whether the path of a request spells out its position index: not for
    the main file (one per record), and for an unrecognised role only
    when the URL path has no basename to take the file name from. *)
Definition index_in_path (urlparse_path : string -> string) (request : Request) : bool :=
  match role request with
  | Main => false
  | Other => negb (Py.truthy (Py.basename (urlparse_path (url request))))
  | _ => true
  end.

(** A stand-in for [urlparse(url).path] on URLs of the shape
    [scheme://host/path?query#fragment], for the worked examples: the
    text from the first [/] after the host up to the first [?] or [#]. *)
Fixpoint until_query (s : string) : string :=
  match s with
  | EmptyString => EmptyString
  | String c s' =>
      if (Ascii.eqb c "?" || Ascii.eqb c "#")%bool then EmptyString
      else String c (until_query s')
  end.

Fixpoint from_slash (s : string) : string :=
  match s with
  | EmptyString => EmptyString
  | String c s' => if Ascii.eqb c "/" then s else from_slash s'
  end.

Fixpoint after_scheme (s : string) : string :=
  match s with
  | EmptyString => EmptyString
  | String c s' =>
      if String.prefix "://" s then Py.drop 3 s else after_scheme s'
  end.

Definition simple_url_path (url : string) : string :=
  until_query (from_slash (after_scheme url)).

End FilePipeline.

Example simple_url_path_ex :
  FilePipeline.simple_url_path "https://example.org/files/data.PDF?download=1" = "/files/data.PDF".
Proof. reflexivity. Qed.

(** *** Worked examples of the specification *)

Section FilePipelineExamples.
Import FilePipeline.

Let mk (u ft : string) (i : Z) : Request :=
  {| url := u;
     meta := {| track_id := Some "T1"; file_type := Some ft;
                file_index := Some i; comment_index := None;
                file_info := None |} |}.

Example path_supplementary :
  file_path simple_url_path (mk "https://example.org/a/b.pdf" "supplementary" 2) None
  = "SI_file/T1/sup_2.pdf".
Proof. reflexivity. Qed.

Example path_peer_review :
  file_path simple_url_path (mk "https://example.org/a/b.pdf" "peer_review" 2) None
  = "PR_file/T1/pr_2.pdf".
Proof. reflexivity. Qed.

Example path_main_from_header :
  file_path simple_url_path (mk "https://example.org/download" "main" 0)
    (Some {| content_type := Some "Application/PDF; charset=binary" |})
  = "main_file/T1.pdf".
Proof. reflexivity. Qed.

Example path_comment :
  file_path simple_url_path
    {| url := "https://example.org/x/review";
       meta := {| track_id := Some "T1"; file_type := Some "comment_attachment";
                  file_index := Some 3; comment_index := Some 12;
                  file_info := None |} |} None
  = "PR_file/T1/comment_12_attach_3.bin".
Proof. reflexivity. Qed.

Example path_other_basename :
  file_path simple_url_path (mk "https://example.org/x/figure.PNG" "image" 4) None
  = "other/T1/figure.PNG".
Proof. reflexivity. Qed.

Example path_other_fallback :
  file_path simple_url_path (mk "https://example.org/x/" "image" 4) None
  = "other/T1/file_4.bin".
Proof. reflexivity. Qed.

(** Each MIME type of the table resolves to its own extension, whatever
    the case of the header, when the URL has none. *)
Example content_type_table :
  Forall (fun entry =>
            _get_file_extension simple_url_path "https://example.org/download"
              (Some {| content_type := Some (fst entry) |}) = snd entry)
    (("APPLICATION/PDF", ".pdf") :: ext_map).
Proof. repeat constructor. Qed.

Example extension_from_url_first :
  _get_file_extension simple_url_path "https://example.org/files/Data.TAR.GZ?x=1"
    (Some {| content_type := Some "application/pdf" |}) = ".gz".
Proof. reflexivity. Qed.

Example extension_default :
  _get_file_extension simple_url_path "https://example.org/download"
    (Some {| content_type := Some "image/png" |}) = ".bin"
  /\ _get_file_extension simple_url_path "https://example.org/download" None = ".bin".
Proof. split; reflexivity. Qed.

End FilePipelineExamples.

(** *** Extension resolution *)

Section FilePipelineFacts.
Import FilePipeline.

Variable urlparse_path : string -> string.

Lemma scan_ext_map_find (ct : string) (items : list (string * string)) :
  scan_ext_map ct items = snd <$> List.find (fun entry => Py.contains (fst entry) ct) items.
Proof.
  induction items as [|[m e] items IH]; simpl; [reflexivity|].
  destruct (Py.contains m ct); [reflexivity|exact IH].
Qed.

Lemma lower_dot (r : string) : Py.lower (String "." r) = String "." (Py.lower r).
Proof. reflexivity. Qed.

Lemma scan_ext_map_dot (ct e : string) :
  scan_ext_map ct ext_map = Some e -> exists r, e = String "." r.
Proof.
  unfold ext_map. simpl.
  repeat (destruct (Py.contains _ ct); [intros [= <-]; eexists; reflexivity|]).
  discriminate.
Qed.

(** The resolved extension always starts with a dot. *)
Lemma get_file_extension_dot (u : string) (response : option Response) :
  exists r, _get_file_extension urlparse_path u response = String "." r.
Proof.
  unfold _get_file_extension.
  assert (Hheader : exists r,
            match
              match response with
              | Some r => scan_ext_map (Py.lower (default EmptyString (content_type r))) ext_map
              | None => None
              end
            with
            | Some extension => extension
            | None => ".bin"
            end = String "." r).
  { destruct response as [r|]; [|eexists; reflexivity].
    destruct (scan_ext_map _ ext_map) as [e|] eqn:F; [|eexists; reflexivity].
    apply scan_ext_map_dot in F as [r' ->]. eauto. }
  destruct (Py.truthy (urlparse_path u)); [|exact Hheader].
  destruct (Py.truthy (snd (Py.splitext (urlparse_path u)))) eqn:E; [|exact Hheader].
  apply truthy_spec in E.
  destruct (splitext_dot (urlparse_path u)) as [H|[r H]]; [contradiction|].
  rewrite H, lower_dot. eauto.
Qed.

(** On the text of the header, the method is the first of
    [url_extension], [content_type_extension] and [default_extension]
    that gives an extension. *)
Lemma get_file_extension_order (u : string) (response : option Response) :
  _get_file_extension urlparse_path u response =
    match url_extension (urlparse_path u) with
    | Some e => e
    | None =>
        match content_type_extension response with
        | Some e => e
        | None => default_extension
        end
    end
  /\ map snd ext_map = [".pdf"; ".doc"; ".docx"; ".xls"; ".xlsx"; ".txt"; ".csv"; ".zip"; ".gz"].
Proof.
  split; [|reflexivity].
  unfold _get_file_extension, url_extension, content_type_extension.
  assert (Hscan : forall r : Response,
            scan_ext_map (Py.lower (default EmptyString (content_type r))) ext_map =
            snd <$> List.find
              (fun entry => Py.contains (fst entry) (Py.lower (default EmptyString (content_type r))))
              ext_map) by (intros; apply scan_ext_map_find).
  destruct (Py.truthy (urlparse_path u)) eqn:Hp.
  - destruct (Py.truthy (snd (Py.splitext (urlparse_path u)))); [reflexivity|].
    destruct response; [rewrite Hscan|]; reflexivity.
  - assert (urlparse_path u = EmptyString) as ->.
    { destruct (String.eqb_spec (urlparse_path u) EmptyString) as [H|H]; [exact H|].
      apply truthy_spec in H. congruence. }
    change (Py.truthy (snd (Py.splitext EmptyString))) with false. cbv iota.
    destruct response; [rewrite Hscan|]; reflexivity.
Qed.

(** *** Storage paths *)

Lemma file_path_pattern (request : Request) (response : option Response) :
  file_path urlparse_path request response =
  path_pattern (fmt_track (track_id (meta request))) (role request) (index request)
    (comment_of request) (_get_file_extension urlparse_path (url request) response)
    (Py.basename (urlparse_path (url request))).
Proof.
  unfold file_path, comment_of, role, role_of, index.
  destruct (String.eqb _ "main"); [reflexivity|].
  destruct (String.eqb _ "supplementary"); [reflexivity|].
  destruct (String.eqb _ "peer_review"); [reflexivity|].
  destruct (String.eqb _ "comment_attachment"); reflexivity.
Qed.

Lemma index_suffix_inj (i j : Z) (r1 r2 : string) :
  Py.str_of_int i +:+ String "." r1 = Py.str_of_int j +:+ String "." r2 -> i = j.
Proof.
  intros H. apply str_of_int_inj.
  apply (split_at_separator digit_or_minus) in H as [H _];
    auto using str_of_int_chars.
Qed.

Ltac cancel_prefix H := repeat (apply append_cancel_l in H); push_append.

(** Paths of the table do not collide, as long as the row spells out the
    index. *)
Lemma path_pattern_distinct (t : string) (r1 r2 : Role) (i1 i2 c1 c2 : Z)
    (x1 x2 b1 b2 : string) :
  (r1 <> r2 \/
   (r1 <> Main /\ (r1 = Other -> b1 = EmptyString /\ b2 = EmptyString))) ->
  (r1, i1, match r1 with CommentAttachment => c1 | _ => 0 end) <>
  (r2, i2, match r2 with CommentAttachment => c2 | _ => 0 end) ->
  path_pattern t r1 i1 c1 (String "." x1) b1 <> path_pattern t r2 i2 c2 (String "." x2) b2.
Proof.
  intros Hrole Hkey E.
  destruct r1, r2; unfold path_pattern in E;
    try (push_append; discriminate E);
    try (cancel_prefix E; discriminate E);
    try (destruct Hrole as [Hrole|[Hrole _]]; congruence).
  - cancel_prefix E. apply index_suffix_inj in E. congruence.
  - cancel_prefix E. apply index_suffix_inj in E. congruence.
  - cancel_prefix E.
    apply (split_at_separator digit_or_minus) in E as [Ec E];
      auto using str_of_int_chars.
    apply str_of_int_inj in Ec. repeat (injection E as E).
    apply index_suffix_inj in E. congruence.
  - destruct Hrole as [Hrole|[_ Hrole]]; [congruence|].
    destruct (Hrole eq_refl) as [-> ->].
    cancel_prefix E. apply index_suffix_inj in E. congruence.
Qed.

(** Requests of one track id with different keys get different paths,
    when their roles differ or both paths spell out the index. *)
Lemma file_path_distinct (request1 request2 : Request) (response1 response2 : option Response) :
  track_id (meta request1) = track_id (meta request2) ->
  path_key request1 <> path_key request2 ->
  role request1 <> role request2 \/
    (index_in_path urlparse_path request1 = true /\
     index_in_path urlparse_path request2 = true) ->
  file_path urlparse_path request1 response1 <>
  file_path urlparse_path request2 response2.
Proof.
  revert request1 response1 request2 response2.
  intros q1 p1 q2 p2 Ht Hkey Hrole.
  rewrite !file_path_pattern, Ht.
  destruct (get_file_extension_dot (url q1) p1) as [x1 ->].
  destruct (get_file_extension_dot (url q2) p2) as [x2 ->].
  apply path_pattern_distinct.
  - destruct Hrole as [Hrole|[H1 H2]]; [left; exact Hrole|].
    destruct (decide (role q1 = role q2)) as [Heq|]; [right|left; assumption].
    unfold index_in_path in H1, H2. rewrite <- Heq in H2.
    split; [intros Hm; rewrite Hm in H1; discriminate|].
    intros Ho. rewrite Ho in H1, H2.
    apply negb_true_iff in H1, H2.
    split; [destruct (String.eqb_spec (Py.basename (urlparse_path (url q1))) EmptyString)
           |destruct (String.eqb_spec (Py.basename (urlparse_path (url q2))) EmptyString)];
      auto; unfold Py.truthy in *;
      match goal with
      | H : negb (String.eqb ?s EmptyString) = false, N : ?s <> EmptyString |- _ =>
          apply String.eqb_neq in N; rewrite N in H; discriminate
      end.
  - revert Hkey. unfold path_key, comment_of.
    destruct (role q1), (role q2); auto.
Qed.

(** C1, as amended. For every request, [file_path] returns the row of the
    path table for its role, a function of the track id, the role, the
    position index, the comment index (comment attachments only), the
    resolved extension and, in the last row, the basename of the URL
    path. Two requests with the same track id and different (role, index,
    comment index) get different paths whenever their roles differ, or
    both paths spell out the index: every role but the main file, and the
    unrecognised role when the URL path has no basename. *)
Theorem file_path_table_no_collision :
  (forall request response,
     file_path urlparse_path request response =
     path_pattern (fmt_track (track_id (meta request))) (role request) (index request)
       (comment_of request) (_get_file_extension urlparse_path (url request) response)
       (Py.basename (urlparse_path (url request))))
  /\
  (forall request1 response1 request2 response2,
     track_id (meta request1) = track_id (meta request2) ->
     path_key request1 <> path_key request2 ->
     role request1 <> role request2 \/
       (index_in_path urlparse_path request1 = true /\
        index_in_path urlparse_path request2 = true) ->
     file_path urlparse_path request1 response1 <>
     file_path urlparse_path request2 response2).
Proof.
  split; [exact file_path_pattern|].
  intros q1 p1 q2 p2. apply file_path_distinct.
Qed.

(** *** The requests the pipeline issues for an item *)

(** A request issued for track id [t] under one of the indexed roles. *)
Definition issued (t : string) (r : Role) (request : Request) : Prop :=
  track_id (meta request) = Some t /\ role request = r /\ r <> Main /\ r <> Other.

Lemma file_requests_elem (make : Z -> string -> FileRef -> Request) (refs : list FileRef)
    (idx : Z) (r : Request) :
  r ∈ file_requests make idx refs -> exists j u ref, idx <= j /\ r = make j u ref.
Proof.
  revert idx. induction refs as [|ref refs IH]; intros idx; simpl.
  - intros H. inversion H.
  - assert (Hrest : r ∈ file_requests make (idx + 1) refs ->
                    exists j u ref', idx <= j /\ r = make j u ref').
    { intros H. destruct (IH _ H) as (j & u & ref' & Hj & ->).
      exists j, u, ref'. split; [lia|reflexivity]. }
    destruct (ref_url ref) as [u|]; [|exact Hrest].
    destruct (Py.truthy u); [|exact Hrest].
    rewrite elem_of_cons. intros [->|H]; [|auto].
    exists idx, u, ref. split; [lia|reflexivity].
Qed.

Lemma file_requests_index_NoDup (t ft : string) (c : option Z) (refs : list FileRef) (idx : Z) :
  NoDup (index <$> file_requests (file_request t ft c) idx refs).
Proof.
  revert idx. induction refs as [|ref refs IH]; intros idx; cbn [file_requests]; [constructor|].
  destruct (ref_url ref) as [u|]; [|apply IH].
  destruct (Py.truthy u); [|apply IH].
  rewrite fmap_cons. apply NoDup_cons. split; [|apply IH].
  intros Hin. apply list_elem_of_fmap in Hin as (r & Hr & Hin).
  apply file_requests_elem in Hin as (j & u' & ref' & Hj & ->).
  unfold index in Hr. simpl in Hr. lia.
Qed.

Lemma file_requests_key_NoDup (t ft : string) (c : option Z) (refs : list FileRef) (idx : Z) :
  NoDup (path_key <$> file_requests (file_request t ft c) idx refs).
Proof.
  apply (NoDup_fmap_1 (fun key : Role * Z * Z => snd (fst key))).
  rewrite <- list_fmap_compose. apply file_requests_index_NoDup.
Qed.

Lemma comment_requests_elem (t : string) (comments : list (list FileRef)) (c : Z) (r : Request) :
  r ∈ comment_requests t c comments ->
  exists c' j u ref,
    c <= c' /\ r = file_request t "comment_attachment" (Some c') j u ref.
Proof.
  revert c. induction comments as [|attachments comments IH]; intros c; simpl.
  - intros H. inversion H.
  - rewrite elem_of_app. intros [H|H].
    + apply file_requests_elem in H as (j & u & ref & _ & ->).
      exists c, j, u, ref. split; [lia|reflexivity].
    + destruct (IH _ H) as (c' & j & u & ref & Hc & ->).
      exists c', j, u, ref. split; [lia|reflexivity].
Qed.

Lemma comment_requests_key_NoDup (t : string) (comments : list (list FileRef)) (c : Z) :
  NoDup (path_key <$> comment_requests t c comments).
Proof.
  revert c. induction comments as [|attachments comments IH]; intros c;
    cbn [comment_requests]; [constructor|].
  rewrite fmap_app. apply NoDup_app. split_and!.
  - apply file_requests_key_NoDup.
  - intros key H1 H2.
    apply list_elem_of_fmap in H1 as (r1 & -> & H1).
    apply list_elem_of_fmap in H2 as (r2 & E & H2).
    apply file_requests_elem in H1 as (j1 & u1 & ref1 & _ & ->).
    apply comment_requests_elem in H2 as (c2 & j2 & u2 & ref2 & Hc & ->).
    unfold path_key, comment_of, role in E. simpl in E.
    injection E as _ E. lia.
  - apply IH.
Qed.

Lemma NoDup_fmap_distinct {A B C : Type} (f : A -> B) (g : A -> C) (l : list A) :
  NoDup (f <$> l) ->
  (forall x y, x ∈ l -> y ∈ l -> f x <> f y -> g x <> g y) ->
  NoDup (g <$> l).
Proof.
  induction l as [|a l IH]; [constructor|].
  rewrite !fmap_cons, !NoDup_cons. intros [Ha Hl] Hd. split.
  - intros Hin. apply list_elem_of_fmap in Hin as (y & Hy & Hin).
    apply (Hd a y); [apply elem_of_cons; auto|apply elem_of_cons; auto| |exact Hy].
    intros E. apply Ha. rewrite E. now apply list_elem_of_fmap_2.
  - apply IH; [exact Hl|]. intros x y Hx Hy. apply Hd; apply elem_of_cons; auto.
Qed.

(** The requests that [get_media_requests] yields for an item are stored
    under pairwise different paths, whatever the responses: the main
    file once, and every other file under its role and indices. *)
Lemma get_media_requests_no_collision (item : Item) (response : Request -> option Response) :
  NoDup ((fun request => file_path urlparse_path request (response request))
           <$> get_media_requests item).
Proof.
  unfold get_media_requests.
  destruct (item_track_id item) as [t|]; [|constructor].
  destruct (Py.truthy t); [|constructor].
  set (main := match pdf_url item with
               | Some main_pdf_url =>
                   if Py.truthy main_pdf_url then
                     [ {| url := main_pdf_url;
                          meta := {| track_id := Some t; file_type := Some "main";
                                     file_index := Some 0; comment_index := None;
                                     file_info := None |} |} ]
                   else []
               | None => []
               end).
  set (supp := file_requests (file_request t "supplementary" None) 1 (supplementary_files item)).
  set (peer := file_requests (file_request t "peer_review" None) 1 (peer_review_files item)).
  set (comm := comment_requests t 1 (comments item)).
  assert (Hmain : forall r, r ∈ main ->
            track_id (meta r) = Some t /\ path_key r = (Main, 0, 0)).
  { intros r Hr. subst main. destruct (pdf_url item) as [u|]; [|inversion Hr].
    destruct (Py.truthy u); [|inversion Hr].
    apply list_elem_of_singleton in Hr as ->. split; reflexivity. }
  assert (Hsupp : forall r, r ∈ supp -> issued t Supplementary r).
  { intros r Hr. apply file_requests_elem in Hr as (j & u & ref & _ & ->).
    unfold issued. split_and!; try reflexivity; discriminate. }
  assert (Hpeer : forall r, r ∈ peer -> issued t PeerReview r).
  { intros r Hr. apply file_requests_elem in Hr as (j & u & ref & _ & ->).
    unfold issued. split_and!; try reflexivity; discriminate. }
  assert (Hcomm : forall r, r ∈ comm -> issued t CommentAttachment r).
  { intros r Hr. apply comment_requests_elem in Hr as (c & j & u & ref & _ & ->).
    unfold issued. split_and!; try reflexivity; discriminate. }
  assert (Hall : forall r, r ∈ (main ++ supp ++ peer ++ comm)%list ->
            track_id (meta r) = Some t /\
            (path_key r = (Main, 0, 0) \/
             (role r <> Main /\ index_in_path urlparse_path r = true))).
  { intros r. rewrite !elem_of_app. intros [H|[H|[H|H]]].
    - destruct (Hmain r H). auto.
    - destruct (Hsupp r H) as (Ht & Hr & _). split; [exact Ht|right].
      unfold index_in_path. rewrite Hr. split; [discriminate|reflexivity].
    - destruct (Hpeer r H) as (Ht & Hr & _). split; [exact Ht|right].
      unfold index_in_path. rewrite Hr. split; [discriminate|reflexivity].
    - destruct (Hcomm r H) as (Ht & Hr & _). split; [exact Ht|right].
      unfold index_in_path. rewrite Hr. split; [discriminate|reflexivity]. }
  assert (Hrole : forall (l : list Request) (ro : Role) key,
            (forall r, r ∈ l -> role r = ro) -> key ∈ path_key <$> l -> fst (fst key) = ro).
  { intros l ro key Hl Hin. apply list_elem_of_fmap in Hin as (r & -> & Hin).
    exact (Hl r Hin). }
  apply (NoDup_fmap_distinct path_key).
  - rewrite !fmap_app. repeat (apply NoDup_app; split_and!).
    + subst main. destruct (pdf_url item) as [u|]; [|constructor].
      destruct (Py.truthy u); [apply NoDup_singleton|constructor].
    + intros key H1 H2. apply list_elem_of_fmap in H1 as (r & -> & H1).
      destruct (Hmain r H1) as [_ Hk]. rewrite Hk in H2.
      rewrite <- !fmap_app in H2.
      apply list_elem_of_fmap in H2 as (r' & E & H2).
      assert (role r' <> Main).
      { rewrite !elem_of_app in H2. destruct H2 as [H2|[H2|H2]];
          [destruct (Hsupp _ H2) as (_ & -> & _)|destruct (Hpeer _ H2) as (_ & -> & _)
          |destruct (Hcomm _ H2) as (_ & -> & _)]; discriminate. }
      unfold path_key in E. congruence.
    + apply file_requests_key_NoDup.
    + intros key H1 H2.
      apply (Hrole supp Supplementary) in H1; [|intros r Hr; apply (Hsupp r Hr)].
      rewrite <- fmap_app in H2.
      apply list_elem_of_fmap in H2 as (r' & -> & H2).
      rewrite elem_of_app in H2. unfold path_key in H1. simpl in H1.
      destruct H2 as [H2|H2];
        [destruct (Hpeer _ H2) as (_ & E & _)|destruct (Hcomm _ H2) as (_ & E & _)];
        congruence.
    + apply file_requests_key_NoDup.
    + intros key H1 H2.
      apply (Hrole peer PeerReview) in H1; [|intros r Hr; apply (Hpeer r Hr)].
      apply (Hrole comm CommentAttachment) in H2; [|intros r Hr; apply (Hcomm r Hr)].
      congruence.
    + apply comment_requests_key_NoDup.
  - intros x y Hx Hy Hkey.
    destruct (Hall x Hx) as [Htx Hcx]. destruct (Hall y Hy) as [Hty Hcy].
    apply file_path_distinct; [congruence|exact Hkey|].
    destruct Hcx as [Hkx|[Hrx Hix]], Hcy as [Hky|[Hry Hiy]].
    + congruence.
    + left. assert (role x = Main) by (unfold path_key in Hkx; congruence). congruence.
    + left. assert (role y = Main) by (unfold path_key in Hky; congruence). congruence.
    + right. auto.
Qed.

End FilePipelineFacts.

Definition other_request_1 : FilePipeline.Request :=
  {| FilePipeline.url := "https://example.org/files/data.pdf";
     FilePipeline.meta :=
       {| FilePipeline.track_id := Some "T1"; FilePipeline.file_type := Some "other";
          FilePipeline.file_index := Some 1; FilePipeline.comment_index := None;
          FilePipeline.file_info := None |} |}.

Definition other_request_2 : FilePipeline.Request :=
  {| FilePipeline.url := "https://example.org/archive/data.pdf";
     FilePipeline.meta :=
       {| FilePipeline.track_id := Some "T1"; FilePipeline.file_type := Some "other";
          FilePipeline.file_index := Some 2; FilePipeline.comment_index := None;
          FilePipeline.file_info := None |} |}.

Definition supplementary_request_2 : FilePipeline.Request :=
  {| FilePipeline.url := "https://example.org/files/s2.pdf";
     FilePipeline.meta :=
       {| FilePipeline.track_id := Some "T1"; FilePipeline.file_type := Some "supplementary";
          FilePipeline.file_index := Some 2; FilePipeline.comment_index := None;
          FilePipeline.file_info := None |} |}.

Definition peer_review_request_2 : FilePipeline.Request :=
  {| FilePipeline.url := "https://example.org/files/s2.pdf";
     FilePipeline.meta :=
       {| FilePipeline.track_id := Some "T1"; FilePipeline.file_type := Some "peer_review";
          FilePipeline.file_index := Some 2; FilePipeline.comment_index := None;
          FilePipeline.file_info := None |} |}.

(** Two requests of an unrecognised role, same track id, position indices
    1 and 2: both are stored under the basename of their URL, which is
    the same, so the two paths collide. *)
Lemma file_path_other_collision :
  FilePipeline.track_id (FilePipeline.meta other_request_1) =
  FilePipeline.track_id (FilePipeline.meta other_request_2)
  /\ FilePipeline.path_key other_request_1 <> FilePipeline.path_key other_request_2
  /\ FilePipeline.file_path FilePipeline.simple_url_path other_request_1 None = "other/T1/data.pdf"
  /\ FilePipeline.file_path FilePipeline.simple_url_path other_request_2 None = "other/T1/data.pdf".
Proof.
  split; [reflexivity|]. split; [|split; reflexivity].
  unfold FilePipeline.path_key. intros H. discriminate H.
Qed.

Lemma file_path_table_no_collision_witness :
  FilePipeline.file_path FilePipeline.simple_url_path supplementary_request_2 None <>
  FilePipeline.file_path FilePipeline.simple_url_path peer_review_request_2 None.
Proof.
  apply (proj2 (file_path_table_no_collision FilePipeline.simple_url_path)).
  - reflexivity.
  - intros H. discriminate H.
  - left. intros H. discriminate H.
Defined.

(** ** The adaptive rate limiter ([SmartRateLimiter]) *)

Module RateLimit.
Import Py.

Local Open Scope Q_scope.

(** One entry of [domain_stats]. *)
Record Stats := {
  total_requests : Z;
  success_requests : Z;
  failed_requests : Z;
  avg_response_time : Q;
  current_delay : Q
}.

Record Limiter := {
  min_delay : Q;
  max_delay : Q;
  randomize : bool;
  adaptive : bool;
  last_request_time : gmap string Q;
  domain_stats : gmap string Stats
}.

(** [SmartRateLimiter(min_delay, max_delay, randomize, adaptive)]. *)
Definition new_limiter (min_delay max_delay : Q) (randomize adaptive : bool) : Limiter :=
  {| min_delay := min_delay; max_delay := max_delay;
     randomize := randomize; adaptive := adaptive;
     last_request_time := ∅; domain_stats := ∅ |}.

(** The factory of the [defaultdict]. *)
Definition fresh_stats (l : Limiter) : Stats :=
  {| total_requests := 0; success_requests := 0; failed_requests := 0;
     avg_response_time := 0; current_delay := min_delay l |}.

(** [self.domain_stats[domain]]: a missing entry is created on access. *)
Definition stats_of (l : Limiter) (domain : string) : Stats :=
  default (fresh_stats l) (domain_stats l !! domain).

Definition set_stats (l : Limiter) (domain : string) (s : Stats) : Limiter :=
  {| min_delay := min_delay l; max_delay := max_delay l;
     randomize := randomize l; adaptive := adaptive l;
     last_request_time := last_request_time l;
     domain_stats := <[domain := s]> (domain_stats l) |}.

Definition set_delay (s : Stats) (d : Q) : Stats :=
  {| total_requests := total_requests s; success_requests := success_requests s;
     failed_requests := failed_requests s; avg_response_time := avg_response_time s;
     current_delay := d |}.

(** [failed_requests / total_requests if total_requests > 0 else 0]. *)
Definition error_rate (s : Stats) : Q :=
  if (0 <? total_requests s)%Z
  then inject_Z (failed_requests s) / inject_Z (total_requests s)
  else 0.

(** [_adjust_delay(domain)]; reading [self.domain_stats[domain]] leaves
    the entry in the dict. *)
Definition _adjust_delay (l : Limiter) (domain : string) : Limiter :=
  let stats := stats_of l domain in
  let error_rate := error_rate stats in
  let current_delay := current_delay stats in
  if Qltb (2 # 10) error_rate then
    let new_delay := py_min (current_delay * (15 # 10)) (max_delay l) in
    set_stats l domain (set_delay stats new_delay)
  else if (Qltb error_rate (5 # 100) && Qltb (avg_response_time stats) 1)%bool then
    let new_delay := py_max (current_delay * (9 # 10)) (min_delay l) in
    if Qltb new_delay current_delay
    then set_stats l domain (set_delay stats new_delay)
    else set_stats l domain stats
  else set_stats l domain stats.

Definition record_success (l : Limiter) (domain : string) (response_time : Q) : Limiter :=
  let stats := stats_of l domain in
  let stats :=
    {| total_requests := total_requests stats + 1;
       success_requests := success_requests stats + 1;
       failed_requests := failed_requests stats;
       avg_response_time :=
         if Qeq_bool (avg_response_time stats) 0 then response_time
         else (avg_response_time stats + response_time) / 2;
       current_delay := current_delay stats |} in
  let l := set_stats l domain stats in
  if adaptive l then _adjust_delay l domain else l.

Definition record_failure (l : Limiter) (domain : string) : Limiter :=
  let stats := stats_of l domain in
  let stats :=
    {| total_requests := total_requests stats + 1;
       success_requests := success_requests stats;
       failed_requests := failed_requests stats + 1;
       avg_response_time := avg_response_time stats;
       current_delay := current_delay stats |} in
  let l := set_stats l domain stats in
  if adaptive l then _adjust_delay l domain else l.

(** [wait_if_needed(domain)]: [now] and [after] are the two readings of
    [time.time()], [jitter] the draw of [random.uniform(0.7, 1.3)]. The
    result is the time slept and the new state. *)
Definition wait_if_needed (l : Limiter) (domain : string) (now jitter after : Q) : Q * Limiter :=
  let last_time := default 0 (last_request_time l !! domain) in
  let stats := stats_of l domain in
  let delay := current_delay stats in
  let delay := if randomize l then delay * jitter else delay in
  let elapsed := now - last_time in
  let wait_time := py_max 0 (delay - elapsed) in
  (wait_time,
   {| min_delay := min_delay l; max_delay := max_delay l;
      randomize := randomize l; adaptive := adaptive l;
      last_request_time := <[domain := after]> (last_request_time l);
      domain_stats := <[domain := stats]> (domain_stats l) |}).

(** The calls a limiter receives. *)
Inductive Call :=
| RecordSuccess (domain : string) (response_time : Q)
| RecordFailure (domain : string)
| WaitIfNeeded (domain : string) (now jitter after : Q).

Definition call (l : Limiter) (c : Call) : Limiter :=
  match c with
  | RecordSuccess domain response_time => record_success l domain response_time
  | RecordFailure domain => record_failure l domain
  | WaitIfNeeded domain now jitter after => snd (wait_if_needed l domain now jitter after)
  end.

(** The limiter after a history of calls, oldest first. *)
Definition run (l : Limiter) (history : list Call) : Limiter := foldl call l history.

(** A call that records an outcome for [domain]. *)
Definition records (c : Call) (domain : string) : Prop :=
  match c with
  | RecordSuccess d _ | RecordFailure d => d = domain
  | WaitIfNeeded _ _ _ _ => False
  end.

End RateLimit.

Section RateLimitFacts.
Import Py RateLimit.
Local Open Scope Q_scope.

Lemma Qltb_lt (a b : Q) : Qltb a b = true <-> a < b.
Proof.
  unfold Qltb. rewrite negb_true_iff. split.
  - intros H. apply Qnot_le_lt. intros L. apply Qle_bool_iff in L. congruence.
  - intros H. destruct (Qle_bool b a) eqn:E; [|reflexivity].
    apply Qle_bool_iff in E. exfalso. exact (Qlt_not_le _ _ H E).
Qed.

Lemma Qltb_ge (a b : Q) : Qltb a b = false <-> b <= a.
Proof.
  unfold Qltb. rewrite negb_false_iff. apply Qle_bool_iff.
Qed.

Lemma py_min_Qmin (a b : Q) : py_min a b == Qmin a b.
Proof.
  unfold py_min. destruct (Qltb b a) eqn:E.
  - apply Qltb_lt in E. rewrite Q.min_r; [reflexivity|]. now apply Qlt_le_weak.
  - apply Qltb_ge in E. rewrite Q.min_l; [reflexivity|exact E].
Qed.

Lemma py_max_Qmax (a b : Q) : py_max a b == Qmax a b.
Proof.
  unfold py_max. destruct (Qltb a b) eqn:E.
  - apply Qltb_lt in E. rewrite Q.max_r; [reflexivity|]. now apply Qlt_le_weak.
  - apply Qltb_ge in E. rewrite Q.max_l; [reflexivity|exact E].
Qed.

(** The configuration: a non-negative floor that does not exceed the
    ceiling. *)
Variables (lo hi : Q) (rnd : bool).
Hypothesis lo_nonneg : 0 <= lo.
Hypothesis lo_le_hi : lo <= hi.

(** The statistics of a domain after one re-adjustment. *)
Definition adjusted (l : Limiter) (stats : Stats) : Stats :=
  if Qltb (2 # 10) (error_rate stats) then
    set_delay stats (py_min (current_delay stats * (15 # 10)) (max_delay l))
  else if (Qltb (error_rate stats) (5 # 100) && Qltb (avg_response_time stats) 1)%bool then
    if Qltb (py_max (current_delay stats * (9 # 10)) (min_delay l)) (current_delay stats)
    then set_delay stats (py_max (current_delay stats * (9 # 10)) (min_delay l))
    else stats
  else stats.

Lemma adjust_delay_adjusted (l : Limiter) (domain : string) :
  _adjust_delay l domain = set_stats l domain (adjusted l (stats_of l domain)).
Proof.
  unfold _adjust_delay, adjusted.
  destruct (Qltb (2 # 10) _); [reflexivity|].
  destruct (_ && _)%bool; [|reflexivity].
  destruct (Qltb _ (current_delay _)); reflexivity.
Qed.

(** What one re-adjustment does to a delay that lies within the bounds. *)
Lemma adjust_delay_step (l : Limiter) (s : Stats) :
  min_delay l = lo -> max_delay l = hi ->
  lo <= current_delay s <= hi ->
  let s' := adjusted l s in
  total_requests s' = total_requests s /\
  failed_requests s' = failed_requests s /\
  avg_response_time s' = avg_response_time s /\
  ((1 # 5) < error_rate s -> current_delay s' == Qmin ((3 # 2) * current_delay s) hi) /\
  (~ (1 # 5) < error_rate s -> error_rate s < (1 # 20) -> avg_response_time s < 1 ->
     current_delay s' == Qmax ((9 # 10) * current_delay s) lo) /\
  (~ (1 # 5) < error_rate s -> ~ (error_rate s < (1 # 20) /\ avg_response_time s < 1) ->
     current_delay s' == current_delay s) /\
  lo <= current_delay s' <= hi.
Proof.
  intros Hlo Hhi [Hl Hh]. unfold adjusted. rewrite Hlo, Hhi.
  destruct (Qltb (2 # 10) (error_rate s)) eqn:E1.
  - apply Qltb_lt in E1.
    cbn [total_requests failed_requests avg_response_time current_delay set_delay].
    assert (Hm := py_min_Qmin (current_delay s * (15 # 10)) hi).
    assert (Heq : Qmin (current_delay s * (15 # 10)) hi == Qmin ((3 # 2) * current_delay s) hi).
    { apply Q.min_compat; [lra|reflexivity]. }
    assert (Hb1 : lo <= Qmin (current_delay s * (15 # 10)) hi) by (apply Q.min_glb; lra).
    assert (Hb2 := Q.le_min_r (current_delay s * (15 # 10)) hi).
    split_and!; try reflexivity; intros; lra.
  - apply Qltb_ge in E1.
    destruct (Qltb (error_rate s) (5 # 100) && Qltb (avg_response_time s) 1)%bool eqn:E2.
    + apply andb_prop in E2 as [E2 E3]. apply Qltb_lt in E2, E3.
      assert (Hm := py_max_Qmax (current_delay s * (9 # 10)) lo).
      assert (Heq : Qmax (current_delay s * (9 # 10)) lo == Qmax ((9 # 10) * current_delay s) lo).
      { apply Q.max_compat; [lra|reflexivity]. }
      assert (Hub : Qmax (current_delay s * (9 # 10)) lo <= current_delay s).
      { apply Q.max_lub; lra. }
      assert (Hb1 := Q.le_max_r (current_delay s * (9 # 10)) lo).
      destruct (Qltb _ (current_delay s)) eqn:E4;
        cbn [total_requests failed_requests avg_response_time current_delay set_delay].
      * split_and!; try reflexivity; intros; lra.
      * apply Qltb_ge in E4.
        split_and!; try reflexivity; intros; try lra.
    + assert (error_rate s < (1 # 20) -> avg_response_time s < 1 -> False).
      { intros E2' E3'. apply Qltb_lt in E3'.
        assert (E2'' : Qltb (error_rate s) (5 # 100) = true) by (apply Qltb_lt; lra).
        rewrite E2'', E3' in E2. discriminate. }
      split_and!; try reflexivity; intros; try lra; exfalso; tauto.
Qed.

(** The invariant of a limiter in adaptive mode: every recorded delay lies
    within the configured bounds. *)
Definition within_bounds (l : Limiter) : Prop :=
  min_delay l = lo /\ max_delay l = hi /\ adaptive l = true /\
  forall d s, domain_stats l !! d = Some s ->
    (0 <= total_requests s)%Z /\ lo <= current_delay s <= hi.

Lemma stats_of_bounds (l : Limiter) (d : string) :
  within_bounds l ->
  (0 <= total_requests (stats_of l d))%Z /\ lo <= current_delay (stats_of l d) <= hi.
Proof.
  intros (Hlo & Hhi & _ & Hs). unfold stats_of.
  destruct (domain_stats l !! d) as [s|] eqn:E; simpl.
  - exact (Hs d s E).
  - rewrite Hlo. split; [reflexivity|]. split; [apply Qle_refl|exact lo_le_hi].
Qed.

Lemma set_stats_bounds (l : Limiter) (d : string) (s : Stats) :
  within_bounds l ->
  (0 <= total_requests s)%Z -> lo <= current_delay s <= hi ->
  within_bounds (set_stats l d s).
Proof.
  intros (Hlo & Hhi & Ha & Hs) Ht Hd. unfold within_bounds, set_stats; simpl.
  split_and!; try assumption.
  intros d' s' E. destruct (decide (d = d')) as [->|Hne].
  - rewrite lookup_insert_eq in E. injection E as <-. auto.
  - rewrite lookup_insert_ne in E by exact Hne. exact (Hs d' s' E).
Qed.

Lemma stats_of_set_stats (l : Limiter) (d : string) (s : Stats) :
  stats_of (set_stats l d s) d = s.
Proof. unfold stats_of, set_stats; simpl. now rewrite lookup_insert_eq. Qed.

(** A recorded outcome: the counters are updated, then the delay is
    re-adjusted. *)
Lemma record_adjusted (l : Limiter) (d : string) (u : Stats) :
  adaptive l = true ->
  (if adaptive (set_stats l d u) then _adjust_delay (set_stats l d u) d else set_stats l d u)
  = set_stats (set_stats l d u) d (adjusted (set_stats l d u) u).
Proof.
  intros Ha. simpl. rewrite Ha, adjust_delay_adjusted, stats_of_set_stats. reflexivity.
Qed.

Lemma record_within_bounds (l : Limiter) (d : string) (u : Stats) :
  within_bounds l ->
  (0 <= total_requests u)%Z ->
  lo <= current_delay u <= hi ->
  within_bounds (set_stats (set_stats l d u) d (adjusted (set_stats l d u) u)).
Proof.
  intros Hl Ht Hd.
  assert (Hl' : within_bounds (set_stats l d u)) by (apply set_stats_bounds; assumption).
  pose proof Hl' as (Hlo & Hhi & _).
  pose proof (adjust_delay_step (set_stats l d u) u Hlo Hhi Hd) as (Et & _ & _ & _ & _ & _ & Hb).
  apply set_stats_bounds; [exact Hl'| |exact Hb].
  rewrite Et. exact Ht.
Qed.

Lemma call_within_bounds (l : Limiter) (c : Call) :
  within_bounds l -> within_bounds (call l c).
Proof.
  intros Hl. pose proof Hl as (Hlo & Hhi & Ha & Hs).
  destruct c as [d rt|d|d now jitter after]; simpl.
  - unfold record_success. cbv zeta. rewrite (record_adjusted l d _ Ha).
    destruct (stats_of_bounds l d Hl) as [Ht Hd].
    apply record_within_bounds; [exact Hl|simpl; lia|exact Hd].
  - unfold record_failure. cbv zeta. rewrite (record_adjusted l d _ Ha).
    destruct (stats_of_bounds l d Hl) as [Ht Hd].
    apply record_within_bounds; [exact Hl|simpl; lia|exact Hd].
  - destruct (stats_of_bounds l d Hl) as [Ht Hd].
    unfold within_bounds; simpl. split_and!; try assumption.
    intros d' s' E. destruct (decide (d = d')) as [->|Hne].
    + rewrite lookup_insert_eq in E. injection E as <-. auto.
    + rewrite lookup_insert_ne in E by exact Hne. exact (Hs d' s' E).
Qed.

Lemma run_within_bounds (l : Limiter) (history : list Call) :
  within_bounds l -> within_bounds (run l history).
Proof.
  unfold run. revert l.
  induction history as [|c history IH]; intros l Hl; simpl; [exact Hl|].
  apply IH, call_within_bounds, Hl.
Qed.

Lemma new_limiter_within_bounds : within_bounds (new_limiter lo hi rnd true).
Proof.
  unfold within_bounds; simpl. split_and!; try reflexivity.
  intros d s E. rewrite lookup_empty in E. discriminate.
Qed.

(** C2, as amended. With [0 <= min_delay <= max_delay], a limiter in
    adaptive mode that starts from [current_delay = min_delay], and any
    history of calls: after each [record_success] or [record_failure] for
    a domain, with [error_rate = failed_requests / total_requests], the
    new delay is [min(1.5 * previous, max_delay)] when
    [error_rate > 0.20], [max(0.9 * previous, min_delay)] when
    [error_rate < 0.05] and [avg_response_time < 1.0], and the previous
    delay otherwise; and the delay of every domain lies within
    [[min_delay, max_delay]]. *)
Theorem adjust_delay_policy (history : list Call) (c : Call) (domain : string) :
  records c domain ->
  let before := run (new_limiter lo hi rnd true) history in
  let after := call before c in
  let previous_delay := current_delay (stats_of before domain) in
  let s := stats_of after domain in
  (0 < total_requests s)%Z /\
  error_rate s == inject_Z (failed_requests s) / inject_Z (total_requests s) /\
  ((1 # 5) < error_rate s -> current_delay s == Qmin ((3 # 2) * previous_delay) hi) /\
  (~ (1 # 5) < error_rate s -> error_rate s < (1 # 20) -> avg_response_time s < 1 ->
     current_delay s == Qmax ((9 # 10) * previous_delay) lo) /\
  (~ (1 # 5) < error_rate s -> ~ (error_rate s < (1 # 20) /\ avg_response_time s < 1) ->
     current_delay s == previous_delay) /\
  (forall d, lo <= current_delay (stats_of after d) <= hi).
Proof.
  intros Hc before after previous_delay s.
  assert (Hb : within_bounds before)
    by (apply run_within_bounds, new_limiter_within_bounds).
  assert (Ha : within_bounds after) by (apply call_within_bounds, Hb).
  pose proof Hb as (Hlo & Hhi & Had & _).
  destruct (stats_of_bounds before domain Hb) as [Ht Hd].
  assert (Hstep : exists (u : Stats) (l' : Limiter),
            s = adjusted l' u /\
            min_delay l' = lo /\ max_delay l' = hi /\
            current_delay u = previous_delay /\
            (0 < total_requests u)%Z).
  { subst s after previous_delay.
    destruct c as [d rt|d|d now jitter aft]; simpl in Hc; [subst d|subst d|contradiction];
      simpl; [unfold record_success|unfold record_failure]; cbv zeta;
      rewrite (record_adjusted before domain _ Had), stats_of_set_stats;
      eexists; eexists; (split; [reflexivity|]);
      simpl; split_and!; try assumption; try reflexivity; lia. }
  destruct Hstep as (u & l' & Hs & Hlo' & Hhi' & Hu & Hpos).
  assert (Hdu : lo <= current_delay u <= hi) by (rewrite Hu; exact Hd).
  pose proof (adjust_delay_step l' u Hlo' Hhi' Hdu) as (Et & Ef & Ea & H1 & H2 & H3 & _).
  rewrite <- Hs in Et, Ef, Ea, H1, H2, H3.
  assert (Er : error_rate s = error_rate u) by (unfold error_rate; now rewrite Et, Ef).
  rewrite <- Er, Hu in H1, H2, H3. rewrite <- Ea in H2, H3.
  split_and!; try assumption.
  - lia.
  - unfold error_rate. destruct (0 <? total_requests s)%Z eqn:E; [reflexivity|].
    apply Z.ltb_ge in E. lia.
  - intros d. apply (stats_of_bounds after d Ha).
Qed.

End RateLimitFacts.

(** With [min_delay = -1 <= max_delay = 5], one recorded failure of a
    fresh domain gives [error_rate = 1 > 0.20], and the new delay
    [min(1.5 * (-1), 5) = -1.5] lies below [min_delay]. *)
Lemma negative_min_delay_leaves_bounds :
  let l := RateLimit.record_failure (RateLimit.new_limiter (-1) 5 true true) "example.org" in
  (-1 <= 5)%Q
  /\ (RateLimit.current_delay (RateLimit.stats_of l "example.org") == -(3 # 2))%Q
  /\ ~ (-1 <= RateLimit.current_delay (RateLimit.stats_of l "example.org"))%Q.
Proof.
  cbv zeta. split; [discriminate|].
  assert (E : RateLimit.current_delay
                (RateLimit.stats_of
                   (RateLimit.record_failure (RateLimit.new_limiter (-1) 5 true true) "example.org")
                   "example.org") = (-15 # 10)%Q) by (vm_compute; reflexivity).
  rewrite E. split; [reflexivity|]. intros H. apply H. reflexivity.
Qed.

(** The decrease is applied only when it lowers the delay: with the same
    configuration a fast success leaves the delay at [-1], where
    [max(0.9 * (-1), -1)] is [-0.9]. *)
Example decrease_only_when_lower :
  let l := RateLimit.record_success (RateLimit.new_limiter (-1) 5 true true) "example.org" (1 # 2) in
  (RateLimit.error_rate (RateLimit.stats_of l "example.org") == 0)%Q
  /\ (RateLimit.current_delay (RateLimit.stats_of l "example.org") == -1)%Q
  /\ (Qmax ((9 # 10) * -1) (-1) == -(9 # 10))%Q.
Proof. cbv zeta. split_and!; vm_compute; reflexivity. Qed.

(** An unseen domain starts at [min_delay] and its first wait is over at
    once. *)
Example first_wait_is_zero :
  let l := RateLimit.new_limiter 1 5 false true in
  RateLimit.current_delay (RateLimit.stats_of l "example.org") = 1%Q
  /\ fst (RateLimit.wait_if_needed l "example.org" 1700000000 1 1700000000) = 0%Q.
Proof. cbv zeta. split; vm_compute; reflexivity. Qed.

Lemma adjust_delay_policy_witness :
  let after :=
    RateLimit.run (RateLimit.new_limiter 1 5 false true)
      [RateLimit.RecordFailure "example.org"; RateLimit.RecordSuccess "example.org" (1 # 2)] in
  (1 <= RateLimit.current_delay (RateLimit.stats_of after "example.org") <= 5)%Q.
Proof.
  assert (H0 : (0 <= 1)%Q) by discriminate.
  assert (H1 : (1 <= 5)%Q) by discriminate.
  pose proof (adjust_delay_policy 1 5 false H0 H1
                [RateLimit.RecordFailure "example.org"]
                (RateLimit.RecordSuccess "example.org" (1 # 2)) "example.org" eq_refl)
    as (_ & _ & _ & _ & _ & Hb).
  exact (Hb "example.org").
Defined.

(** ** The proxy pool ([ProxyPool]) *)

Module ProxyPool.

Local Open Scope Q_scope.

(** One tracked proxy ([ProxyInfo]). Timestamps are in microseconds. *)
Record ProxyInfo := {
  url : string;
  protocol : string;
  success_count : Z;
  fail_count : Z;
  last_used : option Z;
  last_success : option Z;
  response_time : Q;
  is_banned : bool
}.

(** [ProxyInfo(url=proxy_url, protocol=protocol)]. *)
Definition new_proxy (proxy_url protocol : string) : ProxyInfo :=
  {| url := proxy_url; protocol := protocol; success_count := 0; fail_count := 0;
     last_used := None; last_success := None; response_time := 0; is_banned := false |}.

Definition success_rate (p : ProxyInfo) : Q :=
  let total := (success_count p + fail_count p)%Z in
  if (0 <? total)%Z then inject_Z (success_count p) / inject_Z total else 0.

Definition score (p : ProxyInfo) : Q :=
  let success_score := success_rate p * 70 in
  let speed_score := Py.py_max 0 (30 - response_time p * 10) in
  success_score + speed_score.

Record Pool := {
  rotation_strategy : string;
  max_fail_count : Z;
  ban_duration : Z;
  health_check_url : string;
  proxies : list ProxyInfo;
  current_index : Z
}.

Definition set_proxies (pool : Pool) (ps : list ProxyInfo) : Pool :=
  {| rotation_strategy := rotation_strategy pool; max_fail_count := max_fail_count pool;
     ban_duration := ban_duration pool; health_check_url := health_check_url pool;
     proxies := ps; current_index := current_index pool |}.

Definition set_current_index (pool : Pool) (i : Z) : Pool :=
  {| rotation_strategy := rotation_strategy pool; max_fail_count := max_fail_count pool;
     ban_duration := ban_duration pool; health_check_url := health_check_url pool;
     proxies := proxies pool; current_index := i |}.

Definition add_proxy (pool : Pool) (proxy_url protocol : string) : Pool :=
  set_proxies pool (proxies pool ++ [new_proxy proxy_url protocol]).

(** [ProxyPool(proxies, rotation_strategy, max_fail_count, ban_duration,
    health_check_url)]. *)
Definition new_pool (urls : list string) (rotation_strategy : string)
    (max_fail_count ban_duration : Z) (health_check_url : string) : Pool :=
  foldl (fun pool u => add_proxy pool u "http")
    {| rotation_strategy := rotation_strategy; max_fail_count := max_fail_count;
       ban_duration := ban_duration; health_check_url := health_check_url;
       proxies := []; current_index := 0 |}
    urls.

(** The filter of [get_proxy]: not banned, or last used longer ago than
    the cooldown. *)
Definition available (ban_duration now : Z) (p : ProxyInfo) : bool :=
  negb (is_banned p) ||
  match last_used p with
  | Some t => (Py.timedelta_seconds ban_duration <? now - t)%Z
  | None => false
  end.

(** The available proxies of a list, each with its position in the pool:
    the selected proxy is updated in place. *)
Fixpoint available_from (ban_duration now : Z) (i : nat) (ps : list ProxyInfo)
    : list (nat * ProxyInfo) :=
  match ps with
  | [] => []
  | p :: ps' =>
      if available ban_duration now p
      then (i, p) :: available_from ban_duration now (S i) ps'
      else available_from ban_duration now (S i) ps'
  end.

(** [max(candidates, key=lambda p: p.score)]: the first of the maximal
    elements, [best] being the maximum so far. *)
Fixpoint max_by_score (best : nat * ProxyInfo) (candidates : list (nat * ProxyInfo))
    : nat * ProxyInfo :=
  match candidates with
  | [] => best
  | c :: rest =>
      if Py.Qltb (score (snd best)) (score (snd c)) then max_by_score c rest
      else max_by_score best rest
  end.

Definition set_last_used (now : Z) (p : ProxyInfo) : ProxyInfo :=
  {| url := url p; protocol := protocol p; success_count := success_count p;
     fail_count := fail_count p; last_used := Some now; last_success := last_success p;
     response_time := response_time p; is_banned := is_banned p |}.

(** The composite score as the specification words it: [0.7] times the
    success rate plus [0.3 * (1 - response_time / 3)] bounded below at
    [0]. *)
Definition specified_score (p : ProxyInfo) : Q :=
  (7 # 10) * success_rate p + Qmax 0 ((3 # 10) * (1 - response_time p / 3)).

(** The dictionary [get_proxy] returns. *)
Record ProxyDict := { http : string; https : string }.

(** [_get_round_robin(proxies)] on a list that is not empty: the proxy
    at [current_index] modulo the length, and the index moved on. *)
Definition _get_round_robin (pool : Pool) (first : nat * ProxyInfo)
    (others : list (nat * ProxyInfo)) : (nat * ProxyInfo) * Pool :=
  let proxies := first :: others in
  let i := Z.to_nat (current_index pool mod Z.of_nat (length proxies)) in
  (nth i proxies first, set_current_index pool (current_index pool + 1)).

(** [get_proxy()]: [now] is the clock during the scan of the pool,
    [now_used] the clock when the selected proxy is stamped, [choice] the
    draw of [random.choice]. The result is the returned value and the
    new state of the pool. *)
Definition get_proxy (pool : Pool) (now now_used : Z) (choice : nat)
    : option ProxyDict * Pool :=
  match proxies pool with
  | [] => (None, pool)
  | _ :: _ =>
      match available_from (ban_duration pool) now 0 (proxies pool) with
      | [] => (None, pool)
      | first :: others =>
          let available_proxies := first :: others in
          let '(selected, pool) :=
            if String.eqb (rotation_strategy pool) "round_robin" then
              _get_round_robin pool first others
            else if String.eqb (rotation_strategy pool) "random" then
              (nth (choice mod length available_proxies) available_proxies first, pool)
            else if String.eqb (rotation_strategy pool) "best_performance" then
              (max_by_score first others, pool)
            else (first, pool) in
          (Some {| http := url (snd selected); https := url (snd selected) |},
           set_proxies pool (alter (set_last_used now_used) (fst selected) (proxies pool)))
      end
  end.

(** [_find_proxy(proxy_url)]: the position of the first proxy with this
    URL. *)
Fixpoint _find_proxy (ps : list ProxyInfo) (proxy_url : string) : option nat :=
  match ps with
  | [] => None
  | p :: ps' =>
      if String.eqb (url p) proxy_url then Some O
      else S <$> _find_proxy ps' proxy_url
  end.

(** What [mark_success] does to the proxy it finds. *)
Definition with_success (response_time' : Q) (now : Z) (p : ProxyInfo) : ProxyInfo :=
  {| url := url p; protocol := protocol p;
     success_count := success_count p + 1;
     fail_count := fail_count p;
     last_used := last_used p;
     last_success := Some now;
     response_time :=
       if Qeq_bool (response_time p) 0 then response_time'
       else (response_time p + response_time') / 2;
     is_banned := false |}.

(** What [mark_failure] does to the proxy it finds. *)
Definition with_failure (max_fail_count : Z) (p : ProxyInfo) : ProxyInfo :=
  {| url := url p; protocol := protocol p;
     success_count := success_count p;
     fail_count := fail_count p + 1;
     last_used := last_used p;
     last_success := last_success p;
     response_time := response_time p;
     is_banned := if (max_fail_count <=? fail_count p + 1)%Z then true else is_banned p |}.

Definition mark_success (pool : Pool) (proxy_url : string) (response_time : Q) (now : Z) : Pool :=
  match _find_proxy (proxies pool) proxy_url with
  | Some i => set_proxies pool (alter (with_success response_time now) i (proxies pool))
  | None => pool
  end.

Definition mark_failure (pool : Pool) (proxy_url reason : string) : Pool :=
  match _find_proxy (proxies pool) proxy_url with
  | Some i => set_proxies pool (alter (with_failure (max_fail_count pool)) i (proxies pool))
  | None => pool
  end.

(** The outcome of one probe of [health_check]: status 200 after some
    time, read at some instant, or anything else. *)
Inductive Probe := Healthy (response_time : Q) (now : Z) | Unhealthy (reason : string).

(** The sweep of [health_check] over the URLs of the pool; [probe] is the
    outcome for each position. The marks go through [_find_proxy]. *)
Fixpoint sweep (pool : Pool) (probe : nat -> Probe) (i : nat) (urls : list string) : Pool :=
  match urls with
  | [] => pool
  | u :: rest =>
      let pool :=
        match probe i with
        | Healthy rt now => mark_success pool u rt now
        | Unhealthy reason => mark_failure pool u reason
        end in
      sweep pool probe (S i) rest
  end.

Definition health_check (pool : Pool) (probe : nat -> Probe) : Pool :=
  sweep pool probe 0 (map url (proxies pool)).

(** The operations that change a pool. [load_from_file] and
    [load_from_api] add the URLs they read, one [add_proxy] each. *)
Inductive Op :=
| AddProxy (proxy_url protocol : string)
| Load (urls : list string)
| GetProxy (now now_used : Z) (choice : nat)
| MarkSuccess (proxy_url : string) (response_time : Q) (now : Z)
| MarkFailure (proxy_url reason : string)
| HealthCheck (probe : nat -> Probe).

Definition apply_op (pool : Pool) (op : Op) : Pool :=
  match op with
  | AddProxy u proto => add_proxy pool u proto
  | Load urls => foldl (fun pool u => add_proxy pool u "http") pool urls
  | GetProxy now now_used choice => snd (get_proxy pool now now_used choice)
  | MarkSuccess u rt now => mark_success pool u rt now
  | MarkFailure u reason => mark_failure pool u reason
  | HealthCheck probe => health_check pool probe
  end.

Definition run (pool : Pool) (ops : list Op) : Pool := foldl apply_op pool ops.

(** A run of [mark_failure] calls, each with its URL and reason. *)
Definition mark_failures (pool : Pool) (calls : list (string * string)) : Pool :=
  foldl (fun pool c => mark_failure pool (fst c) (snd c)) pool calls.

End ProxyPool.

(** *** Derived values of a proxy *)

Section ProxyScore.
Import ProxyPool.
Local Open Scope Q_scope.

Lemma speed_score_scale (rt : Q) :
  Qmax 0 (30 - rt * 10) == 100 * Qmax 0 ((3 # 10) * (1 - rt / 3)).
Proof.
  change (rt / 3) with (rt * (1 # 3)).
  destruct (Q.max_spec 0 (30 - rt * 10)) as [[H1 E1]|[H1 E1]];
    destruct (Q.max_spec 0 ((3 # 10) * (1 - rt * (1 # 3)))) as [[H2 E2]|[H2 E2]];
    rewrite E1, E2; lra.
Qed.

(** C6, as amended. The success rate is
    [success_count / (success_count + fail_count)], and [0] when both
    counters are [0]; the composite score is on a scale of 0 to 100: one
    hundred times [0.7 * success_rate] plus the term
    [0.3 * (1 - response_time / 3)] bounded below at [0], that is
    [70 * success_rate + max(0, 30 - 10 * response_time)]. *)
Theorem proxy_score_scale (p : ProxyInfo) :
  ((0 < success_count p + fail_count p)%Z ->
     success_rate p == inject_Z (success_count p) / inject_Z (success_count p + fail_count p)) /\
  (success_count p = 0%Z -> fail_count p = 0%Z -> success_rate p == 0) /\
  score p == 100 * specified_score p /\
  score p == 70 * success_rate p + Qmax 0 (30 - 10 * response_time p).
Proof.
  split_and!.
  - intros H. unfold success_rate. apply Z.ltb_lt in H. rewrite H. reflexivity.
  - intros Hs Hf. unfold success_rate. rewrite Hs, Hf. reflexivity.
  - unfold score, specified_score. rewrite py_max_Qmax, speed_score_scale. lra.
  - unfold score. rewrite py_max_Qmax.
    assert (E : Qmax 0 (30 - response_time p * 10) == Qmax 0 (30 - 10 * response_time p))
      by (apply Q.max_compat; [reflexivity|lra]).
    rewrite E. lra.
Qed.

End ProxyScore.

Definition proxy_one_success : ProxyPool.ProxyInfo :=
  ProxyPool.with_success 0 0 (ProxyPool.new_proxy "http://10.0.0.1:8080" "http").

(** A proxy with one success, no failure and response time [0] has
    success rate [1] and score [70 + 30 = 100], where the specified
    formula gives [0.7 + 0.3 = 1]. *)
Lemma score_is_not_specified_score :
  (ProxyPool.success_rate proxy_one_success == 1)%Q
  /\ (ProxyPool.score proxy_one_success == 100)%Q
  /\ (ProxyPool.specified_score proxy_one_success == 1)%Q
  /\ ~ (ProxyPool.score proxy_one_success == ProxyPool.specified_score proxy_one_success)%Q.
Proof.
  assert (E1 : (ProxyPool.score proxy_one_success == 100)%Q) by reflexivity.
  assert (E2 : (ProxyPool.specified_score proxy_one_success == 1)%Q) by reflexivity.
  split_and!; [reflexivity|exact E1|exact E2|].
  rewrite E1, E2. discriminate.
Qed.

Lemma proxy_score_scale_witness :
  (ProxyPool.success_rate proxy_one_success == 1 # 1)%Q
  /\ (ProxyPool.score proxy_one_success == 100 * ProxyPool.specified_score proxy_one_success)%Q.
Proof.
  destruct (proxy_score_scale proxy_one_success) as (H1 & _ & H3 & _).
  split; [|exact H3].
  rewrite H1; [reflexivity|reflexivity].
Defined.

(** *** Banning and un-banning *)

Section ProxyBan.
Import ProxyPool.

Lemma find_proxy_lookup (ps : list ProxyInfo) (u : string) (i : nat) :
  _find_proxy ps u = Some i -> exists p, ps !! i = Some p /\ url p = u.
Proof.
  revert i. induction ps as [|q ps IH]; intros i; simpl; [discriminate|].
  destruct (String.eqb_spec (url q) u) as [E|E].
  - intros [= <-]. exists q. auto.
  - destruct (_find_proxy ps u) as [j|]; simpl; [|discriminate].
    intros [= <-]. simpl. apply IH. reflexivity.
Qed.

Lemma find_proxy_alter (f : ProxyInfo -> ProxyInfo) (i : nat) (ps : list ProxyInfo) (u : string) :
  (forall p, url (f p) = url p) ->
  _find_proxy (alter f i ps) u = _find_proxy ps u.
Proof.
  intros Hf. revert i. induction ps as [|q ps IH]; intros [|i]; try reflexivity.
  - change (alter f 0%nat (q :: ps)) with (f q :: ps). simpl. now rewrite Hf.
  - change (alter f (S i) (q :: ps)) with (q :: alter f i ps). simpl. now rewrite IH.
Qed.

Lemma find_proxy_app (ps qs : list ProxyInfo) (u : string) (i : nat) :
  _find_proxy ps u = Some i -> _find_proxy (ps ++ qs) u = Some i.
Proof.
  revert i. induction ps as [|q ps IH]; intros i; simpl; [discriminate|].
  destruct (String.eqb (url q) u); [auto|].
  destruct (_find_proxy ps u) as [j|]; simpl; [|discriminate].
  intros [= <-]. now rewrite (IH j).
Qed.

(** What every operation keeps: the proxy a URL resolves to, the place
    and URL of each proxy, and a failure counter that never goes down. *)
Definition keeps (ps ps' : list ProxyInfo) : Prop :=
  (forall u i, _find_proxy ps u = Some i -> _find_proxy ps' u = Some i) /\
  (forall k p, ps !! k = Some p ->
     exists p', ps' !! k = Some p' /\ url p' = url p /\ fail_count p <= fail_count p').

Lemma keeps_refl (ps : list ProxyInfo) : keeps ps ps.
Proof. split; [auto|]. intros k p H. exists p. split_and!; [assumption|reflexivity|lia]. Qed.

Lemma keeps_trans (ps1 ps2 ps3 : list ProxyInfo) :
  keeps ps1 ps2 -> keeps ps2 ps3 -> keeps ps1 ps3.
Proof.
  intros [F1 L1] [F2 L2]. split; [auto|].
  intros k p H. destruct (L1 k p H) as (p2 & H2 & U2 & C2).
  destruct (L2 k p2 H2) as (p3 & H3 & U3 & C3).
  exists p3. split_and!; [assumption|congruence|lia].
Qed.

Lemma keeps_alter (f : ProxyInfo -> ProxyInfo) (i : nat) (ps : list ProxyInfo) :
  (forall p, url (f p) = url p) ->
  (forall p, fail_count p <= fail_count (f p)) ->
  keeps ps (alter f i ps).
Proof.
  intros Hu Hc. split.
  - intros u j H. now rewrite find_proxy_alter.
  - intros k p H. destruct (decide (i = k)) as [->|Hne].
    + exists (f p). rewrite list_lookup_alter_eq, H. split_and!; auto.
    + exists p. rewrite list_lookup_alter_ne by exact Hne. split_and!; auto. lia.
Qed.

Lemma keeps_app (ps qs : list ProxyInfo) : keeps ps (ps ++ qs).
Proof.
  split.
  - intros u i. apply find_proxy_app.
  - intros k p H. exists p. split_and!; [now apply lookup_app_l_Some|reflexivity|lia].
Qed.

Lemma keeps_mark_success (pool : Pool) (u : string) (rt : Q) (now : Z) :
  keeps (proxies pool) (proxies (mark_success pool u rt now)) /\
  max_fail_count (mark_success pool u rt now) = max_fail_count pool.
Proof.
  unfold mark_success. destruct (_find_proxy (proxies pool) u); simpl.
  - split; [|reflexivity]. apply keeps_alter; intros p; simpl; [reflexivity|lia].
  - split; [apply keeps_refl|reflexivity].
Qed.

Lemma keeps_mark_failure (pool : Pool) (u reason : string) :
  keeps (proxies pool) (proxies (mark_failure pool u reason)) /\
  max_fail_count (mark_failure pool u reason) = max_fail_count pool.
Proof.
  unfold mark_failure. destruct (_find_proxy (proxies pool) u); simpl.
  - split; [|reflexivity]. apply keeps_alter; intros p; simpl; [reflexivity|lia].
  - split; [apply keeps_refl|reflexivity].
Qed.

Lemma keeps_add_proxies (urls : list string) (pool : Pool) :
  keeps (proxies pool) (proxies (foldl (fun pool u => add_proxy pool u "http") pool urls)) /\
  max_fail_count (foldl (fun pool u => add_proxy pool u "http") pool urls) = max_fail_count pool.
Proof.
  revert pool. induction urls as [|u urls IH]; intros pool; simpl.
  - split; [apply keeps_refl|reflexivity].
  - destruct (IH (add_proxy pool u "http")) as [K M]. split; [|exact M].
    eapply keeps_trans; [|exact K]. simpl. apply keeps_app.
Qed.

Lemma keeps_get_proxy (pool : Pool) (now now_used : Z) (choice : nat) :
  keeps (proxies pool) (proxies (snd (get_proxy pool now now_used choice))) /\
  max_fail_count (snd (get_proxy pool now now_used choice)) = max_fail_count pool.
Proof.
  unfold get_proxy. destruct (proxies pool) as [|p0 ps] eqn:E.
  - simpl. rewrite E. split; [apply keeps_refl|reflexivity].
  - destruct (available_from _ _ _ _) as [|first others].
    + simpl. rewrite E. split; [apply keeps_refl|reflexivity].
    + destruct (String.eqb (rotation_strategy pool) "round_robin");
        [|destruct (String.eqb (rotation_strategy pool) "random");
          [|destruct (String.eqb (rotation_strategy pool) "best_performance")]];
        simpl; rewrite E; (split; [|reflexivity]);
        apply keeps_alter; intros p; simpl; (reflexivity || lia).
Qed.

Lemma keeps_sweep (urls : list string) (probe : nat -> Probe) (i : nat) (pool : Pool) :
  keeps (proxies pool) (proxies (sweep pool probe i urls)) /\
  max_fail_count (sweep pool probe i urls) = max_fail_count pool.
Proof.
  revert i pool. induction urls as [|u urls IH]; intros i pool; simpl.
  - split; [apply keeps_refl|reflexivity].
  - destruct (probe i) as [rt now|reason].
    + destruct (IH (S i) (mark_success pool u rt now)) as [K M].
      destruct (keeps_mark_success pool u rt now) as [K' M'].
      split; [eapply keeps_trans; eassumption|congruence].
    + destruct (IH (S i) (mark_failure pool u reason)) as [K M].
      destruct (keeps_mark_failure pool u reason) as [K' M'].
      split; [eapply keeps_trans; eassumption|congruence].
Qed.

Lemma keeps_apply_op (pool : Pool) (op : Op) :
  keeps (proxies pool) (proxies (apply_op pool op)) /\
  max_fail_count (apply_op pool op) = max_fail_count pool.
Proof.
  destruct op; simpl.
  - split; [apply keeps_app|reflexivity].
  - apply keeps_add_proxies.
  - apply keeps_get_proxy.
  - apply keeps_mark_success.
  - apply keeps_mark_failure.
  - apply keeps_sweep.
Qed.

Lemma keeps_run (ops : list Op) (pool : Pool) :
  keeps (proxies pool) (proxies (run pool ops)) /\
  max_fail_count (run pool ops) = max_fail_count pool.
Proof.
  unfold run. revert pool. induction ops as [|op ops IH]; intros pool; simpl.
  - split; [apply keeps_refl|reflexivity].
  - destruct (IH (apply_op pool op)) as [K M].
    destruct (keeps_apply_op pool op) as [K' M'].
    split; [eapply keeps_trans; eassumption|congruence].
Qed.

(** A failure recorded for the proxy its URL resolves to, with a counter
    already at the threshold, bans it. *)
Lemma mark_failure_bans (pool : Pool) (k : nat) (p : ProxyInfo) (reason : string) :
  proxies pool !! k = Some p ->
  _find_proxy (proxies pool) (url p) = Some k ->
  max_fail_count pool <= fail_count p + 1 ->
  is_banned <$> (proxies (mark_failure pool (url p) reason) !! k) = Some true.
Proof.
  intros Hk Hf Hm. unfold mark_failure. rewrite Hf. simpl.
  rewrite list_lookup_alter_eq, Hk. simpl.
  apply Z.leb_le in Hm. now rewrite Hm.
Qed.

(** A success recorded for the proxy its URL resolves to un-bans it and
    leaves its failure counter as it is. *)
Lemma mark_success_unbans (pool : Pool) (k : nat) (p : ProxyInfo) (rt : Q) (now : Z) :
  proxies pool !! k = Some p ->
  _find_proxy (proxies pool) (url p) = Some k ->
  exists p', proxies (mark_success pool (url p) rt now) !! k = Some p' /\
             is_banned p' = false /\ fail_count p' = fail_count p.
Proof.
  intros Hk Hf. unfold mark_success. rewrite Hf. simpl.
  rewrite list_lookup_alter_eq, Hk. simpl. eauto.
Qed.

(** C9. The failure counter of a proxy never goes down, whatever the
    pool does ([mark_success] included: it clears the flag and keeps the
    counter). So once the counter of a proxy has reached
    [max_fail_count], then after any further operations, un-banning
    successes among them, each single [mark_failure] for it sets
    [is_banned] at once. The proxy is the one its URL resolves to, the
    first of the pool with that URL. *)
Theorem fail_count_never_resets (pool : Pool) (ops : list Op) (k : nat) (p : ProxyInfo) :
  proxies pool !! k = Some p ->
  (exists p',
     proxies (run pool ops) !! k = Some p' /\
     url p' = url p /\
     fail_count p <= fail_count p') /\
  (_find_proxy (proxies pool) (url p) = Some k ->
   (forall rt now,
      exists q, proxies (mark_success pool (url p) rt now) !! k = Some q /\
                is_banned q = false /\ fail_count q = fail_count p) /\
   (max_fail_count pool <= fail_count p ->
    forall reason,
      is_banned <$> (proxies (mark_failure (run pool ops) (url p) reason) !! k) = Some true)).
Proof.
  intros Hk. destruct (keeps_run ops pool) as [[Kf Kl] Km].
  destruct (Kl k p Hk) as (p' & Hk' & Hu & Hc).
  split; [exists p'; auto|].
  intros Hfind. split.
  - intros rt now. apply mark_success_unbans; assumption.
  - intros Hmax reason. rewrite <- Hu.
    apply mark_failure_bans; [exact Hk'| |rewrite Km; lia].
    rewrite Hu. apply Kf, Hfind.
Qed.

(** After a run of [mark_failure] calls a proxy is banned exactly when it
    was banned before, or its counter went up and has reached the
    threshold; and a counter only goes up for the proxy its URL resolves
    to. *)
Lemma mark_failures_at (calls : list (string * string)) (pool : Pool) (k : nat) (p : ProxyInfo) :
  proxies pool !! k = Some p ->
  exists p',
    proxies (mark_failures pool calls) !! k = Some p' /\
    url p' = url p /\
    fail_count p <= fail_count p' /\
    is_banned p' =
      (is_banned p ||
       ((fail_count p <? fail_count p') && (max_fail_count pool <=? fail_count p')))%bool /\
    (fail_count p < fail_count p' -> _find_proxy (proxies pool) (url p) = Some k).
Proof.
  unfold mark_failures. revert pool p.
  induction calls as [|[u reason] calls IH]; intros pool p Hk; simpl.
  - exists p. split_and!; try reflexivity; try assumption; try lia.
    rewrite Z.ltb_irrefl. simpl. now rewrite orb_false_r.
  - assert (Hstep : exists p1,
              proxies (mark_failure pool u reason) !! k = Some p1 /\
              url p1 = url p /\
              (p1 = p \/
               (_find_proxy (proxies pool) (url p) = Some k /\
                fail_count p1 = fail_count p + 1 /\
                is_banned p1 =
                  if max_fail_count pool <=? fail_count p + 1 then true else is_banned p))).
    { unfold mark_failure. destruct (_find_proxy (proxies pool) u) as [i|] eqn:Hf; simpl.
      - destruct (decide (i = k)) as [->|Hne].
        + rewrite list_lookup_alter_eq, Hk. simpl. eexists. split; [reflexivity|].
          split; [reflexivity|]. right. simpl.
          destruct (find_proxy_lookup _ _ _ Hf) as (q & Hq & Hu).
          rewrite Hk in Hq. injection Hq as <-. rewrite Hu. auto.
        + rewrite list_lookup_alter_ne by exact Hne. eauto.
      - eauto. }
    destruct Hstep as (p1 & Hk1 & Hu1 & Hcase).
    destruct (IH (mark_failure pool u reason) p1 Hk1) as (p' & Hk' & Hu' & Hc' & Hb' & Hf').
    destruct (keeps_mark_failure pool u reason) as [[Kf _] Km].
    rewrite Km in Hb'.
    exists p'. split; [exact Hk'|]. split; [congruence|].
    destruct Hcase as [->|(Hfind & Hc1 & Hb1)].
    + split_and!; try assumption.
      intros Hlt. specialize (Hf' Hlt).
      unfold mark_failure in Hf'.
      destruct (_find_proxy (proxies pool) u) as [i|] eqn:Hf; simpl in Hf'; [|exact Hf'].
      rewrite find_proxy_alter in Hf' by reflexivity. exact Hf'.
    + split_and!; [lia| |intros _; exact Hfind].
      rewrite Hb', Hb1, Hc1.
      destruct (is_banned p); simpl;
        [destruct (max_fail_count pool <=? fail_count p + 1); reflexivity|].
      destruct (Z.leb_spec (max_fail_count pool) (fail_count p + 1));
        destruct (Z.ltb_spec (fail_count p + 1) (fail_count p'));
        destruct (Z.ltb_spec (fail_count p) (fail_count p'));
        destruct (Z.leb_spec (max_fail_count pool) (fail_count p'));
        simpl; try reflexivity; lia.
Qed.

(** C3. For a proxy of the pool that is not banned, a run of
    [mark_failure] calls (no [mark_success] in between) that brings its
    failure counter to exactly [max_fail_count] leaves it banned, and
    one [mark_success] for its URL after that clears the flag. *)
Theorem ban_at_max_fail_count (pool : Pool) (calls : list (string * string))
    (k : nat) (p : ProxyInfo) :
  proxies pool !! k = Some p ->
  is_banned p = false ->
  fail_count p < max_fail_count pool ->
  fail_count <$> (proxies (mark_failures pool calls) !! k) = Some (max_fail_count pool) ->
  is_banned <$> (proxies (mark_failures pool calls) !! k) = Some true /\
  forall rt now,
    is_banned <$> (proxies (mark_success (mark_failures pool calls) (url p) rt now) !! k)
    = Some false.
Proof.
  intros Hk Hb Hlt Hmax.
  destruct (mark_failures_at calls pool k p Hk) as (p' & Hk' & Hu & Hc & Hb' & Hf).
  rewrite Hk' in Hmax |- *. simpl in Hmax |- *. injection Hmax as Hmax.
  split.
  - rewrite Hb', Hb, Hmax. simpl.
    apply Z.ltb_lt in Hlt. rewrite Hlt, Z.leb_refl. reflexivity.
  - intros rt now.
    assert (Hfind : _find_proxy (proxies (mark_failures pool calls)) (url p') = Some k).
    { rewrite Hu. unfold mark_failures.
      assert (K : forall (cs : list (string * string)) (q : Pool),
                keeps (proxies q)
                  (proxies (foldl (fun pool c => mark_failure pool (fst c) (snd c)) q cs))).
      { induction cs as [|c cs IHcs]; intros q; simpl; [apply keeps_refl|].
        eapply keeps_trans; [apply keeps_mark_failure|apply IHcs]. }
      apply (K calls pool), Hf. lia. }
    destruct (mark_success_unbans _ k p' rt now Hk' Hfind) as (p'' & Hk'' & Hb'' & _).
    rewrite Hu in Hk''. rewrite Hk''. simpl. now rewrite Hb''.
Qed.

End ProxyBan.

Definition pool_two_failures : ProxyPool.Pool :=
  ProxyPool.new_pool ["http://10.0.0.1:8080"; "http://10.0.0.2:8080"]
    "round_robin" 2 300 "http://httpbin.org/ip".

Lemma ban_at_max_fail_count_witness :
  let calls := [("http://10.0.0.1:8080", "timeout"); ("http://10.0.0.2:8080", "timeout");
                ("http://10.0.0.1:8080", "refused")] in
  ProxyPool.is_banned <$>
    (ProxyPool.proxies (ProxyPool.mark_failures pool_two_failures calls) !! 0%nat) = Some true
  /\ ProxyPool.is_banned <$>
       (ProxyPool.proxies
          (ProxyPool.mark_success (ProxyPool.mark_failures pool_two_failures calls)
             "http://10.0.0.1:8080" (1 # 2) 0) !! 0%nat) = Some false.
Proof.
  cbv zeta.
  destruct (ban_at_max_fail_count pool_two_failures
              [("http://10.0.0.1:8080", "timeout"); ("http://10.0.0.2:8080", "timeout");
               ("http://10.0.0.1:8080", "refused")]
              0%nat (ProxyPool.new_proxy "http://10.0.0.1:8080" "http")
              eq_refl eq_refl eq_refl eq_refl) as [H1 H2].
  split; [exact H1|exact (H2 (1 # 2)%Q 0)].
Defined.

Lemma fail_count_never_resets_witness :
  let pool := ProxyPool.mark_failures pool_two_failures
                [("http://10.0.0.1:8080", "timeout"); ("http://10.0.0.1:8080", "refused")] in
  ProxyPool.is_banned <$>
    (ProxyPool.proxies
       (ProxyPool.mark_failure
          (ProxyPool.run pool [ProxyPool.MarkSuccess "http://10.0.0.1:8080" (1 # 2) 0])
          "http://10.0.0.1:8080" "timeout") !! 0%nat) = Some true.
Proof.
  cbv zeta.
  destruct (fail_count_never_resets
              (ProxyPool.mark_failures pool_two_failures
                 [("http://10.0.0.1:8080", "timeout"); ("http://10.0.0.1:8080", "refused")])
              [ProxyPool.MarkSuccess "http://10.0.0.1:8080" (1 # 2) 0] 0%nat
              (ProxyPool.with_failure 2
                 (ProxyPool.with_failure 2 (ProxyPool.new_proxy "http://10.0.0.1:8080" "http")))
              eq_refl) as [_ H].
  destruct (H eq_refl) as [_ Hban].
  apply Hban. discriminate.
Defined.

(** One success un-bans, and the next single failure bans again: the
    counter stayed at the threshold. *)
Example unban_then_reban :
  let pool := ProxyPool.mark_failures pool_two_failures
                [("http://10.0.0.1:8080", "timeout"); ("http://10.0.0.1:8080", "refused")] in
  let pool1 := ProxyPool.mark_success pool "http://10.0.0.1:8080" (1 # 2) 0 in
  let pool2 := ProxyPool.mark_failure pool1 "http://10.0.0.1:8080" "timeout" in
  (ProxyPool.is_banned <$> ProxyPool.proxies pool !! 0%nat,
   ProxyPool.is_banned <$> ProxyPool.proxies pool1 !! 0%nat,
   ProxyPool.is_banned <$> ProxyPool.proxies pool2 !! 0%nat,
   ProxyPool.fail_count <$> ProxyPool.proxies pool2 !! 0%nat)
  = (Some true, Some false, Some true, Some 3).
Proof. reflexivity. Qed.

(** *** Selection of a proxy *)

Section ProxySelection.
Import ProxyPool.

Lemma available_from_nil (b now : Z) (i : nat) (ps : list ProxyInfo) :
  available_from b now i ps = [] <-> Forall (fun p => available b now p = false) ps.
Proof.
  revert i. induction ps as [|p ps IH]; intros i; simpl.
  - split; [constructor|reflexivity].
  - rewrite Forall_cons. destruct (available b now p) eqn:E.
    + split; [discriminate|intros [H _]; discriminate].
    + rewrite IH. split; [auto|intros [_ H]; exact H].
Qed.

(** Whatever is in the filtered list is a proxy of the pool, at the
    position it is listed with, and passes the filter. *)
Lemma available_from_elem (b now : Z) (i : nat) (ps : list ProxyInfo) (j : nat) (p : ProxyInfo) :
  (j, p) ∈ available_from b now i ps ->
  (i <= j)%nat /\ ps !! (j - i)%nat = Some p /\ available b now p = true.
Proof.
  revert i. induction ps as [|q ps IH]; intros i; simpl.
  - intros H. inversion H.
  - destruct (available b now q) eqn:E.
    + rewrite elem_of_cons. intros [[= -> ->]|H].
      * rewrite Nat.sub_diag. auto.
      * destruct (IH _ H) as (Hle & Hl & Ha).
        split_and!; [lia| |exact Ha].
        replace (j - i)%nat with (S (j - S i)) by lia. exact Hl.
    + intros H. destruct (IH _ H) as (Hle & Hl & Ha).
      split_and!; [lia| |exact Ha].
      replace (j - i)%nat with (S (j - S i)) by lia. exact Hl.
Qed.

Lemma nth_elem (A : Type) (d : A) (l : list A) (i : nat) : nth i (d :: l) d ∈ d :: l.
Proof.
  destruct (Nat.lt_ge_cases i (length (d :: l))) as [H|H].
  - apply list_elem_of_In, nth_In, H.
  - rewrite nth_overflow by exact H. apply elem_of_cons. auto.
Qed.

Lemma max_by_score_elem (candidates : list (nat * ProxyInfo)) (best : nat * ProxyInfo) :
  max_by_score best candidates ∈ best :: candidates.
Proof.
  revert best. induction candidates as [|c rest IH]; intros best; simpl.
  - apply elem_of_cons. auto.
  - destruct (Py.Qltb _ _).
    + apply elem_of_cons. right. apply IH.
    + specialize (IH best). apply elem_of_cons in IH as [IH|IH].
      * rewrite IH. apply elem_of_cons. auto.
      * apply elem_of_cons. right. apply elem_of_cons. auto.
Qed.

(** [get_proxy] returns nothing exactly when no proxy passes the filter,
    and otherwise a proxy of the pool that passes it. *)
Lemma get_proxy_result (pool : Pool) (now now_used : Z) (choice : nat) :
  (Forall (fun p => available (ban_duration pool) now p = false) (proxies pool) /\
   fst (get_proxy pool now now_used choice) = None) \/
  (exists p, p ∈ proxies pool /\ available (ban_duration pool) now p = true /\
             fst (get_proxy pool now now_used choice)
             = Some {| http := url p; https := url p |}).
Proof.
  unfold get_proxy. destruct (proxies pool) as [|p0 ps] eqn:E.
  - left. split; [constructor|reflexivity].
  - destruct (available_from (ban_duration pool) now 0 (p0 :: ps)) as [|first others] eqn:F.
    + left. split; [|reflexivity]. now apply available_from_nil in F.
    + right.
      assert (Hsel : forall sel : nat * ProxyInfo, sel ∈ first :: others ->
                snd sel ∈ p0 :: ps /\ available (ban_duration pool) now (snd sel) = true).
      { intros [j p] Hin. rewrite <- F in Hin.
        apply available_from_elem in Hin as (_ & Hl & Ha).
        split; [eapply list_elem_of_lookup_2; exact Hl|exact Ha]. }
      destruct (String.eqb (rotation_strategy pool) "round_robin");
        [|destruct (String.eqb (rotation_strategy pool) "random");
          [|destruct (String.eqb (rotation_strategy pool) "best_performance")]];
        simpl;
        match goal with
        | |- exists p, _ /\ _ /\ Some {| http := url (snd ?sel); https := _ |} = _ =>
            exists (snd sel); destruct (Hsel sel) as [H1 H2];
            [first [apply nth_elem | apply max_by_score_elem | apply elem_of_cons; auto]
            |split_and!; [exact H1|exact H2|reflexivity]]
        end.
Qed.

(** C5. [get_proxy] returns [None] when the pool is empty, and when
    every proxy is banned and still within its cooldown measured since
    [last_used] (a banned proxy that was never used stays out as well).
    It returns a proxy of the pool as soon as the cooldown of some banned
    proxy has elapsed, whatever its count of successes and whatever the
    rotation strategy. *)
Theorem get_proxy_none_or_cooled_down (pool : Pool) (now now_used : Z) (choice : nat) :
  (proxies pool = [] -> fst (get_proxy pool now now_used choice) = None) /\
  (Forall (fun p => is_banned p = true /\
                    forall t, last_used p = Some t ->
                              now - t <= Py.timedelta_seconds (ban_duration pool))
          (proxies pool) ->
   fst (get_proxy pool now now_used choice) = None) /\
  (Exists (fun p => is_banned p = true /\
                    exists t, last_used p = Some t /\
                              Py.timedelta_seconds (ban_duration pool) < now - t)
          (proxies pool) ->
   exists p, p ∈ proxies pool /\
             fst (get_proxy pool now now_used choice)
             = Some {| http := url p; https := url p |}).
Proof.
  split_and!.
  - intros E. unfold get_proxy. now rewrite E.
  - intros Hall.
    destruct (get_proxy_result pool now now_used choice) as [[_ H]|(p & Hin & Ha & _)];
      [exact H|exfalso].
    rewrite Forall_forall in Hall. destruct (Hall p Hin) as [Hb Ht].
    unfold available in Ha. rewrite Hb in Ha. simpl in Ha.
    destruct (last_used p) as [t|]; [|discriminate].
    apply Z.ltb_lt in Ha. specialize (Ht t eq_refl). lia.
  - intros Hex.
    destruct (get_proxy_result pool now now_used choice) as [[Hnone _]|(p & Hin & _ & H)];
      [exfalso|eauto].
    apply Exists_exists in Hex as (p & Hin & Hb & t & Ht & Hlt).
    rewrite Forall_forall in Hnone. specialize (Hnone p Hin).
    unfold available in Hnone. rewrite Hb, Ht in Hnone. simpl in Hnone.
    apply Z.ltb_ge in Hnone. lia.
Qed.

End ProxySelection.

(** A pool of one proxy that was handed out at instant [0], never
    succeeded, and failed once with [max_fail_count = 1]: banned, with a
    cooldown of 300 seconds. *)
Definition pool_one_banned : ProxyPool.Pool :=
  ProxyPool.mark_failure
    (snd (ProxyPool.get_proxy
            (ProxyPool.new_pool ["http://10.0.0.1:8080"] "best_performance" 1 300
               "http://httpbin.org/ip") 0 0 0))
    "http://10.0.0.1:8080" "timeout".

Example pool_one_banned_state :
  ProxyPool.proxies pool_one_banned =
  [ {| ProxyPool.url := "http://10.0.0.1:8080"; ProxyPool.protocol := "http";
       ProxyPool.success_count := 0; ProxyPool.fail_count := 1;
       ProxyPool.last_used := Some 0; ProxyPool.last_success := None;
       ProxyPool.response_time := 0; ProxyPool.is_banned := true |} ].
Proof. reflexivity. Qed.

Example get_proxy_within_cooldown :
  fst (ProxyPool.get_proxy pool_one_banned 300000000 300000000 0) = None.
Proof. reflexivity. Qed.

Lemma get_proxy_none_or_cooled_down_witness :
  exists p, p ∈ ProxyPool.proxies pool_one_banned /\
    fst (ProxyPool.get_proxy pool_one_banned 300000001 300000001 0)
    = Some {| ProxyPool.http := ProxyPool.url p; ProxyPool.https := ProxyPool.url p |}.
Proof.
  apply (proj2 (proj2 (get_proxy_none_or_cooled_down pool_one_banned 300000001 300000001 0))).
  apply Exists_cons_hd. split; [reflexivity|].
  exists 0. split; reflexivity.
Defined.

(** ** The session manager ([SessionManager]) *)

Module Session.

(** A session bundle. [created_at] and [last_used] are stored in ISO
    format and read back by [datetime.fromisoformat], which gives the
    instant back. *)
Record SessionData := {
  platform : string;
  account_id : option string;
  cookies : gmap string string;
  created_at : Z;
  last_used : Z;
  metadata : gmap string string
}.

(** What a session file holds: a pickled bundle, or bytes that
    [pickle.load] rejects. *)
Inductive Stored := Pickled (session : SessionData) | Unreadable.

Record Manager := {
  session_dir : string;
  session_timeout : Z;
  sessions : gmap string SessionData;
  files : gmap string Stored
}.

Definition set_sessions (m : Manager) (ss : gmap string SessionData) : Manager :=
  {| session_dir := session_dir m; session_timeout := session_timeout m;
     sessions := ss; files := files m |}.

Definition set_files (m : Manager) (fs : gmap string Stored) : Manager :=
  {| session_dir := session_dir m; session_timeout := session_timeout m;
     sessions := sessions m; files := fs |}.

(** [f"{platform}_{account_id}" if account_id else platform]: an empty
    account id counts as none. *)
Definition session_key (platform : string) (account_id : option string) : string :=
  match account_id with
  | Some a => if Py.truthy a then platform +:+ "_" +:+ a else platform
  | None => platform
  end.

(** [age < self.session_timeout], the age in seconds. *)
Definition _is_session_valid (m : Manager) (now : Z) (session : SessionData) : bool :=
  let age := now - last_used session in
  age <? Py.timedelta_seconds (session_timeout m).

Definition _get_session_filepath (m : Manager) (session_key : string) : string :=
  Py.path_join (session_dir m) (session_key +:+ ".pkl").

(** [read_ok] is false when opening or reading the file raises. *)
Definition _load_session_from_file (m : Manager) (session_key : string) (read_ok : bool)
    : option SessionData :=
  match files m !! _get_session_filepath m session_key with
  | None => None
  | Some stored =>
      if read_ok then
        match stored with
        | Pickled session => Some session
        | Unreadable => None
        end
      else None
  end.

(** [write_ok] is false when opening or writing the file raises; the
    file is then taken to stay as it was. *)
Definition _save_session_to_file (m : Manager) (session_key : string) (session : SessionData)
    (write_ok : bool) : Manager :=
  if write_ok
  then set_files m (<[_get_session_filepath m session_key := Pickled session]> (files m))
  else m.

(** [get_session(platform, account_id)]: [now] is the clock when the
    cached bundle is checked, [now_file] the clock when the bundle read
    from the file is. *)
Definition get_session (m : Manager) (platform : string) (account_id : option string)
    (now now_file : Z) (read_ok : bool) : option SessionData * Manager :=
  let session_key := session_key platform account_id in
  let cached :=
    match sessions m !! session_key with
    | Some session =>
        if _is_session_valid m now session then (Some session, m)
        else (None, set_sessions m (delete session_key (sessions m)))
    | None => (None, m)
    end in
  match cached with
  | (Some session, m) => (Some session, m)
  | (None, m) =>
      match _load_session_from_file m session_key read_ok with
      | Some session =>
          if _is_session_valid m now_file session
          then (Some session, set_sessions m (<[session_key := session]> (sessions m)))
          else (None, m)
      | None => (None, m)
      end
  end.

(** [save_session(platform, cookies, account_id, metadata)]:
    [now_created] and [now_used] are the two readings of the clock. *)
Definition save_session (m : Manager) (platform : string) (cookies : gmap string string)
    (account_id : option string) (metadata : option (gmap string string))
    (now_created now_used : Z) (write_ok : bool) : Manager :=
  let session_key := session_key platform account_id in
  let session :=
    {| platform := platform; account_id := account_id; cookies := cookies;
       created_at := now_created; last_used := now_used;
       metadata := default ∅ metadata |} in
  let m := set_sessions m (<[session_key := session]> (sessions m)) in
  _save_session_to_file m session_key session write_ok.

Definition clear_session (m : Manager) (platform : string) (account_id : option string)
    : Manager :=
  let session_key := session_key platform account_id in
  let m := set_sessions m (delete session_key (sessions m)) in
  set_files m (delete (_get_session_filepath m session_key) (files m)).

(** [SessionManager(session_dir, session_timeout)] over the files found
    on disk. *)
Definition new_manager (session_dir : string) (session_timeout : Z)
    (files : gmap string Stored) : Manager :=
  {| session_dir := session_dir; session_timeout := session_timeout;
     sessions := ∅; files := files |}.

(** The copy on disk under a key, if any, was not stamped after the
    instant [t]. *)
Definition durable_not_after (m : Manager) (session_key : string) (t : Z) : Prop :=
  forall session,
    files m !! _get_session_filepath m session_key = Some (Pickled session) ->
    last_used session <= t.

End Session.

Section SessionFacts.
Import Session.

Lemma save_session_cached (m : Manager) (p : string) (c : gmap string string)
    (a : option string) (md : option (gmap string string)) (t1 t2 : Z) (w : bool) :
  let saved := save_session m p c a md t1 t2 w in
  session_timeout saved = session_timeout m /\
  session_dir saved = session_dir m /\
  exists session,
    sessions saved !! session_key p a = Some session /\
    cookies session = c /\ last_used session = t2 /\
    (files saved !! _get_session_filepath saved (session_key p a) =
     if w then Some (Pickled session) else files m !! _get_session_filepath m (session_key p a)).
Proof.
  unfold save_session, _save_session_to_file. destruct w; simpl.
  - split_and!; try reflexivity. eexists. rewrite lookup_insert_eq.
    split_and!; try reflexivity.
    unfold _get_session_filepath; simpl. now rewrite lookup_insert_eq.
  - split_and!; try reflexivity. eexists. rewrite lookup_insert_eq.
    split_and!; reflexivity.
Qed.

(** A bundle that is cached and still valid is returned as it is. *)
Lemma get_session_cached (m : Manager) (p : string) (a : option string)
    (now now_file : Z) (r : bool) (session : SessionData) :
  sessions m !! session_key p a = Some session ->
  now - last_used session < Py.timedelta_seconds (session_timeout m) ->
  fst (get_session m p a now now_file r) = Some session.
Proof.
  intros Hs Hv. unfold get_session. rewrite Hs.
  unfold _is_session_valid. apply Z.ltb_lt in Hv. now rewrite Hv.
Qed.

(** Once the cached bundle and the copy on disk have both expired, there
    is no session. *)
Lemma get_session_expired (m : Manager) (p : string) (a : option string)
    (now now_file : Z) (r : bool) :
  (forall session, sessions m !! session_key p a = Some session ->
     Py.timedelta_seconds (session_timeout m) <= now - last_used session) ->
  (forall session,
     files m !! _get_session_filepath m (session_key p a) = Some (Pickled session) ->
     Py.timedelta_seconds (session_timeout m) <= now_file - last_used session) ->
  fst (get_session m p a now now_file r) = None.
Proof.
  intros Hmem Hfile. unfold get_session.
  assert (Hload : forall m' : Manager,
            files m' = files m -> session_dir m' = session_dir m ->
            session_timeout m' = session_timeout m ->
            fst (match _load_session_from_file m' (session_key p a) r with
                 | Some session =>
                     if _is_session_valid m' now_file session
                     then (Some session,
                           set_sessions m' (<[session_key p a := session]> (sessions m')))
                     else (None, m')
                 | None => (None, m')
                 end) = None).
  { intros m' Ef Ed Et. unfold _load_session_from_file, _get_session_filepath.
    rewrite Ef, Ed.
    destruct (files m !! Py.path_join (session_dir m) (session_key p a +:+ ".pkl"))
      as [[s|]|] eqn:E; destruct r; try reflexivity.
    unfold _is_session_valid. rewrite Et.
    specialize (Hfile s E). apply Z.ltb_ge in Hfile. now rewrite Hfile. }
  destruct (sessions m !! session_key p a) as [s|] eqn:E.
  - unfold _is_session_valid at 1.
    specialize (Hmem s eq_refl). apply Z.ltb_ge in Hmem. rewrite Hmem.
    apply Hload; reflexivity.
  - apply Hload; reflexivity.
Qed.

(** Whatever [get_session] returns was valid at the instant it was
    checked: it never hands out an expired bundle. *)
Lemma get_session_valid (m : Manager) (p : string) (a : option string)
    (now now_file : Z) (r : bool) (session : SessionData) :
  fst (get_session m p a now now_file r) = Some session ->
  now - last_used session < Py.timedelta_seconds (session_timeout m) \/
  now_file - last_used session < Py.timedelta_seconds (session_timeout m).
Proof.
  unfold get_session.
  assert (Hload : forall m' : Manager,
            session_timeout m' = session_timeout m ->
            fst (match _load_session_from_file m' (session_key p a) r with
                 | Some session =>
                     if _is_session_valid m' now_file session
                     then (Some session,
                           set_sessions m' (<[session_key p a := session]> (sessions m')))
                     else (None, m')
                 | None => (None, m')
                 end) = Some session ->
            now_file - last_used session < Py.timedelta_seconds (session_timeout m)).
  { intros m' Et. destruct (_load_session_from_file m' _ r) as [s|]; [|discriminate].
    unfold _is_session_valid. rewrite Et.
    destruct (Z.ltb_spec (now_file - last_used s) (Py.timedelta_seconds (session_timeout m)));
      [|discriminate].
    simpl. intros [= <-]. assumption. }
  destruct (sessions m !! session_key p a) as [s|].
  - unfold _is_session_valid at 1.
    destruct (Z.ltb_spec (now - last_used s) (Py.timedelta_seconds (session_timeout m))).
    + simpl. intros [= <-]. left. assumption.
    + intros Hr. right. eapply Hload; [|exact Hr]. reflexivity.
  - intros Hr. right. eapply Hload; [|exact Hr]. reflexivity.
Qed.

(** C4. [save_session] followed by [get_session] for the same key, before
    the timeout has elapsed since the save, returns a bundle with the
    saved cookies; once the age of the session ([now - last_used]) has
    reached the timeout, [get_session] returns no session. The copy on
    disk is the one just written or, when the write failed, one that was
    not stamped after the save. In every case a bundle that
    [get_session] returns has an age strictly below the timeout at the
    instant it was checked. *)
Theorem save_then_get_session (m : Manager) (p : string) (a : option string)
    (c : gmap string string) (md : option (gmap string string))
    (now_created now_used now now_file : Z) (write_ok read_ok : bool) :
  let saved := save_session m p c a md now_created now_used write_ok in
  let result := fst (get_session saved p a now now_file read_ok) in
  (now - now_used < Py.timedelta_seconds (session_timeout m) ->
   cookies <$> result = Some c) /\
  (Py.timedelta_seconds (session_timeout m) <= now - now_used ->
   now <= now_file ->
   write_ok = true \/ durable_not_after m (session_key p a) now_used ->
   result = None) /\
  (forall session, result = Some session ->
     now - last_used session < Py.timedelta_seconds (session_timeout m) \/
     now_file - last_used session < Py.timedelta_seconds (session_timeout m)).
Proof.
  intros saved result.
  destruct (save_session_cached m p c a md now_created now_used write_ok)
    as (Et & Ed & s & Hs & Hc & Hu & Hf).
  fold saved in Et, Ed, Hs, Hf. split_and!.
  - intros Hv. subst result.
    rewrite (get_session_cached saved p a now now_file read_ok s Hs); simpl.
    + now rewrite Hc.
    + now rewrite Hu, Et.
  - intros Hv Hmono Hdisk. subst result. apply get_session_expired.
    + intros s' Hs'. rewrite Hs in Hs'. injection Hs' as <-. rewrite Hu, Et. exact Hv.
    + intros s' Hs'. rewrite Et. rewrite Hf in Hs'. destruct write_ok.
      * injection Hs' as <-. rewrite Hu. lia.
      * destruct Hdisk as [Hw|Hd]; [discriminate|].
        specialize (Hd s' Hs'). lia.
  - intros s' Hr. rewrite <- Et. exact (get_session_valid _ _ _ _ _ _ _ Hr).
Qed.

(** With a clock that does not go backwards, nothing in the cache or on
    disk is stamped after the present instant; the operations of the
    manager keep it so, and the copy on disk is then never newer than a
    bundle that is being saved. *)
Definition stamped_by (m : Manager) (t : Z) : Prop :=
  (forall k session, sessions m !! k = Some session -> last_used session <= t) /\
  (forall f session, files m !! f = Some (Pickled session) -> last_used session <= t).

Lemma stamped_by_later (m : Manager) (t t' : Z) :
  t <= t' -> stamped_by m t -> stamped_by m t'.
Proof.
  intros Hle [Hs Hf]. split.
  - intros k s H. specialize (Hs k s H). lia.
  - intros f s H. specialize (Hf f s H). lia.
Qed.

Lemma stamped_by_durable (m : Manager) (key : string) (t : Z) :
  stamped_by m t -> durable_not_after m key t.
Proof. intros [_ Hf] s H. exact (Hf _ s H). Qed.

Lemma stamped_by_save (m : Manager) (p : string) (c : gmap string string)
    (a : option string) (md : option (gmap string string)) (t1 t2 : Z) (w : bool) :
  stamped_by m t2 -> stamped_by (save_session m p c a md t1 t2 w) t2.
Proof.
  intros [Hs Hf]. unfold save_session, _save_session_to_file.
  assert (Hmem : forall k s,
            <[session_key p a :=
                {| platform := p; account_id := a; cookies := c; created_at := t1;
                   last_used := t2; metadata := default ∅ md |}]> (sessions m) !! k = Some s ->
            last_used s <= t2).
  { intros k s. destruct (decide (session_key p a = k)) as [<-|Hne].
    - rewrite lookup_insert_eq. intros [= <-]. simpl. lia.
    - rewrite lookup_insert_ne by exact Hne. apply Hs. }
  destruct w; split; simpl; try exact Hmem; try exact Hf.
  intros f s. unfold _get_session_filepath. simpl.
  destruct (decide (Py.path_join (session_dir m) (session_key p a +:+ ".pkl") = f)) as [<-|Hne].
  - rewrite lookup_insert_eq. intros [= <-]. simpl. lia.
  - rewrite lookup_insert_ne by exact Hne. apply Hf.
Qed.

Lemma stamped_by_get (m : Manager) (p : string) (a : option string)
    (now now_file : Z) (r : bool) (t : Z) :
  stamped_by m t -> stamped_by (snd (get_session m p a now now_file r)) t.
Proof.
  intros [Hs Hf]. unfold get_session.
  assert (Hload : forall m' : Manager,
            stamped_by m' t ->
            stamped_by
              (snd (match _load_session_from_file m' (session_key p a) r with
                    | Some session =>
                        if _is_session_valid m' now_file session
                        then (Some session,
                              set_sessions m' (<[session_key p a := session]> (sessions m')))
                        else (None, m')
                    | None => (None, m')
                    end)) t).
  { intros m' [Hs' Hf']. unfold _load_session_from_file.
    destruct (files m' !! _get_session_filepath m' (session_key p a)) as [[s|]|] eqn:E;
      destruct r; try (split; assumption).
    destruct (_is_session_valid m' now_file s); [|split; assumption].
    split; simpl; [|exact Hf'].
    intros k s'. destruct (decide (session_key p a = k)) as [<-|Hne].
    - rewrite lookup_insert_eq. intros [= <-]. exact (Hf' _ s E).
    - rewrite lookup_insert_ne by exact Hne. apply Hs'. }
  destruct (sessions m !! session_key p a) as [s|] eqn:E.
  - destruct (_is_session_valid m now s); [split; assumption|].
    apply Hload. split; simpl; [|exact Hf].
    intros k s' H. apply lookup_delete_Some in H as [_ H]. exact (Hs k s' H).
  - apply Hload. split; assumption.
Qed.

Lemma stamped_by_clear (m : Manager) (p : string) (a : option string) (t : Z) :
  stamped_by m t -> stamped_by (clear_session m p a) t.
Proof.
  intros [Hs Hf]. unfold clear_session. split; simpl.
  - intros k s H. apply lookup_delete_Some in H as [_ H]. exact (Hs k s H).
  - intros f s H. apply lookup_delete_Some in H as [_ H]. exact (Hf f s H).
Qed.

Lemma session_key_account (p a : string) :
  a <> EmptyString -> session_key p (Some a) = session_key (p +:+ "_" +:+ a) None.
Proof.
  intros Ha. unfold session_key. apply truthy_spec in Ha. now rewrite Ha.
Qed.

(** C10, as amended. The session key is not injective: for every
    platform [p] and non-empty account [a], the key of
    [(platform = p, account = a)] is the key of
    [(platform = p + "_" + a, no account)]. So [get_session] and
    [clear_session] do the same with either form, and a session saved
    with one form replaces, and is read back by, the other. An empty
    account id counts as no account. *)
Theorem session_key_not_injective (p a : string) :
  a <> EmptyString ->
  session_key p (Some a) = session_key (p +:+ "_" +:+ a) None /\
  (forall m now now_file read_ok,
     get_session m p (Some a) now now_file read_ok =
     get_session m (p +:+ "_" +:+ a) None now now_file read_ok) /\
  (forall m, clear_session m p (Some a) = clear_session m (p +:+ "_" +:+ a) None) /\
  (forall m c md t1 t2 w now now_file read_ok,
     now - t2 < Py.timedelta_seconds (session_timeout m) ->
     cookies <$> fst (get_session (save_session m p c (Some a) md t1 t2 w)
                        (p +:+ "_" +:+ a) None now now_file read_ok) = Some c /\
     cookies <$> fst (get_session (save_session m (p +:+ "_" +:+ a) c None md t1 t2 w)
                        p (Some a) now now_file read_ok) = Some c).
Proof.
  intros Ha. pose proof (session_key_account p a Ha) as E.
  split_and!; [exact E| | |].
  - intros. unfold get_session. now rewrite E.
  - intros. unfold clear_session. now rewrite E.
  - intros m c md t1 t2 w now now_file r Hv. split.
    + destruct (save_session_cached m p c (Some a) md t1 t2 w) as (Et & _ & s & Hs & Hc & Hu & _).
      rewrite E in Hs.
      rewrite (get_session_cached _ _ None now now_file r s Hs); simpl; [now rewrite Hc|].
      now rewrite Hu, Et.
    + destruct (save_session_cached m (p +:+ "_" +:+ a) c None md t1 t2 w)
        as (Et & _ & s & Hs & Hc & Hu & _).
      rewrite <- E in Hs.
      rewrite (get_session_cached _ _ (Some a) now now_file r s Hs); simpl; [now rewrite Hc|].
      now rewrite Hu, Et.
Qed.

End SessionFacts.

Definition manager_example : Session.Manager :=
  Session.new_manager "./data/sessions" 3600 ∅.

Definition cookies_example : gmap string string := {[ "sid" := "abc" ]}.

Lemma save_then_get_session_witness :
  let saved :=
    Session.save_session manager_example "platformA" cookies_example None None 0 0 true in
  Session.cookies <$> fst (Session.get_session saved "platformA" None 1 1 true)
  = Some cookies_example
  /\ fst (Session.get_session saved "platformA" None 3600000000 3600000000 true) = None.
Proof.
  cbv zeta. split.
  - apply (proj1 (save_then_get_session manager_example "platformA" None cookies_example
                    None 0 0 1 1 true true)).
    reflexivity.
  - apply (proj1 (proj2 (save_then_get_session manager_example "platformA" None
                             cookies_example None 0 0 3600000000 3600000000 true true))).
    + discriminate.
    + discriminate.
    + left. reflexivity.
Defined.

(** An empty account id is falsy: the key is the platform alone, not the
    platform followed by an underscore. *)
Lemma session_key_empty_account :
  Session.session_key "nsrr" (Some EmptyString) = "nsrr"
  /\ Session.session_key ("nsrr" +:+ "_" +:+ EmptyString) None = "nsrr_"
  /\ Session.session_key "nsrr" (Some EmptyString) <>
     Session.session_key ("nsrr" +:+ "_" +:+ EmptyString) None.
Proof. split_and!; [reflexivity|reflexivity|discriminate]. Qed.

Lemma session_key_not_injective_witness :
  Session.session_key "nsrr" (Some "alice") = Session.session_key "nsrr_alice" None.
Proof.
  apply (proj1 (session_key_not_injective "nsrr" "alice" ltac:(discriminate))).
Defined.

(** ** SHA-256

    The function behind [hashlib.sha256(data).hexdigest()] (FIPS 180-4),
    on byte strings, used to run the pipeline on concrete files. *)

Module SHA256.

Local Open Scope Z_scope.

Definition add32 (x y : Z) : Z := (x + y) mod 4294967296.

Definition rotr (n x : Z) : Z :=
  Z.lor (Z.shiftr x n) (Z.shiftl x (32 - n) mod 4294967296).

Definition Ch (x y z : Z) : Z :=
  Z.lxor (Z.land x y) (Z.land (Z.lxor x 4294967295) z).

Definition Maj (x y z : Z) : Z :=
  Z.lxor (Z.lxor (Z.land x y) (Z.land x z)) (Z.land y z).

Definition Sigma0 (x : Z) : Z := Z.lxor (Z.lxor (rotr 2 x) (rotr 13 x)) (rotr 22 x).
Definition Sigma1 (x : Z) : Z := Z.lxor (Z.lxor (rotr 6 x) (rotr 11 x)) (rotr 25 x).
Definition sigma0 (x : Z) : Z := Z.lxor (Z.lxor (rotr 7 x) (rotr 18 x)) (Z.shiftr x 3).
Definition sigma1 (x : Z) : Z := Z.lxor (Z.lxor (rotr 17 x) (rotr 19 x)) (Z.shiftr x 10).

(** The first sixty-four primes. *)
Definition primes : list Z :=
  [ 2; 3; 5; 7; 11; 13; 17; 19; 23; 29; 31; 37; 41; 43; 47; 53;
    59; 61; 67; 71; 73; 79; 83; 89; 97; 101; 103; 107; 109; 113; 127; 131;
    137; 139; 149; 151; 157; 163; 167; 173; 179; 181; 191; 193; 197; 199; 211; 223;
    227; 229; 233; 239; 241; 251; 257; 263; 269; 271; 277; 281; 283; 293; 307; 311 ].

(** The integer cube root of [n] by bisection: [lo ^ 3 <= n < hi ^ 3]. *)
Fixpoint cube_root (fuel : nat) (lo hi n : Z) : Z :=
  match fuel with
  | O => lo
  | S fuel' =>
      let mid := (lo + hi) / 2 in
      if mid * mid * mid <=? n then cube_root fuel' mid hi n
      else cube_root fuel' lo mid n
  end.

(** The first 32 bits of the fractional part of the cube root, and of
    the square root, of [p]. *)
Definition frac_cube_root (p : Z) : Z :=
  cube_root 40 0 (2 ^ 35) (p * 2 ^ 96) mod 4294967296.

Definition frac_square_root (p : Z) : Z :=
  Z.sqrt (p * 2 ^ 64) mod 4294967296.

(** The round constants. *)
Definition K : list Z := Eval vm_compute in map frac_cube_root primes.

Record State := {
  ha : Z; hb : Z; hc : Z; hd : Z; he : Z; hf : Z; hg : Z; hh : Z
}.

Definition initial : State :=
  {| ha := frac_square_root 2; hb := frac_square_root 3;
     hc := frac_square_root 5; hd := frac_square_root 7;
     he := frac_square_root 11; hf := frac_square_root 13;
     hg := frac_square_root 17; hh := frac_square_root 19 |}.

Definition round (s : State) (k w : Z) : State :=
  let t1 := add32 (add32 (add32 (add32 (hh s) (Sigma1 (he s))) (Ch (he s) (hf s) (hg s))) k) w in
  let t2 := add32 (Sigma0 (ha s)) (Maj (ha s) (hb s) (hc s)) in
  {| ha := add32 t1 t2; hb := ha s; hc := hb s; hd := hc s;
     he := add32 (hd s) t1; hf := he s; hg := hf s; hh := hg s |}.

(** The 64 rounds over a block: [window] holds the sixteen latest words
    of the message schedule, oldest first. *)
Fixpoint rounds (ks : list Z) (window : list Z) (s : State) : State :=
  match ks with
  | [] => s
  | k :: ks' =>
      let w := nth 0 window 0 in
      let next :=
        add32 (add32 (add32 (sigma1 (nth 14 window 0)) (nth 9 window 0))
                 (sigma0 (nth 1 window 0))) w in
      rounds ks' (tl window ++ [next]) (round s k w)
  end.

Definition compress (s : State) (block : list Z) : State :=
  let r := rounds K block s in
  {| ha := add32 (ha s) (ha r); hb := add32 (hb s) (hb r);
     hc := add32 (hc s) (hc r); hd := add32 (hd s) (hd r);
     he := add32 (he s) (he r); hf := add32 (hf s) (hf r);
     hg := add32 (hg s) (hg r); hh := add32 (hh s) (hh r) |}.

Fixpoint bytes_of_string (s : string) : list Z :=
  match s with
  | EmptyString => []
  | String c s' => Z.of_nat (nat_of_ascii c) :: bytes_of_string s'
  end.

(** Big-endian words of a list of bytes, four bytes each. *)
Fixpoint words (bytes : list Z) : list Z :=
  match bytes with
  | b0 :: b1 :: b2 :: b3 :: rest =>
      (((b0 * 256 + b1) * 256 + b2) * 256 + b3) :: words rest
  | _ => []
  end.

Definition pad (bytes : list Z) : list Z :=
  let len := Z.of_nat (length bytes) in
  let bits := 8 * len in
  bytes ++ [128] ++ repeat 0 (Z.to_nat ((55 - len) mod 64)) ++
  map (fun i => Z.shiftr bits (8 * i) mod 256) [7; 6; 5; 4; 3; 2; 1; 0].

Fixpoint blocks (fuel : nat) (ws : list Z) (s : State) : State :=
  match fuel, ws with
  | S fuel', _ :: _ => blocks fuel' (skipn 16 ws) (compress s (firstn 16 ws))
  | _, _ => s
  end.

Definition hex_digit (n : Z) : ascii :=
  nth (Z.to_nat (n mod 16))
    ["0"; "1"; "2"; "3"; "4"; "5"; "6"; "7"; "8"; "9"; "a"; "b"; "c"; "d"; "e"; "f"]%char
    "0"%char.

Definition hex32 (w : Z) (rest : string) : string :=
  String (hex_digit (Z.shiftr w 28)) (String (hex_digit (Z.shiftr w 24))
  (String (hex_digit (Z.shiftr w 20)) (String (hex_digit (Z.shiftr w 16))
  (String (hex_digit (Z.shiftr w 12)) (String (hex_digit (Z.shiftr w 8))
  (String (hex_digit (Z.shiftr w 4)) (String (hex_digit w) rest))))))).

Definition hexdigest (data : string) : string :=
  let ws := words (pad (bytes_of_string data)) in
  let s := blocks (length ws) ws initial in
  hex32 (ha s) (hex32 (hb s) (hex32 (hc s) (hex32 (hd s)
  (hex32 (he s) (hex32 (hf s) (hex32 (hg s) (hex32 (hh s) EmptyString))))))).

End SHA256.

Example sha256_constants :
  nth 0 SHA256.K 0 = 0x428a2f98 /\ nth 63 SHA256.K 0 = 0xc67178f2
  /\ SHA256.ha SHA256.initial = 0x6a09e667 /\ SHA256.hh SHA256.initial = 0x5be0cd19.
Proof. vm_compute. auto. Qed.

Example sha256_abc :
  SHA256.hexdigest "abc" = "ba7816bf8f01cfea414140de5dae2223b00361a396177a9cb410ff61f20015ad".
Proof. vm_compute. reflexivity. Qed.

Example sha256_empty :
  SHA256.hexdigest EmptyString
  = "e3b0c44298fc1c149afbf4c8996fb92427ae41e4649b934ca495991b7852b855".
Proof. vm_compute. reflexivity. Qed.

Example sha256_two_blocks :
  SHA256.hexdigest "abcdbcdecdefdefgefghfghighijhijkijkljklmklmnlmnomnopnopq"
  = "248d6a61d20638b8e5c026930c3e6039a33ce45964ff2167f6ecedd419db06c1".
Proof. vm_compute. reflexivity. Qed.

Lemma hexdigest_length (data : string) : String.length (SHA256.hexdigest data) = 64%nat.
Proof. reflexivity. Qed.

Lemma hexdigest_nonempty (data : string) : SHA256.hexdigest data <> EmptyString.
Proof. unfold SHA256.hexdigest, SHA256.hex32. discriminate. Qed.

(** ** Completion of the downloads of an item ([item_completed]) *)

Module Completion.

(** A file descriptor, the dict the files pipeline builds for a finished
    download; [item_completed] adds the key [sha256]. *)
Record FileInfo := {
  url : string;
  path : option string;
  checksum : string;
  status : string;
  sha256 : option string
}.

Definition set_sha256 (file_info : FileInfo) (digest : string) : FileInfo :=
  {| url := url file_info; path := path file_info; checksum := checksum file_info;
     status := status file_info; sha256 := Some digest |}.

(** The descriptors are Python objects: the summary and the results hold
    references to them, and a reference is an address of the store. *)
Definition loc := nat.

(** One entry of [results]: [(True, file_info)] with a descriptor, or
    [(False, failure)]. *)
Inductive Result := Downloaded (file_info : loc) | Failed (failure : string).

(** [item['downloaded_files']]. *)
Record Summary := {
  successful : Z;
  failed : Z;
  files : list loc
}.

Record Item := {
  track_id : option string;
  downloaded_files : option Summary
}.

(** A file of the store directory: its bytes, or a file that cannot be
    opened or read. *)
Inductive File := Readable (content : string) | Broken.

(** The size of the blocks [_calculate_sha256] reads. *)
Definition block_size : nat := 4096.

(** The loop [for byte_block in iter(lambda: f.read(4096), b"")] over
    what is left of the file: [hashed] is what the hash object has been
    fed so far ([update] appends to it). The loop ends at the first
    empty block; [fuel] bounds the number of blocks. *)
Fixpoint read_blocks (fuel : nat) (remaining hashed : string) : string :=
  match fuel with
  | O => hashed
  | S fuel' =>
      let byte_block := Py.take block_size remaining in
      if String.eqb byte_block EmptyString then hashed
      else read_blocks fuel' (Py.drop block_size remaining) (hashed +:+ byte_block)
  end.

Section Hashlib.

(** [hashlib.sha256(data).hexdigest()] of the Python standard library. *)
Variable sha256_hexdigest : string -> string.

(** [_calculate_sha256(file_path)]: the digest of the blocks read, or the
    empty string when opening or reading raises. *)
Definition _calculate_sha256 (disk : gmap string File) (file_path : string) : string :=
  match disk !! file_path with
  | Some (Readable content) =>
      sha256_hexdigest (read_blocks (S (String.length content)) content EmptyString)
  | Some Broken => EmptyString
  | None => EmptyString
  end.

(** The body of the loop [for file_info in successful]. *)
Definition add_checksum (basedir : string) (disk : gmap string File)
    (store : gmap loc FileInfo) (l : loc) : gmap loc FileInfo :=
  match store !! l with
  | Some file_info =>
      match path file_info with
      | Some file_path =>
          if Py.truthy file_path then
            let full_path := Py.path_join basedir file_path in
            if decide (is_Some (disk !! full_path))
            then <[l := set_sha256 file_info (_calculate_sha256 disk full_path)]> store
            else store
          else store
      | None => store
      end
  | None => store
  end.

Definition successes (results : list Result) : list loc :=
  omap (fun r => match r with Downloaded l => Some l | Failed _ => None end) results.

Definition failures (results : list Result) : list string :=
  omap (fun r => match r with Downloaded _ => None | Failed f => Some f end) results.

(** [item_completed(results, item, info)]: the new store of descriptors
    and the item returned. *)
Definition item_completed (basedir : string) (disk : gmap string File)
    (store : gmap loc FileInfo) (results : list Result) (item : Item)
    : gmap loc FileInfo * Item :=
  let successful := successes results in
  let failed := failures results in
  let item :=
    {| track_id := track_id item;
       downloaded_files :=
         Some {| successful := Z.of_nat (length successful);
                 failed := Z.of_nat (length failed);
                 files := successful |} |} in
  (foldl (add_checksum basedir disk) store successful, item).

End Hashlib.

(** The number of downloads that succeeded, and that failed. *)
Fixpoint count_downloaded (results : list Result) : Z :=
  match results with
  | [] => 0
  | Downloaded _ :: rest => 1 + count_downloaded rest
  | Failed _ :: rest => count_downloaded rest
  end.

Fixpoint count_failed (results : list Result) : Z :=
  match results with
  | [] => 0
  | Downloaded _ :: rest => count_failed rest
  | Failed _ :: rest => 1 + count_failed rest
  end.

End Completion.

Section CompletionFacts.
Import Completion.

Lemma append_nil_r (s : string) : s +:+ EmptyString = s.
Proof. induction s as [|a s IH]; push_append; [reflexivity|now rewrite IH]. Qed.

Lemma append_assoc (a b c : string) : (a +:+ b) +:+ c = a +:+ (b +:+ c).
Proof. induction a as [|x a IH]; push_append; [reflexivity|now rewrite IH]. Qed.

Lemma take_drop (n : nat) (s : string) : Py.take n s +:+ Py.drop n s = s.
Proof.
  revert s. induction n as [|n IH]; intros [|a s]; simpl; try reflexivity.
  push_append. now rewrite IH.
Qed.

Lemma take_empty (n : nat) (s : string) :
  n <> 0%nat -> Py.take n s = EmptyString -> s = EmptyString.
Proof. destruct n, s; simpl; congruence. Qed.

Lemma drop_shorter (n : nat) (s : string) :
  n <> 0%nat -> s <> EmptyString -> (String.length (Py.drop n s) < String.length s)%nat.
Proof.
  intros Hn Hs. destruct n as [|n]; [congruence|]. destruct s as [|a s]; [congruence|].
  simpl. clear. revert s. induction n as [|n IH]; intros s; simpl; [lia|].
  destruct s as [|b s]; simpl; [lia|]. specialize (IH s). lia.
Qed.

(** With enough fuel the loop feeds the hash object the whole file, block
    after block. *)
Lemma read_blocks_all (fuel : nat) (remaining hashed : string) :
  (String.length remaining < fuel)%nat ->
  read_blocks fuel remaining hashed = hashed +:+ remaining.
Proof.
  assert (Hb : block_size <> 0%nat) by (unfold block_size; discriminate).
  revert remaining hashed. induction fuel as [|fuel IH]; intros remaining hashed Hlen; [lia|].
  cbn [read_blocks].
  destruct (String.eqb_spec (Py.take block_size remaining) EmptyString) as [E|E].
  - apply (take_empty _ _ Hb) in E. subst remaining. now rewrite append_nil_r.
  - assert (Hne : remaining <> EmptyString).
    { intros ->. apply E. destruct block_size; reflexivity. }
    rewrite IH.
    + rewrite append_assoc, take_drop. reflexivity.
    + pose proof (drop_shorter block_size remaining Hb Hne). lia.
Qed.

Variable sha256_hexdigest : string -> string.

(** A SHA-256 digest in hexadecimal is never empty (it has 64 digits). *)
Hypothesis sha256_hexdigest_nonempty : forall data, sha256_hexdigest data <> EmptyString.

Lemma calculate_sha256_readable (disk : gmap string File) (file_path content : string) :
  disk !! file_path = Some (Readable content) ->
  _calculate_sha256 sha256_hexdigest disk file_path = sha256_hexdigest content.
Proof.
  intros H. unfold _calculate_sha256. rewrite H.
  rewrite read_blocks_all by lia. reflexivity.
Qed.

(** What the loop over the successful downloads does to one descriptor. *)
Definition stamp (basedir : string) (disk : gmap string File) (file_info : FileInfo) : FileInfo :=
  match path file_info with
  | Some file_path =>
      if Py.truthy file_path then
        if decide (is_Some (disk !! Py.path_join basedir file_path))
        then set_sha256 file_info
               (_calculate_sha256 sha256_hexdigest disk (Py.path_join basedir file_path))
        else file_info
      else file_info
  | None => file_info
  end.

Lemma stamp_idempotent (basedir : string) (disk : gmap string File) (file_info : FileInfo) :
  stamp basedir disk (stamp basedir disk file_info) = stamp basedir disk file_info.
Proof.
  unfold stamp. destruct (path file_info) as [p|] eqn:E; [|now rewrite E].
  destruct (Py.truthy p) eqn:T; [|now rewrite E, T].
  destruct (decide _) as [D|D]; [|rewrite E, T; now destruct (decide _)].
  simpl. rewrite E, T. destruct (decide _); [reflexivity|contradiction].
Qed.

Lemma add_checksum_alter (basedir : string) (disk : gmap string File)
    (store : gmap loc FileInfo) (l : loc) :
  add_checksum sha256_hexdigest basedir disk store l = alter (stamp basedir disk) l store.
Proof.
  apply map_eq. intros l'. unfold add_checksum.
  destruct (decide (l = l')) as [<-|Hne].
  - rewrite lookup_alter_eq.
    destruct (store !! l) as [fi|] eqn:E; [|now rewrite E].
    simpl. unfold stamp.
    destruct (path fi) as [p|]; [|now rewrite E].
    destruct (Py.truthy p); [|now rewrite E].
    destruct (decide _); [|now rewrite E].
    now rewrite lookup_insert_eq.
  - rewrite lookup_alter_ne by exact Hne.
    destruct (store !! l) as [fi|]; [|reflexivity].
    destruct (path fi) as [p|]; [|reflexivity].
    destruct (Py.truthy p); [|reflexivity].
    destruct (decide _); [|reflexivity].
    now rewrite lookup_insert_ne.
Qed.

Lemma fold_add_checksum (basedir : string) (disk : gmap string File)
    (ls : list loc) (store : gmap loc FileInfo) (l : loc) :
  foldl (add_checksum sha256_hexdigest basedir disk) store ls !! l =
  if decide (l ∈ ls) then stamp basedir disk <$> store !! l else store !! l.
Proof.
  revert store. induction ls as [|x ls IH]; intros store; cbn [foldl].
  - case_decide as H; [inversion H|reflexivity].
  - rewrite IH, add_checksum_alter.
    destruct (decide (x = l)) as [->|Hne].
    + rewrite lookup_alter_eq.
      destruct (decide (l ∈ l :: ls)) as [_|N]; [|exfalso; apply N, elem_of_cons; auto].
      destruct (decide (l ∈ ls)); [|reflexivity].
      destruct (store !! l); simpl; [now rewrite stamp_idempotent|reflexivity].
    + rewrite lookup_alter_ne by exact Hne.
      destruct (decide (l ∈ ls)) as [H|H]; destruct (decide (l ∈ x :: ls)) as [H'|H'];
        try reflexivity; exfalso.
      * apply H', elem_of_cons; auto.
      * apply elem_of_cons in H' as [->|H']; [congruence|contradiction].
Qed.

Lemma successes_elem (results : list Result) (l : loc) :
  l ∈ successes results <-> Downloaded l ∈ results.
Proof.
  unfold successes. rewrite list_elem_of_omap. split.
  - intros ([l'|f] & Hin & [= <-]). exact Hin.
  - intros Hin. exists (Downloaded l). auto.
Qed.

Lemma successes_length (results : list Result) :
  Z.of_nat (length (successes results)) = count_downloaded results.
Proof.
  induction results as [|[l|f] results IH]; simpl; [reflexivity| |exact IH].
  rewrite <- IH. unfold successes. simpl. lia.
Qed.

Lemma failures_length (results : list Result) :
  Z.of_nat (length (failures results)) = count_failed results.
Proof.
  induction results as [|[l|f] results IH]; simpl; [reflexivity|exact IH|].
  rewrite <- IH. unfold failures. simpl. lia.
Qed.

Lemma count_results_total (results : list Result) :
  count_downloaded results + count_failed results = Z.of_nat (length results).
Proof.
  induction results as [|[l|f] results IH]; simpl length; simpl count_downloaded;
    simpl count_failed; lia.
Qed.

(** C7. The completion callback attaches to the item a summary with
    exactly the number of downloads that succeeded, the number that
    failed, and the list of the descriptors of the successful ones. Every
    successful descriptor whose file is on disk carries the SHA-256
    digest of the bytes of the file, a non-empty hexadecimal string; when
    the file cannot be read the digest is the empty string, and the item
    is returned all the same. *)
Theorem item_completed_summary (basedir : string) (disk : gmap string File)
    (store : gmap loc FileInfo) (results : list Result) (item : Item) :
  let out := item_completed sha256_hexdigest basedir disk store results item in
  downloaded_files (snd out) =
    Some {| successful := count_downloaded results;
            failed := count_failed results;
            files := successes results |} /\
  count_downloaded results + count_failed results = Z.of_nat (length results) /\
  (forall l, l ∈ successes results <-> Downloaded l ∈ results) /\
  (forall l file_info file_path,
     Downloaded l ∈ results ->
     store !! l = Some file_info ->
     path file_info = Some file_path ->
     file_path <> EmptyString ->
     match disk !! Py.path_join basedir file_path with
     | Some (Readable content) =>
         fst out !! l = Some (set_sha256 file_info (sha256_hexdigest content)) /\
         sha256_hexdigest content <> EmptyString
     | Some Broken => fst out !! l = Some (set_sha256 file_info EmptyString)
     | None => fst out !! l = Some file_info
     end).
Proof.
  intros out. subst out. unfold item_completed. cbn [fst snd downloaded_files].
  split_and!.
  - now rewrite successes_length, failures_length.
  - apply count_results_total.
  - apply successes_elem.
  - intros l fi p Hin Hl Hp Hne.
    rewrite fold_add_checksum, Hl.
    apply successes_elem in Hin.
    destruct (decide (l ∈ successes results)) as [_|N]; [|contradiction].
    simpl. unfold stamp. rewrite Hp.
    apply truthy_spec in Hne. rewrite Hne.
    destruct (disk !! Py.path_join basedir p) as [[content|]|] eqn:E.
    + destruct (decide _) as [_|N]; [|exfalso; apply N; eauto].
      rewrite (calculate_sha256_readable _ _ content E). auto.
    + destruct (decide _) as [_|N]; [|exfalso; apply N; eauto].
      unfold _calculate_sha256. now rewrite E.
    + destruct (decide _) as [[x Hx]|_]; [discriminate|reflexivity].
Qed.

End CompletionFacts.

(** One download of the record succeeded and its file holds the bytes
    [abc]; another one failed. *)
Definition store_example : gmap Completion.loc Completion.FileInfo :=
  {[ 0%nat := {| Completion.url := "https://example.org/files/T1.pdf";
                 Completion.path := Some "main_file/T1.pdf";
                 Completion.checksum := "900150983cd24fb0d6963f7d28e17f72";
                 Completion.status := "downloaded";
                 Completion.sha256 := None |} ]}.

Definition disk_example : gmap string Completion.File :=
  {[ "/data/files/main_file/T1.pdf" := Completion.Readable "abc" ]}.

Definition results_example : list Completion.Result :=
  [Completion.Downloaded 0%nat; Completion.Failed "HTTP status 404"].

Definition item_example : Completion.Item :=
  {| Completion.track_id := Some "T1"; Completion.downloaded_files := None |}.

Lemma item_completed_summary_witness :
  let out :=
    Completion.item_completed SHA256.hexdigest "/data/files" disk_example store_example
      results_example item_example in
  Completion.downloaded_files (snd out) =
    Some {| Completion.successful := 1; Completion.failed := 1; Completion.files := [0%nat] |}
  /\ Completion.sha256 <$> fst out !! 0%nat =
     Some (Some "ba7816bf8f01cfea414140de5dae2223b00361a396177a9cb410ff61f20015ad").
Proof.
  cbv zeta.
  destruct (item_completed_summary SHA256.hexdigest hexdigest_nonempty "/data/files"
              disk_example store_example results_example item_example)
    as (Hsum & _ & _ & Hfiles).
  split; [exact Hsum|].
  specialize (Hfiles 0%nat _ "main_file/T1.pdf"
                ltac:(apply elem_of_cons; left; reflexivity) eq_refl eq_refl
                ltac:(discriminate)).
  change (disk_example !! Py.path_join "/data/files" "main_file/T1.pdf")
    with (Some (Completion.Readable "abc")) in Hfiles.
  destruct Hfiles as [Hfiles _].
  etrans; [exact (f_equal (fmap Completion.sha256) Hfiles)|].
  simpl. now rewrite sha256_abc.
Defined.

(** ** Calls that may raise *)

(** The outcome of a call: the value it returns, or the exception it
    raises. *)
Inductive Outcome (A : Type) :=
| Returns (value : A)
| Raises (exception : string).

Arguments Returns {A} value.
Arguments Raises {A} exception.

(** [bytes.decode('utf-8')] with the default strict error handling. A
    decoded [str] is kept as the bytes of its UTF-8 form, so decoding
    gives the bytes back when they are well formed and raises
    [UnicodeDecodeError] otherwise. The well-formed sequences are those
    of the Unicode standard: no overlong form, no surrogate, nothing
    above U+10FFFF. *)
Module Utf8.

Definition in_range (lo hi : nat) (c : ascii) : bool :=
  let n := nat_of_ascii c in ((lo <=? n)%nat && (n <=? hi)%nat)%bool.

Definition continuation (c : ascii) : bool := in_range 128 191 c.

Fixpoint well_formed (s : string) : bool :=
  match s with
  | EmptyString => true
  | String b0 s1 =>
      if in_range 0 127 b0 then well_formed s1
      else
        match s1 with
        | EmptyString => false
        | String b1 s2 =>
            if in_range 194 223 b0 then continuation b1 && well_formed s2
            else
              match s2 with
              | EmptyString => false
              | String b2 s3 =>
                  if in_range 224 239 b0 then
                    (if in_range 224 224 b0 then in_range 160 191 b1
                     else if in_range 237 237 b0 then in_range 128 159 b1
                     else continuation b1)
                    && continuation b2 && well_formed s3
                  else
                    match s3 with
                    | EmptyString => false
                    | String b3 s4 =>
                        if in_range 240 244 b0 then
                          (if in_range 240 240 b0 then in_range 144 191 b1
                           else if in_range 244 244 b0 then in_range 128 143 b1
                           else continuation b1)
                          && continuation b2 && continuation b3 && well_formed s4
                        else false
                    end
              end
        end
  end.

Definition decode (bytes : string) : option string :=
  if well_formed bytes then Some bytes else None.

(** [text.encode()], the other way: a [str] has a UTF-8 form unless it
    holds a lone surrogate, and [encode] raises [UnicodeEncodeError] on
    one that does. Such a [str] is kept with the three bytes of each
    surrogate, which are not well formed. *)
Definition encode (text : string) : option string :=
  if well_formed text then Some text else None.

End Utf8.

(** The byte [n] as a string of one byte. *)
Definition byte (n : nat) : string := String (ascii_of_nat n) EmptyString.

Example utf8_decode_examples :
  Utf8.decode "text/plain; charset=utf-8" = Some "text/plain; charset=utf-8"
  /\ Utf8.decode (byte 195 +:+ byte 169) = Some (byte 195 +:+ byte 169)
  /\ Utf8.decode (byte 226 +:+ byte 130 +:+ byte 172) = Some (byte 226 +:+ byte 130 +:+ byte 172)
  /\ Utf8.decode (byte 240 +:+ byte 159 +:+ byte 152 +:+ byte 128)
     = Some (byte 240 +:+ byte 159 +:+ byte 152 +:+ byte 128)
  /\ Utf8.decode (byte 255) = None
  /\ Utf8.decode (byte 195) = None
  /\ Utf8.decode (byte 192 +:+ byte 175) = None
  /\ Utf8.decode (byte 237 +:+ byte 160 +:+ byte 128) = None
  /\ Utf8.decode (byte 244 +:+ byte 144 +:+ byte 128 +:+ byte 128) = None
  /\ Utf8.decode ("a" +:+ byte 128) = None.
Proof. repeat split; reflexivity. Qed.

(** ** Extension resolution on the response as it arrives *)

(** [FilePipeline._get_file_extension] above takes the [Content-Type] of
    the response as text, and lowers the letters of ASCII. The header of
    a response is bytes, which the method decodes first, and
    [str.lower] also lowers the letters outside ASCII. Here is the
    method on those bytes, with the exception that the decoding may
    raise, for [str.lower] as it is. *)
Module Headers.

(** The part of a response the method reads: the bytes of its
    [Content-Type] header, when it has one;
    [response.headers.get('Content-Type', b'')] is the empty bytes when
    it has none. *)
Record Response := { content_type : option string }.

Section Stdlib.

(** [urlparse(url).path], [bytes.decode('utf-8')] and [str.lower] of
    the Python standard library. The URL is that of a request, which
    Scrapy has parsed before. Decoding gives nothing when it raises
    [UnicodeDecodeError]. *)
Variable urlparse_path : string -> string.
Variable decode_utf8 : string -> option string.
Variable str_lower : string -> string.

Definition _get_file_extension (url : string) (response : option Response) : Outcome string :=
  let path := urlparse_path url in
  let from_url :=
    if Py.truthy path then
      let ext := snd (Py.splitext path) in
      if Py.truthy ext then Some (str_lower ext) else None
    else None in
  match from_url with
  | Some ext => Returns ext
  | None =>
      match response with
      | Some r =>
          match decode_utf8 (default EmptyString (content_type r)) with
          | Some text =>
              let content_type := str_lower text in
              match FilePipeline.scan_ext_map content_type FilePipeline.ext_map with
              | Some extension => Returns extension
              | None => Returns ".bin"
              end
          | None => Raises "UnicodeDecodeError"
          end
      | None => Returns ".bin"
      end
  end.

End Stdlib.

End Headers.

Section HeadersFacts.
Import Headers.

Variable urlparse_path : string -> string.
Variable decode_utf8 : string -> option string.
Variable str_lower : string -> string.

(** On a response whose header decodes, and with the letters of ASCII
    lowered, the method is [FilePipeline._get_file_extension] on the
    decoded text. *)
Lemma get_file_extension_decoded (u : string) (r : Response) (text : string) :
  decode_utf8 (default EmptyString (content_type r)) = Some text ->
  _get_file_extension urlparse_path decode_utf8 Py.lower u (Some r) =
  Returns (FilePipeline._get_file_extension urlparse_path u
             (Some {| FilePipeline.content_type := Some text |})).
Proof.
  intros E. unfold _get_file_extension, FilePipeline._get_file_extension. rewrite E.
  cbn [FilePipeline.content_type default from_option id].
  destruct (Py.truthy (urlparse_path u)).
  - destruct (Py.truthy (snd (Py.splitext (urlparse_path u)))); [reflexivity|].
    destruct (FilePipeline.scan_ext_map _ _); reflexivity.
  - destruct (FilePipeline.scan_ext_map _ _); reflexivity.
Qed.

Lemma truthy_empty (s : string) : Py.truthy s = false <-> s = EmptyString.
Proof.
  unfold Py.truthy. destruct (String.eqb_spec s EmptyString); simpl; split; congruence.
Qed.

(** C8, as amended. The extension of a download is resolved in this
    order. First the URL: when [os.path.splitext] splits an extension
    off the path of the URL (its last dot with what follows, which may
    be nothing), the result is that extension in lower case. Then the
    response: when its [Content-Type] decodes as UTF-8 (a response
    without the header has the empty one), the result is the extension
    of the first row of the table below whose MIME type occurs in the
    header in lower case. Last the default, [.bin]: when no row occurs,
    and when there is no response. *)
Theorem extension_resolution_order (u : string) (response : option Response) :
  let ext := snd (Py.splitext (urlparse_path u)) in
  let resolved := _get_file_extension urlparse_path decode_utf8 str_lower u response in
  let table :=
    [ ("application/pdf", ".pdf");
      ("application/msword", ".doc");
      ("application/vnd.openxmlformats-officedocument.wordprocessingml.document", ".docx");
      ("application/vnd.ms-excel", ".xls");
      ("application/vnd.openxmlformats-officedocument.spreadsheetml.sheet", ".xlsx");
      ("text/plain", ".txt");
      ("text/csv", ".csv");
      ("application/zip", ".zip");
      ("application/x-gzip", ".gz") ] in
  (ext <> EmptyString -> resolved = Returns (str_lower ext)) /\
  (forall r text,
     ext = EmptyString -> response = Some r ->
     decode_utf8 (default EmptyString (content_type r)) = Some text ->
     resolved =
     Returns (match List.find (fun row => Py.contains (fst row) (str_lower text)) table with
              | Some row => snd row
              | None => ".bin"
              end)) /\
  (ext = EmptyString -> response = None -> resolved = Returns ".bin").
Proof.
  intros ext resolved table. subst resolved. unfold _get_file_extension.
  assert (Hurl : (if Py.truthy (urlparse_path u)
                  then if Py.truthy ext then Some (str_lower ext) else None
                  else None)
                 = if Py.truthy ext then Some (str_lower ext) else None).
  { destruct (Py.truthy (urlparse_path u)) eqn:T; [reflexivity|].
    apply truthy_empty in T. subst ext. rewrite T. reflexivity. }
  fold ext. rewrite Hurl. split_and!.
  - intros Hne. apply truthy_spec in Hne. now rewrite Hne.
  - intros r text He -> Hd. apply truthy_empty in He. rewrite He, Hd.
    rewrite scan_ext_map_find. change FilePipeline.ext_map with table.
    destruct (List.find _ table) as [row|]; reflexivity.
  - intros He ->. apply truthy_empty in He. now rewrite He.
Qed.

End HeadersFacts.

(** The method on the worked examples: URLs of the plain shape and text
    in ASCII, on which [Py.lower] is [str.lower]. *)
Definition resolve_example : string -> option Headers.Response -> Outcome string :=
  Headers._get_file_extension FilePipeline.simple_url_path Utf8.decode Py.lower.

(** The order does not hold as the specification words it. The
    extension present in the URL is not returned as it is: for
    [report.PDF] the method returns [.pdf]. And not every download gets
    an extension: where the URL has none and the [Content-Type] is not
    UTF-8, the method raises. *)
Lemma extension_resolution_not_as_claimed :
  let u := "https://example.org/files/report.PDF" in
  (snd (Py.splitext (FilePipeline.simple_url_path u)) = ".PDF"
   /\ resolve_example u None = Returns ".pdf"
   /\ resolve_example u None <> Returns (snd (Py.splitext (FilePipeline.simple_url_path u))))
  /\ (snd (Py.splitext (FilePipeline.simple_url_path "https://example.org/download"))
      = EmptyString
      /\ forall e,
           resolve_example "https://example.org/download"
             (Some {| Headers.content_type := Some (byte 255) |})
           <> Returns e).
Proof. cbv zeta. split_and!; [reflexivity|reflexivity|discriminate|reflexivity|discriminate]. Qed.

(** A URL without an extension and a header that names a spreadsheet, in
    capitals and with a parameter: the row of [.xlsx], not that of
    [.xls]. *)
Lemma extension_resolution_order_witness :
  resolve_example "https://example.org/download?id=7"
    (Some {| Headers.content_type :=
               Some "Application/VND.openxmlformats-officedocument.spreadsheetml.sheet; x=1" |})
  = Returns ".xlsx".
Proof.
  exact (proj1 (proj2 (extension_resolution_order FilePipeline.simple_url_path Utf8.decode
                         Py.lower "https://example.org/download?id=7"
                         (Some {| Headers.content_type :=
                                    Some "Application/VND.openxmlformats-officedocument.spreadsheetml.sheet; x=1" |})))
           _ _ eq_refl eq_refl eq_refl).
Defined.

(** The rows of the table, each found by its own MIME type; a type that
    is not in the table, a missing header and a missing response give
    the default; an extension in the URL comes first; a path that ends
    in a dot has the extension [.]. *)
Example extension_resolution_examples :
  let resolve u header := resolve_example u (Some {| Headers.content_type := header |}) in
  map (fun mime => resolve "https://example.org/download" (Some mime))
    [ "application/pdf"; "application/msword";
      "application/vnd.openxmlformats-officedocument.wordprocessingml.document";
      "application/vnd.ms-excel";
      "application/vnd.openxmlformats-officedocument.spreadsheetml.sheet";
      "text/plain"; "text/csv"; "application/zip"; "application/x-gzip";
      "TEXT/CSV; charset=utf-8"; "image/png" ]
  = map Returns [".pdf"; ".doc"; ".docx"; ".xls"; ".xlsx"; ".txt"; ".csv"; ".zip"; ".gz";
                 ".csv"; ".bin"]
  /\ resolve "https://example.org/download" None = Returns ".bin"
  /\ resolve_example "https://example.org/download" None = Returns ".bin"
  /\ resolve "https://example.org/files/Data.TAR.GZ?x=1" (Some "application/pdf")
     = Returns ".gz"
  /\ resolve "https://example.org/files/report." (Some "application/pdf") = Returns ".".
Proof. cbv zeta. split_and!; reflexivity. Qed.

(** A header that is not UTF-8 makes the method raise, where the URL
    has no extension; with an extension in the URL the header is not
    read. *)
Example extension_header_not_utf8 :
  resolve_example "https://example.org/download"
    (Some {| Headers.content_type := Some (byte 255) |})
  = Raises "UnicodeDecodeError"
  /\ resolve_example "https://example.org/files/a.pdf"
       (Some {| Headers.content_type := Some (byte 255) |})
     = Returns ".pdf".
Proof. split; reflexivity. Qed.

(** * Further properties of the code *)

(** ** The requests issued for an item ([get_media_requests]) *)

Section MediaRequests.
Import FilePipeline.

Variable urlparse_path : string -> string.





(** X1. The requests that [get_media_requests] yields for one item are
    stored under pairwise different paths, whatever the URLs and whatever
    the responses: no download of an item overwrites another one. *)
Theorem media_requests_paths_distinct (item : Item) (response : Request -> option Response) :
  NoDup ((fun request => file_path urlparse_path request (response request))
           <$> get_media_requests item).
Proof. apply get_media_requests_no_collision. Qed.



Lemma prefix_append (a b : string) : String.prefix a (a +:+ b) = true.
Proof.
  induction a as [|x a IH]; push_append; [destruct b; reflexivity|].
  simpl. destruct (ascii_dec x x) as [_|N]; [exact IH|congruence].
Qed.

Lemma prefix_cancel (a x y : string) :
  String.prefix (a +:+ x) (a +:+ y) = String.prefix x y.
Proof.
  induction a as [|c a IH]; push_append; [reflexivity|].
  simpl. destruct (ascii_dec c c) as [_|N]; [exact IH|congruence].
Qed.

(** A request issued for an item carries the track id of the item and a
    role of the path table. *)
Lemma media_request_tagged (item : Item) (r : Request) :
  r ∈ get_media_requests item ->
  exists t, item_track_id item = Some t /\ track_id (meta r) = Some t /\ role r <> Other.
Proof.
  unfold get_media_requests.
  destruct (item_track_id item) as [t|]; [|intros H; inversion H].
  destruct (Py.truthy t); [|intros H; inversion H].
  rewrite !elem_of_app. intros H. exists t. split; [reflexivity|].
  destruct H as [H|[H|[H|H]]].
  - destruct (pdf_url item) as [u|]; [|inversion H].
    destruct (Py.truthy u); [|inversion H].
    apply list_elem_of_singleton in H as ->. split; [reflexivity|discriminate].
  - apply file_requests_elem in H as (j & u & ref & _ & ->).
    split; [reflexivity|discriminate].
  - apply file_requests_elem in H as (j & u & ref & _ & ->).
    split; [reflexivity|discriminate].
  - apply comment_requests_elem in H as (c & j & u & ref & _ & ->).
    split; [reflexivity|discriminate].
Qed.

(** X3. Every request issued for an item carries the track id of the
    item and one of the four known roles, so its file is stored under
    [main_file/], [SI_file/{track_id}/] or [PR_file/{track_id}/]: a
    request of the pipeline never falls into the [other/] row of the path
    table, and never under the placeholder of a missing track id. *)
Theorem media_requests_stored_by_role (item : Item) (r : Request) (response : option Response) :
  r ∈ get_media_requests item ->
  exists t, item_track_id item = Some t /\ track_id (meta r) = Some t /\
    role r <> Other /\
    String.prefix
      (match role r with
       | Main => "main_file/" +:+ t +:+ "."
       | Supplementary => "SI_file/" +:+ t +:+ "/sup_" +:+ Py.str_of_int (index r) +:+ "."
       | PeerReview => "PR_file/" +:+ t +:+ "/pr_" +:+ Py.str_of_int (index r) +:+ "."
       | _ => "PR_file/" +:+ t +:+ "/comment_"
       end)
      (file_path urlparse_path r response) = true.
Proof.
  intros Hin. apply media_request_tagged in Hin as (t & Ht & Htr & Hro).
  exists t. split; [exact Ht|].
  rewrite file_path_pattern.
  destruct (get_file_extension_dot urlparse_path (url r) response) as [x Hx].
  rewrite Hx. clear Hx.
  assert (Hgoal : forall ro i c,
            role r = ro -> ro <> Other -> track_id (meta r) = Some t ->
            index r = i -> comment_of r = c ->
            String.prefix
              (match ro with
               | Main => "main_file/" +:+ t +:+ "."
               | Supplementary => "SI_file/" +:+ t +:+ "/sup_" +:+ Py.str_of_int i +:+ "."
               | PeerReview => "PR_file/" +:+ t +:+ "/pr_" +:+ Py.str_of_int i +:+ "."
               | _ => "PR_file/" +:+ t +:+ "/comment_"
               end)
              (path_pattern t ro i c (String "." x) (Py.basename (urlparse_path (url r))))
            = true).
  { intros ro i c _ Hknown _ _ _. change (String "." x) with ("." +:+ x).
    destruct ro; cbn [path_pattern]; try congruence;
      rewrite ?prefix_cancel; apply prefix_append. }
  split_and!; [exact Htr|exact Hro|].
  rewrite Htr. cbn [fmt_track]. apply Hgoal; auto.
Qed.

End MediaRequests.

(** ** The generator of requests, with the constructor of Scrapy *)

(** [FilePipeline.get_media_requests] lists the calls [Request(url=..,
    meta=..)] that the method makes, in order, each as a record of its
    two arguments. The constructor of Scrapy does not keep every URL as
    it is given, and it refuses some. Here is the method as a generator:
    what it yields, and the exception that ends it when a call raises. *)
Module Generator.
Import FilePipeline.

(** What the consumer of a generator gets: the requests yielded, in
    order, and then the exception raised, if the generator did not run
    to its end. *)
Definition Yielded : Type := list Request * option string.

(** [yield request], where the expression [request] may raise. *)
Definition yield (request : Outcome Request) : Yielded :=
  match request with
  | Returns r => ([r], None)
  | Raises e => ([], Some e)
  end.

(** One part of the body of a generator after another: the second runs
    if the first did not raise. *)
Definition and_then (first second : Yielded) : Yielded :=
  match snd first with
  | None => ((fst first ++ fst second)%list, snd second)
  | Some e => first
  end.

Section Scrapy.

(** The URL that [scrapy.Request(url=url)] holds on to, [request.url]:
    the constructor escapes the URL, and raises [ValueError] on a URL
    without a scheme, or whatever its parsing of the URL raises. *)
Variable request_url : string -> Outcome string.

(** [Request(url=url, meta=meta)]. *)
Definition new_request (url : string) (meta : Meta) : Outcome Request :=
  match request_url url with
  | Returns u => Returns {| url := u; meta := meta |}
  | Raises e => Raises e
  end.

(** A loop [for idx, file_info in enumerate(refs, start=idx)] that yields
    a request for every entry with a URL. *)
Fixpoint file_requests (make : Z -> string -> FileRef -> Outcome Request) (idx : Z)
    (refs : list FileRef) : Yielded :=
  match refs with
  | [] => ([], None)
  | ref :: rest =>
      match ref_url ref with
      | Some file_url =>
          if Py.truthy file_url
          then and_then (yield (make idx file_url ref)) (file_requests make (idx + 1) rest)
          else file_requests make (idx + 1) rest
      | None => file_requests make (idx + 1) rest
      end
  end.

Definition file_request (track_id file_type : string) (comment_idx : option Z)
    (idx : Z) (file_url : string) (ref : FileRef) : Outcome Request :=
  new_request file_url
    {| track_id := Some track_id; file_type := Some file_type;
       file_index := Some idx; comment_index := comment_idx;
       file_info := Some (ref_info ref) |}.

(** The loop over the comments of the item, each with its attachments. *)
Fixpoint comment_requests (track_id : string) (comment_idx : Z)
    (comments : list (list FileRef)) : Yielded :=
  match comments with
  | [] => ([], None)
  | attachments :: rest =>
      and_then
        (file_requests (file_request track_id "comment_attachment" (Some comment_idx)) 1
           attachments)
        (comment_requests track_id (comment_idx + 1) rest)
  end.

(** [get_media_requests(item, info)]. An item without a track id yields
    nothing. *)
Definition get_media_requests (item : Item) : Yielded :=
  match item_track_id item with
  | Some track_id =>
      if Py.truthy track_id then
        and_then
          (match pdf_url item with
           | Some main_pdf_url =>
               if Py.truthy main_pdf_url then
                 yield (new_request main_pdf_url
                          {| track_id := Some track_id; file_type := Some "main";
                             file_index := Some 0; comment_index := None;
                             file_info := None |})
               else ([], None)
           | None => ([], None)
           end)
          (and_then
             (file_requests (file_request track_id "supplementary" None) 1
                (supplementary_files item))
             (and_then
                (file_requests (file_request track_id "peer_review" None) 1
                   (peer_review_files item))
                (comment_requests track_id 1 (comments item))))
      else ([], None)
  | None => ([], None)
  end.


End Scrapy.

(** A stand-in for the constructor: it escapes the spaces of the URL
    and wants a scheme, as [scrapy.Request] does. *)
Fixpoint escape_spaces (s : string) : string :=
  match s with
  | EmptyString => EmptyString
  | String c s' =>
      if Ascii.eqb c " " then "%20" +:+ escape_spaces s' else String c (escape_spaces s')
  end.

Definition simple_request_url (url : string) : Outcome string :=
  let escaped := escape_spaces url in
  if (Py.contains "://" escaped || String.prefix "about:" escaped
      || String.prefix "data:" escaped)%bool
  then Returns escaped
  else Raises "ValueError".

End Generator.

Section GeneratorFacts.
Import FilePipeline Generator.

Variable request_url : string -> Outcome string.










End GeneratorFacts.

(** ** Resolved extensions and image file names *)

(** A character other than the path separator. *)
Definition not_slash (c : ascii) : bool := negb (Ascii.eqb c "/").

(** *** The image pipeline ([ImageExtractionPipeline]) *)

Module Images.

(** One entry of [item['images_to_download']]. *)
Record ImageInfo := { url : string; filename : string }.

(** The fields of an item that the image pipeline reads and writes; a
    field that is [None] is a key the item does not have. The item is a
    dict, its [image_urls] a list of [str]. *)
Record Item := {
  track_id : option string;
  image_urls : option (list string);
  images_to_download : option (list ImageInfo)
}.

Section Stdlib.

(** [url.encode()], [urlparse(url).path] and
    [hashlib.sha256(data).hexdigest()] of the Python standard library.
    The first gives nothing when it raises [UnicodeEncodeError] (a [str]
    with a lone surrogate has no UTF-8 form), the second when it raises
    [ValueError] (a host with a bracket that is not closed, say). *)
Variable encode_utf8 : string -> option string.
Variable urlparse_path : string -> option string.
Variable sha256_hexdigest : string -> string.

Definition _generate_image_filename (url : string) : Outcome string :=
  match encode_utf8 url with
  | None => Raises "UnicodeEncodeError"
  | Some data =>
      let url_hash := sha256_hexdigest data in
      match urlparse_path url with
      | None => Raises "ValueError"
      | Some path =>
          let ext := snd (Py.splitext path) in
          let ext := if Py.truthy ext then ext else ".jpg" in
          Returns (url_hash +:+ ext)
      end
  end.



End Stdlib.

(** A stand-in for [urlparse(url).path] that raises as [urlsplit] does
    on a host with one square bracket and not the other; the host is
    the text after [://] up to the first [/], [?] or [#]. *)
Fixpoint until_path (s : string) : string :=
  match s with
  | EmptyString => EmptyString
  | String c s' =>
      if (Ascii.eqb c "/" || Ascii.eqb c "?" || Ascii.eqb c "#")%bool then EmptyString
      else String c (until_path s')
  end.

Definition simple_urlparse_path (url : string) : option string :=
  let netloc := until_path (FilePipeline.after_scheme url) in
  if xorb (Py.contains "[" netloc) (Py.contains "]" netloc) then None
  else Some (FilePipeline.simple_url_path url).

End Images.

Example simple_urlparse_path_examples :
  Images.simple_urlparse_path "https://example.org/img/fig1.PNG?size=2" = Some "/img/fig1.PNG"
  /\ Images.simple_urlparse_path "http://[::1]/fig.png" = Some "/fig.png"
  /\ Images.simple_urlparse_path "http://example.org/a[1.png" = Some "/a[1.png"
  /\ Images.simple_urlparse_path "http://[abc/fig.png" = None.
Proof. repeat split; reflexivity. Qed.

Section Extensions.
Import FilePipeline.

Variable urlparse_path : string -> string.

Lemma lower_ascii_idempotent (c : ascii) :
  Py.lower_ascii (Py.lower_ascii c) = Py.lower_ascii c.
Proof. destruct c as [[] [] [] [] [] [] [] []]; reflexivity. Qed.

Lemma lower_idempotent (s : string) : Py.lower (Py.lower s) = Py.lower s.
Proof.
  induction s as [|c s IH]; simpl; [reflexivity|].
  now rewrite lower_ascii_idempotent, IH.
Qed.

Lemma lower_ascii_not_slash (c : ascii) : not_slash (Py.lower_ascii c) = not_slash c.
Proof. destruct c as [[] [] [] [] [] [] [] []]; reflexivity. Qed.

Lemma lower_not_slash (s : string) :
  all_chars not_slash (Py.lower s) = all_chars not_slash s.
Proof.
  induction s as [|c s IH]; simpl; [reflexivity|].
  now rewrite lower_ascii_not_slash, IH.
Qed.

(** Past the last occurrence of a character there is none. *)
Lemma drop_after_rfind (c : ascii) (s : string) (i : nat) :
  Py.rfind c s < Z.of_nat i ->
  all_chars (fun a => negb (Ascii.eqb a c)) (Py.drop i s) = true.
Proof.
  revert i. induction s as [|a s IH]; intros i; [destruct i; reflexivity|].
  cbn [Py.rfind]. destruct (0 <=? Py.rfind c s) eqn:E.
  - apply Z.leb_le in E. intros H. destruct i as [|i]; [lia|].
    cbn [Py.drop]. apply IH. lia.
  - apply Z.leb_gt in E. destruct (Ascii.eqb a c) eqn:Ea; intros H.
    + destruct i as [|i]; [lia|]. cbn [Py.drop]. apply IH. lia.
    + destruct i as [|i].
      * cbn [Py.drop all_chars]. rewrite Ea. simpl. apply (IH 0%nat). lia.
      * cbn [Py.drop]. apply IH. lia.
Qed.

Lemma rfind_lower_bound (c : ascii) (s : string) : -1 <= Py.rfind c s.
Proof.
  induction s as [|a s IH]; simpl; [lia|].
  destruct (0 <=? Py.rfind c s) eqn:E; [apply Z.leb_le in E; lia|].
  destruct (Ascii.eqb a c); lia.
Qed.

(** The extension that [splitext] splits off has no path separator. *)
Lemma splitext_no_slash (p : string) :
  all_chars not_slash (snd (Py.splitext p)) = true.
Proof.
  unfold Py.splitext.
  destruct (Py.rfind "/" p <? Py.rfind "." p) eqn:E; [|reflexivity].
  destruct (Py.has_other _ _); [|reflexivity].
  apply Z.ltb_lt in E. cbn [snd]. apply drop_after_rfind.
  pose proof (rfind_lower_bound "/" p). lia.
Qed.

Lemma scan_ext_map_plain (ct e : string) :
  scan_ext_map ct ext_map = Some e ->
  Py.lower e = e /\ all_chars not_slash e = true.
Proof.
  unfold ext_map. simpl.
  repeat (destruct (Py.contains _ ct); [intros [= <-]; split; reflexivity|]).
  discriminate.
Qed.

(** X4. The extension that [_get_file_extension] resolves is never
    empty: it starts with a dot, it is in lower case whatever the case of
    the URL, and it holds no path separator, so it cannot move the file
    to another directory. *)
Theorem file_extension_normalised (u : string) (response : option Response) :
  let ext := _get_file_extension urlparse_path u response in
  (exists r, ext = String "." r) /\
  Py.lower ext = ext /\
  all_chars not_slash ext = true.
Proof.
  intros ext. split; [apply get_file_extension_dot|].
  subst ext. unfold _get_file_extension.
  assert (Hheader : forall e,
            match
              match response with
              | Some r => scan_ext_map (Py.lower (default EmptyString (content_type r))) ext_map
              | None => None
              end
            with
            | Some extension => extension
            | None => ".bin"
            end = e -> Py.lower e = e /\ all_chars not_slash e = true).
  { intros e. destruct response as [r|]; [|intros <-; split; reflexivity].
    destruct (scan_ext_map _ ext_map) as [e'|] eqn:F; [|intros <-; split; reflexivity].
    intros <-. exact (scan_ext_map_plain _ _ F). }
  destruct (Py.truthy (urlparse_path u)); [|apply Hheader; reflexivity].
  destruct (Py.truthy (snd (Py.splitext (urlparse_path u)))); [|apply Hheader; reflexivity].
  split; [apply lower_idempotent|].
  rewrite lower_not_slash. apply splitext_no_slash.
Qed.

End Extensions.

Section ImageNames.
Import Images.

Variable encode_utf8 : string -> option string.
Variable urlparse_path : string -> option string.
Variable sha256_hexdigest : string -> string.

(** A digest in hexadecimal holds no path separator. *)
Hypothesis sha256_hexdigest_plain :
  forall data, all_chars not_slash (sha256_hexdigest data) = true.

Lemma all_chars_app (P : ascii -> bool) (a b : string) :
  all_chars P (a +:+ b) = all_chars P a && all_chars P b.
Proof.
  induction a as [|c a IH]; push_append; [reflexivity|].
  simpl. now rewrite IH, andb_assoc.
Qed.








End ImageNames.



(** ** Completion of an item: what [item_completed] leaves alone *)

Section CompletionFrame.
Import Completion.

Variable sha256_hexdigest : string -> string.

(** A descriptor without its [sha256] key. *)
Definition download_of (file_info : FileInfo) : string * option string * string * string :=
  (url file_info, path file_info, checksum file_info, status file_info).

Lemma download_of_stamp (basedir : string) (disk : gmap string File) (file_info : FileInfo) :
  download_of (stamp sha256_hexdigest basedir disk file_info) = download_of file_info.
Proof.
  unfold stamp. destruct (path file_info) as [p|]; [|reflexivity].
  destruct (Py.truthy p); [|reflexivity].
  destruct (decide _); reflexivity.
Qed.

(** X6. [item_completed] adds no descriptor and removes none; of a
    descriptor it changes nothing but the key [sha256] (the URL, the
    path, the checksum and the status stay as the download left them),
    and a descriptor that is not among the successful results is not
    touched at all. *)
Theorem item_completed_frame (basedir : string) (disk : gmap string File)
    (store : gmap loc FileInfo) (results : list Result) (item : Item) (l : loc) :
  let out := item_completed sha256_hexdigest basedir disk store results item in
  download_of <$> fst out !! l = download_of <$> store !! l /\
  (Downloaded l ∉ results -> fst out !! l = store !! l) /\
  track_id (snd out) = track_id item.
Proof.
  intros out. subst out. unfold item_completed. cbn [fst snd track_id].
  rewrite fold_add_checksum. split_and!; [|  |reflexivity].
  - destruct (decide (l ∈ successes results)); [|reflexivity].
    destruct (store !! l) as [fi|]; [|reflexivity].
    simpl. now rewrite download_of_stamp.
  - intros Hn. destruct (decide (l ∈ successes results)) as [Hin|]; [|reflexivity].
    apply successes_elem in Hin. contradiction.
Qed.

(** X7. Running [item_completed] again on its own output, with the same
    results and the same files on disk, changes nothing: the digests are
    recomputed to the same values and the summary is the same. *)
Theorem item_completed_idempotent (basedir : string) (disk : gmap string File)
    (store : gmap loc FileInfo) (results : list Result) (item : Item) :
  let out := item_completed sha256_hexdigest basedir disk store results item in
  item_completed sha256_hexdigest basedir disk (fst out) results (snd out) = out.
Proof.
  intros out. subst out. unfold item_completed. cbn [fst snd track_id]. f_equal.
  apply map_eq. intros l. rewrite !fold_add_checksum.
  destruct (decide (l ∈ successes results)); [|reflexivity].
  destruct (store !! l) as [fi|]; [|reflexivity].
  simpl. now rewrite stamp_idempotent.
Qed.

End CompletionFrame.

(** ** The rate limiter over a history of calls *)

Section RateLimitHistory.
Import Py RateLimit.
Local Open Scope Q_scope.

(** Whether a call records an outcome for [domain]. *)
Definition records_for (domain : string) (c : Call) : bool :=
  match c with
  | RecordSuccess d _ | RecordFailure d => String.eqb d domain
  | WaitIfNeeded _ _ _ _ => false
  end.

(** What a call that records an outcome does to the statistics of its
    domain: the counters move, then the delay is re-adjusted in adaptive
    mode. *)
Definition effect (l : Limiter) (c : Call) (s : Stats) : Stats :=
  match c with
  | RecordSuccess _ response_time =>
      let u :=
        {| total_requests := total_requests s + 1;
           success_requests := success_requests s + 1;
           failed_requests := failed_requests s;
           avg_response_time :=
             if Qeq_bool (avg_response_time s) 0 then response_time
             else (avg_response_time s + response_time) / 2;
           current_delay := current_delay s |} in
      if adaptive l then adjusted l u else u
  | RecordFailure _ =>
      let u :=
        {| total_requests := total_requests s + 1;
           success_requests := success_requests s;
           failed_requests := failed_requests s + 1;
           avg_response_time := avg_response_time s;
           current_delay := current_delay s |} in
      if adaptive l then adjusted l u else u
  | WaitIfNeeded _ _ _ _ => s
  end.

(** Two limiters with the same configuration. *)
Definition same_config (l l' : Limiter) : Prop :=
  min_delay l = min_delay l' /\ max_delay l = max_delay l' /\
  randomize l = randomize l' /\ adaptive l = adaptive l'.

Lemma same_config_refl (l : Limiter) : same_config l l.
Proof. unfold same_config. auto. Qed.

Lemma same_config_trans (l1 l2 l3 : Limiter) :
  same_config l1 l2 -> same_config l2 l3 -> same_config l1 l3.
Proof. unfold same_config. intros (? & ? & ? & ?) (? & ? & ? & ?). split_and!; congruence. Qed.

Lemma stats_of_set_stats_ne (l : Limiter) (d d' : string) (s : Stats) :
  d <> d' -> stats_of (set_stats l d s) d' = stats_of l d'.
Proof.
  intros Hne. unfold stats_of, set_stats; cbn [domain_stats].
  rewrite lookup_insert_ne by exact Hne. reflexivity.
Qed.

Lemma effect_config (l l' : Limiter) (c : Call) (s : Stats) :
  same_config l l' -> effect l c s = effect l' c s.
Proof.
  intros (Hlo & Hhi & _ & Ha). destruct c; cbn [effect]; [| |reflexivity];
    rewrite Ha; destruct (adaptive l'); try reflexivity;
    unfold adjusted; now rewrite Hlo, Hhi.
Qed.

(** A call changes the statistics of no domain but the one it records an
    outcome for, and never the configuration. *)
Lemma call_effect (l : Limiter) (c : Call) (d : string) :
  same_config (call l c) l /\
  stats_of (call l c) d =
    if records_for d c then effect l c (stats_of l d) else stats_of l d.
Proof.
  destruct c as [d0 rt|d0|d0 now j aft]; cbn [call records_for effect].
  - unfold record_success. cbv zeta. cbn [adaptive set_stats].
    destruct (adaptive l) eqn:Ha.
    + rewrite adjust_delay_adjusted, stats_of_set_stats. split.
      * unfold same_config; cbn. auto.
      * destruct (String.eqb_spec d0 d) as [->|Hne].
        -- rewrite stats_of_set_stats. reflexivity.
        -- rewrite !stats_of_set_stats_ne by exact Hne. reflexivity.
    + split; [unfold same_config; cbn; auto|].
      destruct (String.eqb_spec d0 d) as [->|Hne].
      * rewrite stats_of_set_stats. reflexivity.
      * rewrite stats_of_set_stats_ne by exact Hne. reflexivity.
  - unfold record_failure. cbv zeta. cbn [adaptive set_stats].
    destruct (adaptive l) eqn:Ha.
    + rewrite adjust_delay_adjusted, stats_of_set_stats. split.
      * unfold same_config; cbn. auto.
      * destruct (String.eqb_spec d0 d) as [->|Hne].
        -- rewrite stats_of_set_stats. reflexivity.
        -- rewrite !stats_of_set_stats_ne by exact Hne. reflexivity.
    + split; [unfold same_config; cbn; auto|].
      destruct (String.eqb_spec d0 d) as [->|Hne].
      * rewrite stats_of_set_stats. reflexivity.
      * rewrite stats_of_set_stats_ne by exact Hne. reflexivity.
  - split; [unfold same_config; cbn; auto|].
    unfold wait_if_needed, stats_of; cbn [snd domain_stats min_delay fresh_stats].
    destruct (decide (d0 = d)) as [->|Hne].
    + rewrite lookup_insert_eq. reflexivity.
    + rewrite lookup_insert_ne by exact Hne. reflexivity.
Qed.

(** A property of the statistics of a domain that every recorded outcome
    keeps holds after any history. *)
Lemma run_invariant (P : Stats -> Prop) (history : list Call) (l : Limiter) :
  (forall l' c s, same_config l' l -> P s -> P (effect l' c s)) ->
  (forall d, P (stats_of l d)) ->
  same_config (run l history) l /\ forall d, P (stats_of (run l history) d).
Proof.
  unfold run. revert l. induction history as [|c history IH]; intros l Hstep Hinit;
    cbn [foldl]; [split; [apply same_config_refl|exact Hinit]|].
  destruct (call_effect l c EmptyString) as [Hc _].
  destruct (IH (call l c)) as [Hcfg HP].
  - intros l' c' s Hl'. apply Hstep. eapply same_config_trans; eassumption.
  - intros d. destruct (call_effect l c d) as [_ ->].
    destruct (records_for d c); [apply Hstep; [apply same_config_refl|]|]; apply Hinit.
  - split; [eapply same_config_trans; eassumption|exact HP].
Qed.

Lemma stats_of_new_limiter (a b : Q) (r ad : bool) (d : string) :
  stats_of (new_limiter a b r ad) d =
  {| total_requests := 0; success_requests := 0; failed_requests := 0;
     avg_response_time := 0; current_delay := a |}.
Proof. unfold stats_of, new_limiter; cbn [domain_stats]. now rewrite lookup_empty. Qed.

Lemma adjusted_counters (l : Limiter) (s : Stats) :
  total_requests (adjusted l s) = total_requests s /\
  success_requests (adjusted l s) = success_requests s /\
  failed_requests (adjusted l s) = failed_requests s /\
  avg_response_time (adjusted l s) = avg_response_time s.
Proof.
  unfold adjusted. destruct (Qltb (2 # 10) _); [split_and!; reflexivity|].
  destruct (_ && _)%bool; [|split_and!; reflexivity].
  destruct (Qltb _ (current_delay s)); split_and!; reflexivity.
Qed.

(** The counters of a domain add up. *)
Definition counted (s : Stats) : Prop :=
  (0 <= success_requests s)%Z /\ (0 <= failed_requests s)%Z /\
  total_requests s = (success_requests s + failed_requests s)%Z.

Lemma effect_counted (l : Limiter) (c : Call) (s : Stats) :
  counted s -> counted (effect l c s).
Proof.
  intros (Hs & Hf & Ht). unfold counted.
  destruct c; cbn [effect]; [| |auto];
    destruct (adaptive l);
    rewrite ?(proj1 (adjusted_counters l _)),
            ?(proj1 (proj2 (adjusted_counters l _))),
            ?(proj1 (proj2 (proj2 (adjusted_counters l _))));
    cbn [total_requests success_requests failed_requests]; lia.
Qed.

Lemma error_rate_unit (s : Stats) : counted s -> 0 <= error_rate s <= 1.
Proof.
  intros (Hs & Hf & Ht). unfold error_rate.
  destruct (0 <? total_requests s)%Z eqn:E; [|split; discriminate].
  apply Z.ltb_lt in E.
  assert (Hpos : 0 < inject_Z (total_requests s)).
  { change 0 with (inject_Z 0). rewrite <- Zlt_Qlt. exact E. }
  split.
  - apply Qle_shift_div_l; [exact Hpos|]. rewrite Qmult_0_l.
    change 0 with (inject_Z 0). rewrite <- Zle_Qle. exact Hf.
  - apply Qle_shift_div_r; [exact Hpos|]. rewrite Qmult_1_l.
    rewrite <- Zle_Qle. lia.
Qed.

(** X8. Whatever the configuration and the history of calls, the
    counters of every domain add up: [total_requests] is
    [success_requests + failed_requests], none of them is negative, and
    the error rate the delay is adjusted by,
    [failed_requests / total_requests], lies between [0] and [1] (it
    is [0] for a domain without requests). *)
Theorem counters_add_up (min_delay max_delay : Q) (randomize adaptive : bool)
    (history : list Call) (domain : string) :
  let s := stats_of (run (new_limiter min_delay max_delay randomize adaptive) history) domain in
  total_requests s = (success_requests s + failed_requests s)%Z /\
  (0 <= success_requests s)%Z /\ (0 <= failed_requests s)%Z /\
  0 <= error_rate s <= 1.
Proof.
  intros s.
  assert (Hc : counted s).
  { subst s. apply (run_invariant counted).
    - intros l' c s _. apply effect_counted.
    - intros d. rewrite stats_of_new_limiter. unfold counted. cbn. lia. }
  pose proof (error_rate_unit s Hc) as He.
  destruct Hc as (Hs & Hf & Ht). auto.
Qed.

(** X9. With [adaptive=False] the delay of every domain stays at
    [min_delay], whatever is recorded: failures do not slow the crawl
    down. *)
Theorem fixed_delay_when_not_adaptive (min_delay max_delay : Q) (randomize : bool)
    (history : list Call) (domain : string) :
  current_delay (stats_of (run (new_limiter min_delay max_delay randomize false) history) domain)
  = min_delay.
Proof.
  apply (run_invariant (fun s => current_delay s = min_delay)).
  - intros l' c s (_ & _ & _ & Ha) Hs. cbn in Ha.
    destruct c; cbn [effect]; rewrite ?Ha; exact Hs.
  - intros d. now rewrite stats_of_new_limiter.
Qed.

(** The outcomes recorded for [domain] in a history, in order. *)
Definition outcomes_of (domain : string) (history : list Call) : list Call :=
  List.filter (records_for domain) history.

(** X10. The domains are limited independently: the statistics and the
    delay of a domain depend on the outcomes recorded for that domain
    only. Outcomes of other domains, and waiting (which creates the entry
    of a domain it has not seen), do not change them. *)
Theorem domains_are_independent (l : Limiter) (history : list Call) (domain : string) :
  stats_of (run l history) domain = stats_of (run l (outcomes_of domain history)) domain.
Proof.
  unfold run, outcomes_of.
  enough (H : forall l l', same_config l l' -> stats_of l domain = stats_of l' domain ->
            stats_of (foldl call l history) domain =
            stats_of (foldl call l' (List.filter (records_for domain) history)) domain)
    by (apply H; [apply same_config_refl|reflexivity]).
  induction history as [|c history IH]; intros l1 l2 Hcfg Hs; cbn [foldl List.filter];
    [exact Hs|].
  destruct (call_effect l1 c domain) as [Hc1 E1].
  destruct (records_for domain c) eqn:R.
  - cbn [foldl]. destruct (call_effect l2 c domain) as [Hc2 E2]. rewrite R in E2.
    apply IH.
    + eapply same_config_trans; [exact Hc1|].
      eapply same_config_trans; [exact Hcfg|].
      destruct Hc2 as (? & ? & ? & ?). unfold same_config. auto.
    + rewrite E1, E2, Hs. apply effect_config, Hcfg.
  - apply IH; [eapply same_config_trans; eassumption|congruence].
Qed.

(** *** Bounds on the waiting time *)

Variables (lo hi : Q).
Hypothesis lo_nonneg : 0 <= lo.
Hypothesis lo_le_hi : lo <= hi.

Lemma run_delay_bounds (rnd adp : bool) (history : list Call) :
  let l := run (new_limiter lo hi rnd adp) history in
  same_config l (new_limiter lo hi rnd adp) /\
  forall d, lo <= current_delay (stats_of l d) <= hi.
Proof.
  apply (run_invariant (fun s => lo <= current_delay s <= hi)).
  - intros l' c s (Hlo & Hhi & _ & _) Hs. cbn in Hlo, Hhi.
    assert (Hadj : forall u, current_delay u = current_delay s ->
              lo <= current_delay (if adaptive l' then adjusted l' u else u) <= hi).
    { intros u Hu. destruct (adaptive l'); [|now rewrite Hu].
      apply (adjust_delay_step lo hi lo_nonneg lo_le_hi l' u Hlo Hhi). now rewrite Hu. }
    destruct c; cbn [effect]; [apply Hadj; reflexivity ..|exact Hs].
  - intros d. rewrite stats_of_new_limiter. cbn.
    split; [apply Qle_refl|exact lo_le_hi].
Qed.


Lemma Qmin_scaled (a : Q) :
  0 <= hi -> Qmin ((3 # 2) * Qmin a hi) hi == Qmin (a * (3 # 2)) hi.
Proof.
  intros Hhi. destruct (Qlt_le_dec hi a) as [H|H].
  - rewrite (Q.min_r a hi) by lra.
    rewrite (Q.min_r ((3 # 2) * hi) hi) by lra.
    rewrite (Q.min_r (a * (3 # 2)) hi) by lra. reflexivity.
  - rewrite (Q.min_l a hi) by exact H. apply Q.min_compat; [lra|reflexivity].
Qed.

(** X12. The back-off schedule: in adaptive mode, with
    [0 <= min_delay <= max_delay], after [n] failures in a row recorded
    for a domain by a new limiter, the delay of the domain is
    [min(min_delay * 1.5 ^ n, max_delay)]. *)
Theorem back_off_schedule (rnd : bool) (domain : string) (n : nat) :
  let l := run (new_limiter lo hi rnd true) (repeat (RecordFailure domain) n) in
  current_delay (stats_of l domain) == Qmin (lo * (3 # 2) ^ Z.of_nat n) hi.
Proof.
  cbv zeta.
  enough (H : let s := stats_of (run (new_limiter lo hi rnd true)
                                   (repeat (RecordFailure domain) n)) domain in
              total_requests s = Z.of_nat n /\ failed_requests s = Z.of_nat n /\
              current_delay s == Qmin (lo * (3 # 2) ^ Z.of_nat n) hi)
    by (apply H).
  induction n as [|n IH]; cbv zeta.
  - unfold run. cbn [repeat foldl]. rewrite stats_of_new_limiter. cbn.
    split_and!; try reflexivity. rewrite Qmult_1_r. symmetry. apply Q.min_l, lo_le_hi.
  - cbn [repeat]. rewrite repeat_cons. unfold run. rewrite foldl_app. cbn [foldl].
    fold (run (new_limiter lo hi rnd true) (repeat (RecordFailure domain) n)).
    destruct (run_delay_bounds rnd true (repeat (RecordFailure domain) n))
      as [(Hlo & Hhi & _ & Ha) Hb].
    set (l := run (new_limiter lo hi rnd true) (repeat (RecordFailure domain) n)) in *.
    cbn in Hlo, Hhi, Ha. specialize (Hb domain). destruct IH as (Ht & Hf & Hd).
    destruct (call_effect l (RecordFailure domain) domain) as [_ ->].
    cbn [records_for effect]. rewrite String.eqb_refl, Ha.
    set (u := {| total_requests := total_requests (stats_of l domain) + 1;
                 success_requests := success_requests (stats_of l domain);
                 failed_requests := failed_requests (stats_of l domain) + 1;
                 avg_response_time := avg_response_time (stats_of l domain);
                 current_delay := current_delay (stats_of l domain) |}).
    pose proof (adjust_delay_step lo hi lo_nonneg lo_le_hi l u Hlo Hhi Hb)
      as (Et & Ef & _ & Hup & _).
    assert (Hrate : (1 # 5) < error_rate u).
    { unfold error_rate. cbn [total_requests failed_requests u]. rewrite Ht, Hf.
      assert (Hpos : (0 < Z.of_nat n + 1)%Z) by lia.
      apply Z.ltb_lt in Hpos as Hpos'. rewrite Hpos'.
      assert (E1 : inject_Z (Z.of_nat n + 1) / inject_Z (Z.of_nat n + 1) == 1).
      { apply Qmult_inv_r. intros E. unfold Qeq in E. cbn in E. lia. }
      rewrite E1. reflexivity. }
    split_and!.
    + rewrite Et. cbn [total_requests u]. lia.
    + rewrite Ef. cbn [failed_requests u]. lia.
    + rewrite (Hup Hrate). cbn [current_delay u].
      rewrite Nat2Z.inj_succ, <- Z.add_1_r, Qpower_plus by discriminate.
      change ((3 # 2) ^ 1) with (3 # 2). rewrite Qmult_assoc.
      rewrite <- Qmin_scaled by lra.
      apply Q.min_compat; [|reflexivity].
      apply Qmult_comp; [reflexivity|exact Hd].
Qed.

End RateLimitHistory.

(** ** The Scrapy middlewares of the limiter and of the sessions *)

(** String methods of Python that the middlewares use. *)
Module Str.

(** [s.split(sep)] for a separator of one character. *)
Fixpoint split (sep : ascii) (s : string) : list string :=
  match s with
  | EmptyString => [EmptyString]
  | String c s' =>
      if Ascii.eqb c sep then EmptyString :: split sep s'
      else
        match split sep s' with
        | first :: rest => String c first :: rest
        | [] => [String c EmptyString]
        end
  end.

(** [s.split(sep, 1)]: one split at most, at the first separator. *)
Fixpoint split_once (sep : ascii) (s : string) : list string :=
  match s with
  | EmptyString => [EmptyString]
  | String c s' =>
      if Ascii.eqb c sep then [EmptyString; s']
      else
        match split_once sep s' with
        | first :: rest => String c first :: rest
        | [] => [String c EmptyString]
        end
  end.

End Str.

Example split_url :
  Str.split "/" "https://example.org:8080/a/b" = ["https:"; EmptyString; "example.org:8080"; "a"; "b"].
Proof. reflexivity. Qed.

Example split_once_cookie :
  Str.split_once "=" "token=a=b" = ["token"; "a=b"] /\ Str.split_once "=" "Secure" = ["Secure"].
Proof. split; reflexivity. Qed.

(** [ScrapyRateLimitMiddleware]: the limiter it holds is threaded
    through; a result [None] is an [IndexError] raised by the hook. *)
Module RateLimitMiddleware.
Import RateLimit.

Local Open Scope Q_scope.

(** The parts of a request and of a response that the hooks read;
    [download_latency] is the key of [request.meta]. *)
Record Request := { url : string; download_latency : option Q }.
Record Response := { status : Z }.

(** [request.url.split('/')[2]]. *)
Definition domain_of (url : string) : option string := Str.split "/" url !! 2%nat.

(** [process_request]: the time slept and the limiter. *)
Definition process_request (l : Limiter) (request : Request) (now jitter after : Q)
    : option (Q * Limiter) :=
  match domain_of (url request) with
  | Some domain => Some (wait_if_needed l domain now jitter after)
  | None => None
  end.

(** [process_response]: the response is returned as it is. *)
Definition process_response (l : Limiter) (request : Request) (response : Response)
    : option (Response * Limiter) :=
  match domain_of (url request) with
  | Some domain =>
      let response_time := default 0 (download_latency request) in
      if (status response =? 200)%Z
      then Some (response, record_success l domain response_time)
      else Some (response, record_failure l domain)
  | None => None
  end.

Definition process_exception (l : Limiter) (request : Request) : option Limiter :=
  match domain_of (url request) with
  | Some domain => Some (record_failure l domain)
  | None => None
  end.

End RateLimitMiddleware.

(** [ScrapySessionMiddleware]: the session manager it holds is threaded
    through; [platform] is [spider.name]. *)
Module SessionMiddleware.
Import Session.

Section Stdlib.

(** [bytes.decode()] of the Python standard library, UTF-8 and strict
    by default: nothing when it raises [UnicodeDecodeError]. *)
Variable decode_utf8 : string -> option string.

(** [cookie.decode().split(';')[0].split('=', 1)], on the bytes of one
    [Set-Cookie] header. *)
Definition cookie_parts (cookie : string) : option (list string) :=
  match decode_utf8 cookie with
  | Some text => Some (Str.split_once "=" (hd EmptyString (Str.split ";" text)))
  | None => None
  end.

(** The loop over the [Set-Cookie] headers of a response, from the
    cookies gathered so far; a header that does not decode ends it with
    the exception. *)
Fixpoint set_cookies_from (cookies : gmap string string) (headers : list string)
    : Outcome (gmap string string) :=
  match headers with
  | [] => Returns cookies
  | cookie :: rest =>
      match cookie_parts cookie with
      | None => Raises "UnicodeDecodeError"
      | Some [name; value] => set_cookies_from (<[name := value]> cookies) rest
      | Some _ => set_cookies_from cookies rest
      end
  end.

Definition set_cookies (headers : list string) : Outcome (gmap string string) :=
  set_cookies_from ∅ headers.

(** [process_request]: the cookies of the request, a dict, after
    [request.cookies.update(cookies)], and the manager. *)
Definition process_request (m : Manager) (platform : string)
    (request_cookies : gmap string string) (now now_file : Z) (read_ok : bool)
    : gmap string string * Manager :=
  match get_session m platform None now now_file read_ok with
  | (Some session, m) => (cookies session ∪ request_cookies, m)
  | (None, m) => (request_cookies, m)
  end.

(** [process_response]: the session is saved when the response sets a
    cookie. The loop comes first: when it raises, nothing has been
    saved and the manager is as it was. *)
Definition process_response (m : Manager) (platform : string) (headers : list string)
    (now_created now_used : Z) (write_ok : bool) : Outcome Manager :=
  match set_cookies headers with
  | Raises e => Raises e
  | Returns cookies =>
      if decide (cookies = ∅) then Returns m
      else Returns (save_session m platform cookies None None now_created now_used write_ok)
  end.

End Stdlib.

End SessionMiddleware.

Section MiddlewareFacts.

(** A character other than the separator [sep]. *)
Definition other_than (sep : ascii) (c : ascii) : bool := negb (Ascii.eqb c sep).

Lemma split_plain (sep : ascii) (s : string) :
  all_chars (other_than sep) s = true -> Str.split sep s = [s].
Proof.
  induction s as [|c s IH]; [reflexivity|]. cbn [all_chars Str.split].
  intros H. apply andb_prop in H as [Hc Hs]. unfold other_than in Hc.
  apply negb_true_iff in Hc. rewrite Hc, (IH Hs). reflexivity.
Qed.

Lemma split_at_first (sep : ascii) (a b : string) :
  all_chars (other_than sep) a = true ->
  Str.split sep (a +:+ String sep b) = a :: Str.split sep b.
Proof.
  induction a as [|c a IH]; push_append.
  - intros _. cbn [Str.split]. now rewrite Ascii.eqb_refl.
  - cbn [all_chars Str.split]. intros H. apply andb_prop in H as [Hc Ha].
    unfold other_than in Hc. apply negb_true_iff in Hc. rewrite Hc, (IH Ha). reflexivity.
Qed.

Lemma split_once_plain (sep : ascii) (s : string) :
  all_chars (other_than sep) s = true -> Str.split_once sep s = [s].
Proof.
  induction s as [|c s IH]; [reflexivity|]. cbn [all_chars Str.split_once].
  intros H. apply andb_prop in H as [Hc Hs]. unfold other_than in Hc.
  apply negb_true_iff in Hc. rewrite Hc, (IH Hs). reflexivity.
Qed.

Lemma split_once_at_first (sep : ascii) (a b : string) :
  all_chars (other_than sep) a = true ->
  Str.split_once sep (a +:+ String sep b) = [a; b].
Proof.
  induction a as [|c a IH]; push_append.
  - intros _. cbn [Str.split_once]. now rewrite Ascii.eqb_refl.
  - cbn [all_chars Str.split_once]. intros H. apply andb_prop in H as [Hc Ha].
    unfold other_than in Hc. apply negb_true_iff in Hc. rewrite Hc, (IH Ha). reflexivity.
Qed.

(** What follows a component of a URL or of a header: nothing, or the
    separator and more. *)
Definition ends_or (sep : ascii) (rest : string) : Prop :=
  rest = EmptyString \/ exists r, rest = String sep r.

Lemma split_head (sep : ascii) (a rest : string) :
  all_chars (other_than sep) a = true -> ends_or sep rest ->
  hd EmptyString (Str.split sep (a +:+ rest)) = a.
Proof.
  intros Ha [->|[r ->]].
  - rewrite append_nil_r, split_plain by exact Ha. reflexivity.
  - rewrite split_at_first by exact Ha. reflexivity.
Qed.

Import RateLimit.

(** X13. The limiter is keyed by the text between the second and the
    third slash of the request URL: for a URL [scheme://host] followed by
    nothing or by a path, the domain is [host] (with its port, if any).
    A URL with fewer than two slashes has no such part: the hooks raise
    and the limiter is not consulted. *)
Theorem domain_of_url (scheme host rest : string) :
  all_chars (other_than "/") scheme = true ->
  all_chars (other_than "/") host = true ->
  ends_or "/" rest ->
  RateLimitMiddleware.domain_of (scheme +:+ "//" +:+ host +:+ rest) = Some host /\
  RateLimitMiddleware.domain_of scheme = None /\
  RateLimitMiddleware.domain_of (scheme +:+ "/" +:+ host) = None /\
  (forall l latency, RateLimitMiddleware.process_exception l
       {| RateLimitMiddleware.url := scheme +:+ "/" +:+ host;
          RateLimitMiddleware.download_latency := latency |} = None).
Proof.
  intros Hs Hh Hrest. unfold RateLimitMiddleware.domain_of.
  assert (E1 : Str.split "/" (scheme +:+ "/" +:+ host) = [scheme; host]).
  { change (scheme +:+ "/" +:+ host) with (scheme +:+ String "/" host).
    rewrite split_at_first by exact Hs. now rewrite split_plain by exact Hh. }
  split_and!.
  - change (scheme +:+ "//" +:+ host +:+ rest)
      with (scheme +:+ String "/" (EmptyString +:+ String "/" (host +:+ rest))).
    rewrite split_at_first by exact Hs. rewrite split_at_first by reflexivity.
    destruct Hrest as [->|[r ->]].
    + rewrite append_nil_r, split_plain by exact Hh. reflexivity.
    + rewrite split_at_first by exact Hh. reflexivity.
  - rewrite split_plain by exact Hs. reflexivity.
  - rewrite E1. reflexivity.
  - intros l latency. unfold RateLimitMiddleware.process_exception,
      RateLimitMiddleware.domain_of. cbn [RateLimitMiddleware.url]. rewrite E1. reflexivity.
Qed.

Local Open Scope Q_scope.

(** X14. Every response that reaches [process_response] is counted once
    for the domain of its request: [total_requests] goes up by one. Only
    the status 200 counts as a success; any other status (a redirect, a
    404) counts as a failure, as an exception does, and so raises the
    error rate of the domain. The statistics of the other domains are
    left alone and the response is passed on unchanged. *)
Theorem responses_counted_once (l : Limiter) (request : RateLimitMiddleware.Request)
    (response : RateLimitMiddleware.Response) (domain : string) :
  RateLimitMiddleware.domain_of (RateLimitMiddleware.url request) = Some domain ->
  exists l' l'',
    RateLimitMiddleware.process_response l request response = Some (response, l') /\
    RateLimitMiddleware.process_exception l request = Some l'' /\
    total_requests (stats_of l' domain) = (total_requests (stats_of l domain) + 1)%Z /\
    failed_requests (stats_of l' domain) =
      (failed_requests (stats_of l domain)
       + if (RateLimitMiddleware.status response =? 200)%Z then 0 else 1)%Z /\
    success_requests (stats_of l' domain) =
      (success_requests (stats_of l domain)
       + if (RateLimitMiddleware.status response =? 200)%Z then 1 else 0)%Z /\
    total_requests (stats_of l'' domain) = (total_requests (stats_of l domain) + 1)%Z /\
    failed_requests (stats_of l'' domain) = (failed_requests (stats_of l domain) + 1)%Z /\
    (forall d, d <> domain ->
       stats_of l' d = stats_of l d /\ stats_of l'' d = stats_of l d).
Proof.
  intros Hd. unfold RateLimitMiddleware.process_response, RateLimitMiddleware.process_exception.
  rewrite Hd. cbv zeta.
  set (rt := default 0 (RateLimitMiddleware.download_latency request)).
  assert (Hfail : forall d,
            stats_of (record_failure l domain) d =
            if String.eqb domain d then effect l (RecordFailure domain) (stats_of l d)
            else stats_of l d)
    by (intros d; apply (call_effect l (RecordFailure domain) d)).
  assert (Hsucc : forall d,
            stats_of (record_success l domain rt) d =
            if String.eqb domain d then effect l (RecordSuccess domain rt) (stats_of l d)
            else stats_of l d)
    by (intros d; apply (call_effect l (RecordSuccess domain rt) d)).
  assert (Hne : forall d, d <> domain -> String.eqb domain d = false).
  { intros d N. apply String.eqb_neq. congruence. }
  assert (Hcount : forall (c : Call) (s : Stats),
            total_requests (effect l c s) =
              match c with WaitIfNeeded _ _ _ _ => total_requests s
                         | _ => (total_requests s + 1)%Z end /\
            failed_requests (effect l c s) =
              match c with RecordFailure _ => (failed_requests s + 1)%Z
                         | _ => failed_requests s end /\
            success_requests (effect l c s) =
              match c with RecordSuccess _ _ => (success_requests s + 1)%Z
                         | _ => success_requests s end).
  { intros c s. destruct c; cbn [effect]; [| |auto];
      destruct (adaptive l);
      rewrite ?(proj1 (adjusted_counters l _)),
              ?(proj1 (proj2 (adjusted_counters l _))),
              ?(proj1 (proj2 (proj2 (adjusted_counters l _)))); auto. }
  destruct (RateLimitMiddleware.status response =? 200)%Z; eexists; eexists;
    (split; [reflexivity|]); (split; [reflexivity|]);
    rewrite ?Hfail, ?Hsucc, String.eqb_refl;
    split_and!;
    try (rewrite ?(proj1 (Hcount _ _)), ?(proj1 (proj2 (Hcount _ _))),
                 ?(proj2 (proj2 (Hcount _ _))); lia);
    intros d N; rewrite ?Hfail, ?Hsucc, (Hne d N); auto.
Qed.

End MiddlewareFacts.

Section SessionMiddlewareFacts.
Import Session.

Variable decode_utf8 : string -> option string.

Lemma set_cookies_from_app (cookies : gmap string string) (headers later : list string) :
  SessionMiddleware.set_cookies_from decode_utf8 cookies (headers ++ later)
  = match SessionMiddleware.set_cookies_from decode_utf8 cookies headers with
    | Returns cookies' => SessionMiddleware.set_cookies_from decode_utf8 cookies' later
    | Raises e => Raises e
    end.
Proof.
  revert cookies. induction headers as [|h headers IH]; intros cookies; [reflexivity|].
  cbn [app SessionMiddleware.set_cookies_from].
  destruct (SessionMiddleware.cookie_parts decode_utf8 h) as [[|name [|value [|]]]|];
    auto.
Qed.

(** X15. The headers of a response are read in order, as long as they
    decode as UTF-8. A [Set-Cookie] header whose text is [name=value],
    followed by nothing or by attributes after a semicolon, sets the
    cookie [name] to [value]: the name is the text before the first [=],
    the value the text after it up to the first semicolon (it may hold
    further [=] signs), and of several headers for one name the last one
    wins. A header without [=] before its first semicolon sets nothing.
    A header that does not decode raises [UnicodeDecodeError], and so
    does the whole loop, whatever comes after it. *)
Theorem set_cookie_header (headers : list string) (header name value attributes : string) :
  all_chars (other_than ";") name = true ->
  all_chars (other_than "=") name = true ->
  all_chars (other_than ";") value = true ->
  ends_or ";" attributes ->
  (forall cookies,
     SessionMiddleware.set_cookies decode_utf8 headers = Returns cookies ->
     (decode_utf8 header = Some (name +:+ "=" +:+ value +:+ attributes) ->
      SessionMiddleware.set_cookies decode_utf8 (headers ++ [header])
      = Returns (<[name := value]> cookies)) /\
     (decode_utf8 header = Some (name +:+ attributes) ->
      SessionMiddleware.set_cookies decode_utf8 (headers ++ [header]) = Returns cookies) /\
     (decode_utf8 header = None ->
      forall later,
        SessionMiddleware.set_cookies decode_utf8 (headers ++ header :: later)
        = Raises "UnicodeDecodeError")) /\
  (forall e later,
     SessionMiddleware.set_cookies decode_utf8 headers = Raises e ->
     SessionMiddleware.set_cookies decode_utf8 (headers ++ later) = Raises e).
Proof.
  intros Hn1 Hn2 Hv Hattr. unfold SessionMiddleware.set_cookies. split.
  2: { intros e later E. now rewrite set_cookies_from_app, E. }
  intros cookies E. split_and!.
  - intros Hd. rewrite set_cookies_from_app, E.
    cbn [SessionMiddleware.set_cookies_from]. unfold SessionMiddleware.cookie_parts.
    rewrite Hd.
    assert (Hhead : all_chars (other_than ";") (name +:+ "=" +:+ value) = true).
    { rewrite !all_chars_app, Hn1, Hv. reflexivity. }
    replace (name +:+ "=" +:+ value +:+ attributes)
      with ((name +:+ "=" +:+ value) +:+ attributes)
      by (now rewrite !append_assoc).
    rewrite (split_head ";" _ attributes Hhead Hattr).
    change (name +:+ "=" +:+ value) with (name +:+ String "=" value).
    rewrite split_once_at_first by exact Hn2. reflexivity.
  - intros Hd. rewrite set_cookies_from_app, E.
    cbn [SessionMiddleware.set_cookies_from]. unfold SessionMiddleware.cookie_parts.
    rewrite Hd, (split_head ";" _ attributes Hn1 Hattr).
    rewrite split_once_plain by exact Hn2. reflexivity.
  - intros Hd later. rewrite set_cookies_from_app, E.
    cbn [SessionMiddleware.set_cookies_from]. unfold SessionMiddleware.cookie_parts.
    now rewrite Hd.
Qed.

(** X16. When every [Set-Cookie] header of a response decodes, the
    cookies that the response sets are sent with the next request of the
    spider, as long as the session has not timed out: they are the whole
    session from then on (the cookies stored before are replaced, not
    merged), and they override the cookies of the same name that the
    request already carries. A response that sets no cookie leaves the
    stored session as it is. When a header does not decode,
    [process_response] raises and nothing is saved, whatever the other
    headers set. *)
Theorem response_cookies_sent_next (m : Manager) (platform : string) (headers : list string)
    (request_cookies : gmap string string)
    (now_created now_used now now_file : Z) (write_ok read_ok : bool) :
  let processed :=
    SessionMiddleware.process_response decode_utf8 m platform headers
      now_created now_used write_ok in
  (forall cookies,
     SessionMiddleware.set_cookies decode_utf8 headers = Returns cookies ->
     cookies <> ∅ ->
     (now - now_used < Py.timedelta_seconds (session_timeout m))%Z ->
     exists m',
       processed = Returns m' /\
       fst (SessionMiddleware.process_request m' platform request_cookies
              now now_file read_ok)
       = cookies ∪ request_cookies) /\
  (SessionMiddleware.set_cookies decode_utf8 headers = Returns ∅ ->
   processed = Returns m) /\
  (forall e,
     SessionMiddleware.set_cookies decode_utf8 headers = Raises e ->
     processed = Raises e).
Proof.
  intros processed. subst processed. unfold SessionMiddleware.process_response. split_and!.
  - intros cookies E Hne Hvalid. rewrite E.
    destruct (decide (cookies = ∅)) as [|_]; [contradiction|].
    eexists. split; [reflexivity|]. unfold SessionMiddleware.process_request.
    destruct (save_session_cached m platform cookies None None
                now_created now_used write_ok) as (Et & _ & s & Hs & Hc & Hu & _).
    pose proof (get_session_cached _ platform None now now_file read_ok s Hs) as Hget.
    rewrite Hu, Et in Hget. specialize (Hget Hvalid).
    destruct (get_session _ platform None now now_file read_ok) as [[s'|] m'];
      cbn [fst] in *; [|discriminate].
    injection Hget as ->. now rewrite Hc.
  - intros ->. destruct (decide (∅ = ∅)); [reflexivity|contradiction].
  - intros e ->. reflexivity.
Qed.

End SessionMiddlewareFacts.

(** ** The proxy pool: selection, marks, reports and loading *)

(** The reports of the pool, its loader and its Scrapy middleware. *)
Module ProxyReports.
Import ProxyPool.

Local Open Scope Q_scope.

(** [sum(1 for p in self.proxies if p.is_banned)]. *)
Definition count_banned (ps : list ProxyInfo) : Z :=
  Z.of_nat (length (List.filter is_banned ps)).

(** The dict that [health_check] returns. *)
Record HealthStats := { total : Z; healthy : Z; unhealthy : Z; banned : Z }.

(** The loop of [health_check] with its two counters. *)
Fixpoint sweep_counting (pool : Pool) (probe : nat -> Probe) (i : nat) (urls : list string)
    (healthy unhealthy : Z) : Pool * Z * Z :=
  match urls with
  | [] => (pool, healthy, unhealthy)
  | u :: rest =>
      match probe i with
      | Healthy rt now =>
          sweep_counting (mark_success pool u rt now) probe (S i) rest (healthy + 1) unhealthy
      | Unhealthy reason =>
          sweep_counting (mark_failure pool u reason) probe (S i) rest healthy (unhealthy + 1)
      end
  end.

(** [health_check()]: the statistics returned and the pool. *)
Definition health_check_report (pool : Pool) (probe : nat -> Probe) : HealthStats * Pool :=
  let '(pool, healthy, unhealthy) :=
    sweep_counting pool probe 0 (map url (proxies pool)) 0 0 in
  ({| total := Z.of_nat (length (proxies pool)); healthy := healthy;
      unhealthy := unhealthy; banned := count_banned (proxies pool) |}, pool).

(** The built-in [sum] over floats, from the left, starting at [0]. *)
Definition py_sum (xs : list Q) : Q := foldl Qplus 0 xs.

(** The dict that [get_stats] returns. *)
Record PoolStats := {
  total_proxies : Z;
  available_proxies : Z;
  banned_proxies : Z;
  avg_success_rate : Q;
  avg_response_time : Q
}.

Definition get_stats (pool : Pool) : PoolStats :=
  let ps := proxies pool in
  {| total_proxies := Z.of_nat (length ps);
     available_proxies := Z.of_nat (length (List.filter (fun p => negb (is_banned p)) ps));
     banned_proxies := count_banned ps;
     avg_success_rate :=
       match ps with
       | [] => 0
       | _ :: _ => py_sum (map success_rate ps) / inject_Z (Z.of_nat (length ps))
       end;
     avg_response_time :=
       match ps with
       | [] => 0
       | _ :: _ => py_sum (map response_time ps) / inject_Z (Z.of_nat (length ps))
       end |}.

Section Loading.

(** [line.strip()] of the Python standard library. *)
Variable str_strip : string -> string.

(** [load_from_file(filepath)]: [file] holds the lines of the file, or
    nothing when the file cannot be opened (the error is logged). *)
Definition load_from_file (pool : Pool) (file : option (list string)) : Pool :=
  match file with
  | Some lines =>
      foldl (fun pool line =>
               let proxy_url := str_strip line in
               if (Py.truthy proxy_url && negb (String.prefix "#" proxy_url))%bool
               then add_proxy pool proxy_url "http"
               else pool)
            pool lines
  | None => pool
  end.

End Loading.

(** [get_proxy] called again and again, each call with its readings of
    the clock and its random draw: the values returned, in order. *)
Fixpoint hand_out (pool : Pool) (calls : list (Z * Z * nat)) : list (option ProxyDict) :=
  match calls with
  | [] => []
  | (now, now_used, choice) :: rest =>
      let '(proxy, pool) := get_proxy pool now now_used choice in
      proxy :: hand_out pool rest
  end.

End ProxyReports.

(** [ScrapyProxyMiddleware]: the pool it holds is threaded through. *)
Module ProxyMiddleware.
Import ProxyPool.

(** The keys of [request.meta] that the hooks read and write. *)
Record Request := { dont_use_proxy : bool; proxy : option string }.

Definition set_proxy (request : Request) (proxy : option string) : Request :=
  {| dont_use_proxy := dont_use_proxy request; proxy := proxy |}.

Definition process_request (pool : Pool) (request : Request) (now now_used : Z) (choice : nat)
    : Request * Pool :=
  if dont_use_proxy request then (request, pool)
  else
    match get_proxy pool now now_used choice with
    | (Some proxy, pool) => (set_proxy request (Some (http proxy)), pool)
    | (None, pool) => (request, pool)
    end.

(** [process_response]: [mark_success] is called without a response
    time, which defaults to [0.0]; [now] is the clock it reads. *)
Definition process_response (pool : Pool) (request : Request) (status : Z) (now : Z) : Pool :=
  match proxy request with
  | Some proxy_url =>
      if (Py.truthy proxy_url && (status =? 200))%bool
      then mark_success pool proxy_url 0 now
      else pool
  | None => pool
  end.

(** [process_exception]: the request to schedule again, if any, and the
    pool. *)
Definition process_exception (pool : Pool) (request : Request) (exception : string)
    : option Request * Pool :=
  match proxy request with
  | Some proxy_url =>
      if Py.truthy proxy_url
      then (Some (set_proxy request None), mark_failure pool proxy_url exception)
      else (None, pool)
  | None => (None, pool)
  end.

End ProxyMiddleware.

Section ProxyPoolFacts.
Import ProxyPool ProxyReports.

Lemma find_proxy_none (ps : list ProxyInfo) (u : string) :
  _find_proxy ps u = None <-> u ∉ url <$> ps.
Proof.
  induction ps as [|q ps IH]; cbn [_find_proxy].
  - split; [intros _ H; inversion H|reflexivity].
  - rewrite fmap_cons, not_elem_of_cons.
    destruct (String.eqb_spec (url q) u) as [E|E].
    + split; [discriminate|]. intros [N _]. congruence.
    + destruct (_find_proxy ps u) as [j|]; simpl.
      * split; [discriminate|]. intros [_ N]. apply IH in N. discriminate.
      * split; [|reflexivity]. intros _. split; [congruence|]. now apply IH.
Qed.

(** The proxy a URL resolves to is the first one with this URL. *)
Lemma find_proxy_first (ps : list ProxyInfo) (u : string) (i : nat) :
  _find_proxy ps u = Some i ->
  forall k q, (k < i)%nat -> ps !! k = Some q -> url q <> u.
Proof.
  revert i. induction ps as [|p ps IH]; intros i; cbn [_find_proxy]; [discriminate|].
  destruct (String.eqb_spec (url p) u) as [E|E].
  - intros [= <-] k q Hk. lia.
  - destruct (_find_proxy ps u) as [j|]; simpl; [|discriminate].
    intros [= <-] [|k] q Hk; simpl.
    + intros [= <-]. exact E.
    + apply (IH j eq_refl). lia.
Qed.

(** X17. [mark_success] and [mark_failure] act on the first proxy with
    the given URL and on nothing else: with a URL that no proxy of the
    pool has, they leave the pool as it is, and a proxy that has another
    URL, or that comes after a proxy with the same URL, is never touched
    (of two proxies added with one URL the second is never marked). *)
Theorem marks_touch_first_match_only (pool : Pool) (proxy_url reason : string)
    (response_time : Q) (now : Z) :
  (proxy_url ∉ url <$> proxies pool ->
   mark_success pool proxy_url response_time now = pool /\
   mark_failure pool proxy_url reason = pool) /\
  (forall j p,
     proxies pool !! j = Some p ->
     url p <> proxy_url \/
       (exists k q, (k < j)%nat /\ proxies pool !! k = Some q /\ url q = proxy_url) ->
     proxies (mark_success pool proxy_url response_time now) !! j = Some p /\
     proxies (mark_failure pool proxy_url reason) !! j = Some p).
Proof.
  split.
  - intros Hn. apply find_proxy_none in Hn. unfold mark_success, mark_failure.
    now rewrite Hn.
  - intros j p Hj Hother. unfold mark_success, mark_failure.
    destruct (_find_proxy (proxies pool) proxy_url) as [i|] eqn:F; [|auto].
    assert (Hne : i <> j).
    { intros ->. destruct (find_proxy_lookup _ _ _ F) as (p' & Hp' & Hu).
      assert (p' = p) as -> by congruence.
      destruct Hother as [N|(k & q & Hk & Hq & Hu')]; [contradiction|].
      exact (find_proxy_first _ _ _ F k q Hk Hq Hu'). }
    cbn [proxies set_proxies]. rewrite !list_lookup_alter_ne by exact Hne. auto.
Qed.

Lemma map_fmap {A B : Type} (f : A -> B) (l : list A) : map f l = f <$> l.
Proof. induction l as [|x l IH]; [reflexivity|]. cbn [map]. now rewrite fmap_cons, IH. Qed.

Lemma find_proxy_NoDup (ps : list ProxyInfo) (i : nat) (p : ProxyInfo) :
  NoDup (url <$> ps) -> ps !! i = Some p -> _find_proxy ps (url p) = Some i.
Proof.
  revert i. induction ps as [|q ps IH]; intros i; [intros _ H; discriminate|].
  rewrite fmap_cons, NoDup_cons. intros [Hq Hnd]. cbn [_find_proxy].
  destruct i as [|i]; simpl.
  - intros [= ->]. now rewrite String.eqb_refl.
  - intros Hp. destruct (String.eqb_spec (url q) (url p)) as [E|E].
    + exfalso. apply Hq. rewrite E. apply list_elem_of_fmap_2.
      eapply list_elem_of_lookup_2. exact Hp.
    + now rewrite (IH i Hnd Hp).
Qed.

(** What the sweep of [health_check] does to the proxy it probes. *)
Definition probed (max_fail_count : Z) (outcome : Probe) (p : ProxyInfo) : ProxyInfo :=
  match outcome with
  | Healthy rt now => with_success rt now p
  | Unhealthy _ => with_failure max_fail_count p
  end.

Lemma probed_url (m : Z) (outcome : Probe) (p : ProxyInfo) : url (probed m outcome p) = url p.
Proof. destruct outcome; reflexivity. Qed.

Lemma mark_probed (pool : Pool) (u : string) (outcome : Probe) (i : nat) :
  _find_proxy (proxies pool) u = Some i ->
  let pool' := match outcome with
               | Healthy rt now => mark_success pool u rt now
               | Unhealthy reason => mark_failure pool u reason
               end in
  proxies pool' = alter (probed (max_fail_count pool) outcome) i (proxies pool) /\
  max_fail_count pool' = max_fail_count pool.
Proof.
  intros F. destruct outcome; cbv zeta; unfold mark_success, mark_failure; rewrite F;
    split; reflexivity.
Qed.

Lemma sweep_distinct (probe : nat -> Probe) (urls : list string) (i : nat) (pool : Pool) :
  (forall j u, urls !! j = Some u -> _find_proxy (proxies pool) u = Some (i + j)%nat) ->
  forall k p,
    proxies pool !! k = Some p ->
    proxies (sweep pool probe i urls) !! k =
    Some (if decide (i <= k < i + length urls)%nat
          then probed (max_fail_count pool) (probe k) p else p).
Proof.
  revert i pool. induction urls as [|u urls IH]; intros i pool Hfind k p Hk;
    cbn [sweep length].
  - rewrite Hk. case_decide; [lia|reflexivity].
  - pose proof (Hfind 0%nat u eq_refl) as F. rewrite Nat.add_0_r in F.
    destruct (mark_probed pool u (probe i) i F) as [Hps Hm]. cbv zeta in Hps, Hm.
    set (pool' := match probe i with
                  | Healthy rt now => mark_success pool u rt now
                  | Unhealthy reason => mark_failure pool u reason
                  end) in *.
    assert (Hsweep : sweep pool' probe (S i) urls =
                     match probe i with
                     | Healthy rt now => sweep (mark_success pool u rt now) probe (S i) urls
                     | Unhealthy reason => sweep (mark_failure pool u reason) probe (S i) urls
                     end) by (subst pool'; destruct (probe i); reflexivity).
    assert (Hgoal : proxies (sweep pool' probe (S i) urls) !! k =
                    Some (if decide (i <= k < i + S (length urls))%nat
                          then probed (max_fail_count pool) (probe k) p else p)).
    2: { rewrite Hsweep in Hgoal. destruct (probe i); exact Hgoal. }
    assert (Hfind' : forall j u', urls !! j = Some u' ->
              _find_proxy (proxies pool') u' = Some (S i + j)%nat).
    { intros j u' Hj. rewrite Hps, find_proxy_alter by apply probed_url.
      rewrite (Hfind (S j) u' Hj). f_equal. lia. }
    destruct (decide (i = k)) as [->|Hne].
    + rewrite (IH (S k) pool' Hfind' k (probed (max_fail_count pool) (probe k) p)).
      * repeat case_decide; try lia. reflexivity.
      * rewrite Hps, list_lookup_alter_eq, Hk. reflexivity.
    + rewrite (IH (S i) pool' Hfind' k p).
      * rewrite Hm. repeat case_decide; try lia; reflexivity.
      * rewrite Hps, list_lookup_alter_ne by exact Hne. exact Hk.
Qed.

(** X18. In a pool whose proxies have pairwise different URLs,
    [health_check] marks every proxy exactly once, with the outcome of
    its own probe: a success (which un-bans it) when the probe answered
    with status 200, a failure (which bans it once [max_fail_count] is
    reached) otherwise. *)
Theorem health_check_marks_each_once (pool : Pool) (probe : nat -> Probe)
    (k : nat) (p : ProxyInfo) :
  NoDup (url <$> proxies pool) ->
  proxies pool !! k = Some p ->
  proxies (health_check pool probe) !! k =
  Some (probed (max_fail_count pool) (probe k) p).
Proof.
  intros Hnd Hk. unfold health_check.
  rewrite (sweep_distinct probe (map url (proxies pool)) 0 pool) with (p := p).
  - rewrite length_map, decide_True; [reflexivity|].
    apply lookup_lt_Some in Hk. lia.
  - intros j u Hj. rewrite map_fmap, list_lookup_fmap in Hj.
    destruct (proxies pool !! j) as [q|] eqn:Hq; [|discriminate].
    injection Hj as <-. exact (find_proxy_NoDup _ _ _ Hnd Hq).
  - exact Hk.
Qed.

Lemma sweep_counting_sweep (probe : nat -> Probe) (urls : list string) (i : nat)
    (pool : Pool) (h u : Z) :
  exists h' u',
    sweep_counting pool probe i urls h u = (sweep pool probe i urls, h', u') /\
    h <= h' /\ u <= u' /\ (h' + u' = h + u + Z.of_nat (length urls)).
Proof.
  revert i pool h u. induction urls as [|x urls IH]; intros i pool h u;
    cbn [sweep_counting sweep length].
  - exists h, u. split_and!; [reflexivity|lia..].
  - destruct (probe i) as [rt now|reason].
    + destruct (IH (S i) (mark_success pool x rt now) (h + 1) u) as (h' & u' & E & ? & ? & ?).
      exists h', u'. split_and!; [exact E|lia..].
    + destruct (IH (S i) (mark_failure pool x reason) h (u + 1)) as (h' & u' & E & ? & ? & ?).
      exists h', u'. split_and!; [exact E|lia..].
Qed.

Lemma sweep_length (probe : nat -> Probe) (urls : list string) (i : nat) (pool : Pool) :
  length (proxies (sweep pool probe i urls)) = length (proxies pool).
Proof.
  revert i pool. induction urls as [|u urls IH]; intros i pool; cbn [sweep]; [reflexivity|].
  destruct (probe i); rewrite IH; unfold mark_success, mark_failure;
    destruct (_find_proxy (proxies pool) u); cbn [proxies set_proxies];
    rewrite ?length_alter; reflexivity.
Qed.

Lemma count_banned_bounds (ps : list ProxyInfo) :
  0 <= count_banned ps <= Z.of_nat (length ps).
Proof.
  unfold count_banned. pose proof (List.filter_length_le is_banned ps). lia.
Qed.

(** X19. The statistics that [health_check] returns add up: every proxy
    of the pool is counted once, as healthy or as unhealthy, so
    [healthy + unhealthy = total], the number of proxies (which the check
    leaves unchanged); [banned] lies between [0] and [total]; and the
    pool it leaves is the pool after the marks of the sweep. *)
Theorem health_check_report_adds_up (pool : Pool) (probe : nat -> Probe) :
  let report := fst (health_check_report pool probe) in
  snd (health_check_report pool probe) = health_check pool probe /\
  total report = Z.of_nat (length (proxies pool)) /\
  healthy report + unhealthy report = total report /\
  0 <= healthy report /\ 0 <= unhealthy report /\
  0 <= banned report <= total report.
Proof.
  unfold health_check_report, health_check.
  destruct (sweep_counting_sweep probe (map url (proxies pool)) 0 pool 0 0)
    as (h & u & -> & Hh & Hu & Hsum).
  cbn [fst snd total healthy unhealthy banned].
  rewrite length_map in Hsum. rewrite sweep_length.
  pose proof (count_banned_bounds (proxies (sweep pool probe 0 (map url (proxies pool))))) as Hb.
  rewrite sweep_length in Hb.
  split_and!; try reflexivity; lia.
Qed.

Local Open Scope Q_scope.

Lemma py_sum_bounds (xs : list Q) (acc : Q) :
  Forall (fun x => 0 <= x <= 1) xs ->
  acc <= foldl Qplus acc xs <= acc + inject_Z (Z.of_nat (length xs)).
Proof.
  revert acc. induction xs as [|x xs IH]; intros acc Hxs; cbn [foldl length].
  - change (inject_Z (Z.of_nat 0)) with 0. lra.
  - apply Forall_cons in Hxs as [[Hx0 Hx1] Hxs].
    specialize (IH (acc + x) Hxs).
    rewrite Nat2Z.inj_succ, <- Z.add_1_r, inject_Z_plus.
    change (inject_Z 1) with 1. lra.
Qed.

Lemma success_rate_unit (p : ProxyInfo) :
  (0 <= success_count p)%Z -> (0 <= fail_count p)%Z -> 0 <= success_rate p <= 1.
Proof.
  intros Hs Hf. unfold success_rate. cbv zeta.
  destruct (0 <? success_count p + fail_count p)%Z eqn:E; [|split; discriminate].
  apply Z.ltb_lt in E.
  assert (Hpos : 0 < inject_Z (success_count p + fail_count p)).
  { change 0 with (inject_Z 0). rewrite <- Zlt_Qlt. exact E. }
  split.
  - apply Qle_shift_div_l; [exact Hpos|]. rewrite Qmult_0_l.
    change 0 with (inject_Z 0). rewrite <- Zle_Qle. exact Hs.
  - apply Qle_shift_div_r; [exact Hpos|]. rewrite Qmult_1_l.
    rewrite <- Zle_Qle. lia.
Qed.

Lemma filter_partition_length {A : Type} (f : A -> bool) (l : list A) :
  (length (List.filter (fun x => negb (f x)) l) + length (List.filter f l) = length l)%nat.
Proof.
  induction l as [|x l IH]; [reflexivity|]. cbn [List.filter].
  destruct (f x); cbn [negb length]; lia.
Qed.

Lemma available_from_not_banned (b now : Z) (i : nat) (ps : list ProxyInfo) :
  (length (List.filter (fun p => negb (is_banned p)) ps)
   <= length (available_from b now i ps))%nat.
Proof.
  revert i. induction ps as [|p ps IH]; intros i; [reflexivity|].
  cbn [List.filter available_from]. unfold available at 1. specialize (IH (S i)).
  destruct (is_banned p); cbn [negb orb].
  - destruct (match last_used p with Some t => _ | None => false end); cbn [length]; lia.
  - cbn [length]. lia.
Qed.

(** X20. The statistics of [get_stats] add up, and an empty pool is
    reported with zeros rather than a division by zero:
    [available_proxies + banned_proxies = total_proxies]; with counters
    that are not negative the average success rate lies between [0] and
    [1]; and the proxies counted as available are not more than the
    proxies that pass the filter of [get_proxy], which takes the banned
    proxies past their cooldown as well. *)
Theorem get_stats_adds_up (pool : Pool) (now : Z) :
  Forall (fun p => (0 <= success_count p)%Z /\ (0 <= fail_count p)%Z) (proxies pool) ->
  let stats := get_stats pool in
  (available_proxies stats + banned_proxies stats = total_proxies stats)%Z /\
  0 <= avg_success_rate stats <= 1 /\
  (available_proxies stats
   <= Z.of_nat (length (available_from (ban_duration pool) now 0 (proxies pool))))%Z /\
  (proxies pool = [] ->
   avg_success_rate stats = 0 /\ avg_response_time stats = 0 /\ total_proxies stats = 0%Z).
Proof.
  intros Hall stats. subst stats. unfold get_stats, count_banned. cbv zeta.
  cbn [available_proxies banned_proxies total_proxies avg_success_rate avg_response_time].
  split; [|split; [|split]].
  - pose proof (filter_partition_length is_banned (proxies pool)). lia.
  - destruct (proxies pool) as [|p ps] eqn:E; [split; discriminate|].
    rewrite <- E in *. unfold py_sum.
    assert (Hrates : Forall (fun x => 0 <= x <= 1) (map success_rate (proxies pool))).
    { rewrite map_fmap. apply Forall_fmap. eapply Forall_impl; [exact Hall|].
      intros q [Hs Hf]. now apply success_rate_unit. }
    pose proof (py_sum_bounds _ 0 Hrates) as [Hlo Hhi]. rewrite length_map in Hhi.
    assert (Hpos : 0 < inject_Z (Z.of_nat (length (proxies pool)))).
    { change 0 with (inject_Z 0). rewrite <- Zlt_Qlt. rewrite E. cbn [length]. lia. }
    split.
    + apply Qle_shift_div_l; [exact Hpos|]. lra.
    + apply Qle_shift_div_r; [exact Hpos|]. lra.
  - pose proof (available_from_not_banned (ban_duration pool) now 0 (proxies pool)). lia.
  - intros ->. split_and!; reflexivity.
Qed.

(** *** Selection *)

Lemma available_from_complete (b now : Z) (i : nat) (ps : list ProxyInfo) (q : ProxyInfo) :
  q ∈ ps -> available b now q = true -> exists j, (j, q) ∈ available_from b now i ps.
Proof.
  revert i. induction ps as [|p ps IH]; intros i Hin Ha; [inversion Hin|].
  cbn [available_from]. apply elem_of_cons in Hin as [<-|Hin].
  - rewrite Ha. exists i. apply elem_of_cons. auto.
  - destruct (IH (S i) Hin Ha) as [j Hj]. exists j.
    destruct (available b now p); [apply elem_of_cons; auto|exact Hj].
Qed.

Lemma max_by_score_max (candidates : list (nat * ProxyInfo)) (best c : nat * ProxyInfo) :
  c ∈ best :: candidates ->
  score (snd c) <= score (snd (max_by_score best candidates)).
Proof.
  revert best c. induction candidates as [|x rest IH]; intros best c Hin; cbn [max_by_score].
  - apply list_elem_of_singleton in Hin as ->. apply Qle_refl.
  - destruct (Py.Qltb (score (snd best)) (score (snd x))) eqn:E.
    + apply Qltb_lt in E. apply elem_of_cons in Hin as [->|Hin].
      * eapply Qle_trans; [apply Qlt_le_weak, E|]. apply IH, elem_of_cons. auto.
      * apply IH, Hin.
    + apply Qltb_ge in E. apply elem_of_cons in Hin as [->|Hin].
      * apply IH, elem_of_cons. auto.
      * apply elem_of_cons in Hin as [->|Hin].
        -- eapply Qle_trans; [exact E|]. apply IH, elem_of_cons. auto.
        -- apply IH, elem_of_cons. auto.
Qed.

(** What [get_proxy] returns when it returns a proxy: the proxy selected,
    with its position, which passes the filter, and the stamp on it. *)
Lemma get_proxy_selected (pool : Pool) (now now_used : Z) (choice : nat) (proxy : ProxyDict) :
  fst (get_proxy pool now now_used choice) = Some proxy ->
  exists i p,
    proxies pool !! i = Some p /\
    available (ban_duration pool) now p = true /\
    proxy = {| http := url p; https := url p |} /\
    proxies (snd (get_proxy pool now now_used choice))
      = alter (set_last_used now_used) i (proxies pool) /\
    (rotation_strategy pool = "best_performance" ->
     forall q, q ∈ proxies pool -> available (ban_duration pool) now q = true ->
               score q <= score p).
Proof.
  unfold get_proxy. destruct (proxies pool) as [|p0 ps] eqn:E; [discriminate|].
  destruct (available_from (ban_duration pool) now 0 (p0 :: ps)) as [|first others] eqn:F;
    [discriminate|].
  assert (Hsel : forall sel : nat * ProxyInfo, sel ∈ first :: others ->
            (p0 :: ps) !! fst sel = Some (snd sel) /\
            available (ban_duration pool) now (snd sel) = true).
  { intros [j p] Hin. rewrite <- F in Hin.
    apply available_from_elem in Hin as (_ & Hl & Ha). rewrite Nat.sub_0_r in Hl. auto. }
  assert (Hbest : forall q, q ∈ p0 :: ps -> available (ban_duration pool) now q = true ->
            score q <= score (snd (max_by_score first others))).
  { intros q Hq Ha. destruct (available_from_complete _ _ 0 _ _ Hq Ha) as [j Hj].
    rewrite F in Hj. exact (max_by_score_max others first (j, q) Hj). }
  destruct (String.eqb_spec (rotation_strategy pool) "round_robin") as [R|R];
    [|destruct (String.eqb_spec (rotation_strategy pool) "random") as [R'|R'];
      [|destruct (String.eqb_spec (rotation_strategy pool) "best_performance") as [R''|R'']]];
    cbn [fst snd _get_round_robin proxies set_proxies set_current_index]; rewrite ?E;
    intros [= <-];
    match goal with
    | |- exists i p, _ /\ _ /\ {| http := url (snd ?sel); https := _ |} = _ /\ _ =>
        exists (fst sel), (snd sel); destruct (Hsel sel) as [H1 H2];
        [first [apply nth_elem | apply max_by_score_elem | apply elem_of_cons; auto]
        |split_and!; [exact H1|exact H2|reflexivity|reflexivity|]]
    end; intros S; try congruence.
  exact Hbest.
Qed.

(** X21. Whenever [get_proxy] returns a proxy, it is a proxy of the
    pool that is not banned, or whose last use lies more than
    [ban_duration] back; the only change to the proxies is the stamp
    [last_used] on the one selected (counters and ban flags stay). So a
    banned proxy that is handed out after its cooldown stays banned, and
    its cooldown starts again at this use: it is not handed out again
    for another [ban_duration]. When [get_proxy] returns nothing the
    pool is unchanged. *)
Theorem get_proxy_stamps_selected (pool : Pool) (now now_used : Z) (choice : nat) :
  match fst (get_proxy pool now now_used choice) with
  | Some proxy =>
      exists i p,
        proxies pool !! i = Some p /\
        available (ban_duration pool) now p = true /\
        proxy = {| http := url p; https := url p |} /\
        proxies (snd (get_proxy pool now now_used choice))
          = alter (set_last_used now_used) i (proxies pool) /\
        (is_banned p = true ->
         forall later, (later - now_used <= Py.timedelta_seconds (ban_duration pool))%Z ->
           available (ban_duration pool) later (set_last_used now_used p) = false)
  | None => snd (get_proxy pool now now_used choice) = pool
  end.
Proof.
  destruct (fst (get_proxy pool now now_used choice)) as [proxy|] eqn:G.
  - destruct (get_proxy_selected pool now now_used choice proxy G)
      as (i & p & Hi & Ha & Hp & Hps & _).
    exists i, p. split_and!; try assumption.
    intros Hb later Hl. unfold available. cbn [is_banned last_used set_last_used].
    rewrite Hb. cbn [negb orb]. apply Z.ltb_ge. exact Hl.
  - revert G. unfold get_proxy. destruct (proxies pool) as [|p0 ps]; [reflexivity|].
    destruct (available_from _ _ _ _) as [|first others]; [reflexivity|].
    destruct (String.eqb (rotation_strategy pool) "round_robin");
      [|destruct (String.eqb (rotation_strategy pool) "random");
        [|destruct (String.eqb (rotation_strategy pool) "best_performance")]];
      discriminate.
Qed.

Local Close Scope Q_scope.

Lemma available_all (b now : Z) (ps : list ProxyInfo) (i j : nat) :
  Forall (fun p => is_banned p = false) ps ->
  available_from b now i ps !! j = (fun p => ((i + j)%nat, p)) <$> ps !! j.
Proof.
  intros Hall. revert i j. induction Hall as [|p ps Hp Hall IH]; intros i j; [reflexivity|].
  cbn [available_from]. unfold available. rewrite Hp. cbn [negb orb].
  destruct j as [|j]; simpl.
  - now rewrite Nat.add_0_r.
  - rewrite IH. destruct (ps !! j); simpl; [|reflexivity]. do 2 f_equal. lia.
Qed.

Lemma available_all_length (b now : Z) (ps : list ProxyInfo) (i : nat) :
  Forall (fun p => is_banned p = false) ps ->
  length (available_from b now i ps) = length ps.
Proof.
  intros Hall. revert i. induction Hall as [|p ps Hp Hall IH]; intros i; [reflexivity|].
  cbn [available_from]. unfold available. rewrite Hp. cbn [negb orb length]. now rewrite IH.
Qed.

(** One step of the rotation in a pool without banned proxies. *)
Lemma round_robin_step (pool : Pool) (now now_used : Z) (choice : nat) :
  rotation_strategy pool = "round_robin" ->
  Forall (fun p => is_banned p = false) (proxies pool) ->
  proxies pool <> [] ->
  let i := Z.to_nat (current_index pool mod Z.of_nat (length (proxies pool))) in
  exists p,
    proxies pool !! i = Some p /\
    get_proxy pool now now_used choice =
      (Some {| http := url p; https := url p |},
       set_proxies (set_current_index pool (current_index pool + 1))
         (alter (set_last_used now_used) i (proxies pool))).
Proof.
  intros R Hall Hne i.
  assert (Hlen : (i < length (proxies pool))%nat).
  { subst i. destruct (proxies pool) as [|p0 ps]; [congruence|].
    pose proof (Z.mod_pos_bound (current_index pool) (Z.of_nat (length (p0 :: ps)))) as Hb.
    cbn [length] in *. lia. }
  destruct (lookup_lt_is_Some_2 _ _ Hlen) as [p Hp]. exists p. split; [exact Hp|].
  unfold get_proxy. destruct (proxies pool) as [|p0 ps] eqn:E; [congruence|].
  pose proof (available_all (ban_duration pool) now (p0 :: ps) 0 i Hall) as Hlook.
  pose proof (available_all_length (ban_duration pool) now (p0 :: ps) 0 Hall) as Hl.
  destruct (available_from (ban_duration pool) now 0 (p0 :: ps)) as [|first others] eqn:F;
    [discriminate|].
  rewrite R. change (String.eqb "round_robin" "round_robin") with true. cbv iota.
  unfold _get_round_robin. cbv zeta. rewrite Hl. fold i.
  rewrite nth_lookup, Hlook, Hp. cbn [fmap option_fmap option_map default from_option id fst snd].
  cbn [proxies set_proxies set_current_index]. rewrite E. reflexivity.
Qed.

(** X23. With the strategy [round_robin] and no proxy banned, the pool
    is served in turn: the [k]-th of any run of [get_proxy] calls returns
    the proxy at position [(current_index + k) mod n] of the pool, so
    [n] calls in a row hand out every proxy exactly once. *)
Theorem round_robin_in_turn (pool : Pool) (calls : list (Z * Z * nat)) (k : nat) :
  rotation_strategy pool = "round_robin" ->
  Forall (fun p => is_banned p = false) (proxies pool) ->
  (k < length calls)%nat ->
  proxies pool <> [] ->
  exists u,
    (url <$> proxies pool) !!
      Z.to_nat ((current_index pool + Z.of_nat k) mod Z.of_nat (length (proxies pool)))
      = Some u /\
    hand_out pool calls !! k = Some (Some {| http := u; https := u |}).
Proof.
  revert pool k. induction calls as [|[[now now_used] choice] calls IH];
    intros pool k R Hall Hk Hne; [cbn [length] in Hk; lia|].
  destruct (round_robin_step pool now now_used choice R Hall Hne) as (p & Hp & G).
  cbv zeta in Hp. cbn [hand_out]. rewrite G.
  set (i := Z.to_nat (current_index pool mod Z.of_nat (length (proxies pool)))) in *.
  set (pool' := set_proxies (set_current_index pool (current_index pool + 1))
                  (alter (set_last_used now_used) i (proxies pool))).
  assert (Hurls : url <$> proxies pool' = url <$> proxies pool).
  { subst pool'. cbn [proxies set_proxies]. apply list_eq. intros j.
    rewrite !list_lookup_fmap. destruct (decide (i = j)) as [<-|N].
    - rewrite list_lookup_alter_eq. destruct (proxies pool !! i); reflexivity.
    - now rewrite list_lookup_alter_ne. }
  destruct k as [|k].
  - exists (url p). rewrite Z.add_0_r. fold i. rewrite list_lookup_fmap, Hp. auto.
  - assert (Hall' : Forall (fun p => is_banned p = false) (proxies pool')).
    { subst pool'. cbn [proxies set_proxies]. apply Forall_alter; [exact Hall|].
      intros q _ Hq. exact Hq. }
    assert (Hne' : proxies pool' <> []).
    { intros E. apply (f_equal (fmap url)) in E. rewrite Hurls in E.
      destruct (proxies pool); [congruence|discriminate]. }
    destruct (IH pool' k R Hall' ltac:(cbn [length] in Hk; lia) Hne') as (u & Hu & Hout).
    exists u. split; [|exact Hout].
    rewrite Hurls in Hu.
    assert (Hlen : length (proxies pool') = length (proxies pool)).
    { rewrite <- (length_fmap url (proxies pool')), Hurls. apply length_fmap. }
    rewrite Hlen in Hu. subst pool'. cbn [current_index set_proxies set_current_index] in Hu.
    replace (current_index pool + Z.of_nat (S k))%Z
      with (current_index pool + 1 + Z.of_nat k)%Z by lia.
    exact Hu.
Qed.

(** *** Loading and the middleware *)

Lemma add_proxies_app (urls : list string) (pool : Pool) :
  proxies (foldl (fun pool u => add_proxy pool u "http") pool urls)
  = (proxies pool ++ ((fun u => new_proxy u "http") <$> urls))%list.
Proof.
  revert pool. induction urls as [|u urls IH]; intros pool; cbn [foldl].
  - now rewrite fmap_nil, app_nil_r.
  - rewrite IH. unfold add_proxy. cbn [proxies set_proxies].
    now rewrite fmap_cons, <- app_assoc.
Qed.

(** X24. [load_from_file] only appends: the proxies already in the pool
    keep their place and their state, and each proxy added is new (no
    successes, no failures, not banned, protocol [http]) and has a URL
    that is a stripped line of the file, not empty and not starting with
    [#]. Blank lines, comment lines and a file that cannot be opened add
    nothing. *)
Theorem load_from_file_appends (str_strip : string -> string) (pool : Pool)
    (file : option (list string)) :
  exists added,
    proxies (load_from_file str_strip pool file) = (proxies pool ++ added)%list /\
    Forall (fun p =>
              p = new_proxy (url p) "http" /\ url p <> EmptyString /\
              String.prefix "#" (url p) = false /\
              exists line, file = Some line /\ url p ∈ str_strip <$> line)
           added /\
    (length added <= length (default [] file))%nat /\
    rotation_strategy (load_from_file str_strip pool file) = rotation_strategy pool /\
    current_index (load_from_file str_strip pool file) = current_index pool.
Proof.
  destruct file as [lines|]; cbn [load_from_file default from_option id].
  2: { exists []. rewrite app_nil_r. split_and!; try reflexivity; try constructor; try (cbn; lia). }
  enough (H : forall pool,
            exists added,
              proxies (foldl (fun pool line =>
                                if (Py.truthy (str_strip line)
                                    && negb (String.prefix "#" (str_strip line)))%bool
                                then add_proxy pool (str_strip line) "http" else pool)
                             pool lines) = (proxies pool ++ added)%list /\
              Forall (fun p => p = new_proxy (url p) "http" /\ url p <> EmptyString /\
                               String.prefix "#" (url p) = false /\
                               url p ∈ str_strip <$> lines) added /\
              (length added <= length lines)%nat /\
              rotation_strategy (foldl (fun pool line =>
                                if (Py.truthy (str_strip line)
                                    && negb (String.prefix "#" (str_strip line)))%bool
                                then add_proxy pool (str_strip line) "http" else pool)
                             pool lines) = rotation_strategy pool /\
              current_index (foldl (fun pool line =>
                                if (Py.truthy (str_strip line)
                                    && negb (String.prefix "#" (str_strip line)))%bool
                                then add_proxy pool (str_strip line) "http" else pool)
                             pool lines) = current_index pool).
  { destruct (H pool) as (added & Hps & Hall & Hlen & Hr & Hc). exists added.
    split_and!; try assumption. eapply Forall_impl; [exact Hall|].
    intros p (? & ? & ? & ?). split_and!; try assumption. exists lines. auto. }
  clear pool. induction lines as [|line lines IH]; intros pool; cbn [foldl].
  - exists []. rewrite app_nil_r. split_and!; try reflexivity; try constructor; try (cbn; lia).
  - destruct (Py.truthy (str_strip line) && negb (String.prefix "#" (str_strip line)))%bool
      eqn:W.
    + destruct (IH (add_proxy pool (str_strip line) "http"))
        as (added & Hps & Hall & Hlen & Hr & Hc).
      exists (new_proxy (str_strip line) "http" :: added).
      apply andb_prop in W as [W1 W2]. apply truthy_spec in W1.
      apply negb_true_iff in W2.
      split_and!.
      * rewrite Hps. unfold add_proxy. cbn [proxies set_proxies].
        now rewrite <- app_assoc.
      * constructor.
        -- cbn [url new_proxy]. split_and!; try assumption; try reflexivity.
           rewrite fmap_cons. apply elem_of_cons. auto.
        -- eapply Forall_impl; [exact Hall|]. intros p (? & ? & ? & ?).
           split_and!; try assumption. rewrite fmap_cons. apply elem_of_cons. auto.
      * cbn [length]. lia.
      * rewrite Hr. reflexivity.
      * rewrite Hc. reflexivity.
    + destruct (IH pool) as (added & Hps & Hall & Hlen & Hr & Hc).
      exists added. split_and!; try assumption; [|cbn [length]; lia].
      eapply Forall_impl; [exact Hall|]. intros p (? & ? & ? & ?).
      split_and!; try assumption. rewrite fmap_cons. apply elem_of_cons. auto.
Qed.

Local Open Scope Q_scope.


(** X26. [process_exception] counts the failure against the first proxy
    with the URL the request went through, bans it once its failures
    reach [max_fail_count], leaves the other proxies alone, and gives the
    request back for a retry with its proxy cleared. A request that went
    through no proxy is not retried by this hook and the pool is
    unchanged. *)
Theorem middleware_exception_retries (pool : Pool) (request : ProxyMiddleware.Request)
    (exception proxy_url : string) (i : nat) (p : ProxyInfo) :
  ProxyMiddleware.proxy request = Some proxy_url ->
  proxy_url <> EmptyString ->
  _find_proxy (proxies pool) proxy_url = Some i ->
  proxies pool !! i = Some p ->
  let out := ProxyMiddleware.process_exception pool request exception in
  fst out = Some (ProxyMiddleware.set_proxy request None) /\
  proxies (snd out) !! i = Some (with_failure (max_fail_count pool) p) /\
  (max_fail_count pool <= fail_count p + 1 ->
   is_banned <$> proxies (snd out) !! i = Some true)%Z /\
  (forall j, j <> i -> proxies (snd out) !! j = proxies pool !! j) /\
  ProxyMiddleware.process_exception pool (ProxyMiddleware.set_proxy request None) exception
    = (None, pool).
Proof.
  intros Hp Hne F Hi out. subst out. unfold ProxyMiddleware.process_exception.
  rewrite Hp. apply truthy_spec in Hne. rewrite Hne. cbn [fst snd].
  unfold mark_failure. rewrite F. cbn [proxies set_proxies ProxyMiddleware.proxy
                                       ProxyMiddleware.set_proxy].
  split_and!; try reflexivity.
  - rewrite list_lookup_alter_eq, Hi. reflexivity.
  - intros Hm. rewrite list_lookup_alter_eq, Hi. cbn.
    apply Z.leb_le in Hm. now rewrite Hm.
  - intros j N. rewrite list_lookup_alter_ne by congruence. reflexivity.
Qed.

End ProxyPoolFacts.

(** ** Selection by score, with the score as the interpreter computes it *)

(** [ProxyPool.score] is the score in exact arithmetic. The interpreter
    computes [p.score] in floating point, and [max] compares the floats:
    two proxies whose exact scores differ may get one float. Here is
    [get_proxy] for any way to compute the score and to compare two
    scores. *)
Module Selection.
Import ProxyPool.

Section Scores.

(** The values of [p.score], the score of a proxy as the interpreter
    computes it, and [a > b] on two such values. *)
Variable Score : Type.
Variable proxy_score : ProxyInfo -> Score.
Variable greater : Score -> Score -> bool.

(** [max(candidates, key=lambda p: p.score)]: [max] keeps the maximum
    so far, [best], unless the key of the next candidate is greater. *)
Fixpoint max_by_key (best : nat * ProxyInfo) (candidates : list (nat * ProxyInfo))
    : nat * ProxyInfo :=
  match candidates with
  | [] => best
  | c :: rest =>
      if greater (proxy_score (snd c)) (proxy_score (snd best)) then max_by_key c rest
      else max_by_key best rest
  end.

(** [get_proxy()], as [ProxyPool.get_proxy] with this [max]. *)
Definition get_proxy (pool : Pool) (now now_used : Z) (choice : nat)
    : option ProxyDict * Pool :=
  match proxies pool with
  | [] => (None, pool)
  | _ :: _ =>
      match available_from (ban_duration pool) now 0 (proxies pool) with
      | [] => (None, pool)
      | first :: others =>
          let available_proxies := first :: others in
          let '(selected, pool) :=
            if String.eqb (rotation_strategy pool) "round_robin" then
              _get_round_robin pool first others
            else if String.eqb (rotation_strategy pool) "random" then
              (nth (choice mod length available_proxies) available_proxies first, pool)
            else if String.eqb (rotation_strategy pool) "best_performance" then
              (max_by_key first others, pool)
            else (first, pool) in
          (Some {| http := url (snd selected); https := url (snd selected) |},
           set_proxies pool (alter (set_last_used now_used) (fst selected) (proxies pool)))
      end
  end.

End Scores.

(** [a > b] on exact scores. *)
Definition Qgtb (a b : Q) : bool := Py.Qltb b a.

End Selection.

Section SelectionFacts.
Import ProxyPool Selection.

(** In exact arithmetic this is [ProxyPool.get_proxy]. *)
Lemma get_proxy_exact (pool : Pool) (now now_used : Z) (choice : nat) :
  Selection.get_proxy Q score Qgtb pool now now_used choice
  = ProxyPool.get_proxy pool now now_used choice.
Proof.
  assert (Hmax : forall candidates best,
            max_by_key Q score Qgtb best candidates = max_by_score best candidates).
  { induction candidates as [|c rest IH]; intros best; [reflexivity|].
    cbn [max_by_key max_by_score]. unfold Qgtb. now rewrite !IH. }
  unfold Selection.get_proxy, ProxyPool.get_proxy.
  destruct (proxies pool); [reflexivity|].
  destruct (available_from _ _ _ _); [reflexivity|]. now rewrite Hmax.
Qed.

Lemma Qgtb_irreflexive (a : Q) : Qgtb a a = false.
Proof. apply Qltb_ge, Qle_refl. Qed.

Lemma Qgtb_transitive (a b c : Q) : Qgtb a b = true -> Qgtb b c = true -> Qgtb a c = true.
Proof.
  unfold Qgtb. rewrite !Qltb_lt. intros H1 H2. exact (Qlt_trans _ _ _ H2 H1).
Qed.

Lemma Qgtb_not_transitive (a b c : Q) :
  Qgtb a b = false -> Qgtb b c = false -> Qgtb a c = false.
Proof.
  unfold Qgtb. rewrite !Qltb_ge. intros H1 H2. exact (Qle_trans _ _ _ H1 H2).
Qed.

(** The positions that [available_from] lists go up. *)
Lemma available_from_ascending (b now : Z) (i : nat) (ps : list ProxyInfo)
    (before after : list (nat * ProxyInfo)) (c : nat * ProxyInfo) :
  available_from b now i ps = (before ++ c :: after)%list ->
  (forall x, x ∈ before -> (fst x < fst c)%nat) /\
  (forall x, x ∈ after -> (fst c < fst x)%nat).
Proof.
  revert i before. induction ps as [|p ps IH]; intros i before E.
  - destruct before; discriminate E.
  - cbn [available_from] in E. destruct (available b now p).
    + destruct before as [|x before]; cbn [app] in E; injection E as <- E.
      * split; [intros x Hx; inversion Hx|].
        intros [j q] Hx. rewrite <- E in Hx.
        apply available_from_elem in Hx as [Hle _]. cbn [fst]. lia.
      * destruct (IH _ _ E) as [Hb Ha]. split; [|exact Ha].
        intros x Hx. apply elem_of_cons in Hx as [->|Hx]; [|exact (Hb x Hx)].
        assert (Hc : c ∈ available_from b now (S i) ps).
        { rewrite E. apply elem_of_app. right. apply elem_of_cons. auto. }
        destruct c as [j q]. apply available_from_elem in Hc as [Hle _]. cbn [fst]. lia.
    + exact (IH _ _ E).
Qed.

(** Every proxy that passes the filter is listed, with its position. *)
Lemma available_from_listed (b now : Z) (i : nat) (ps : list ProxyInfo) (j : nat)
    (q : ProxyInfo) :
  ps !! j = Some q -> available b now q = true -> ((i + j)%nat, q) ∈ available_from b now i ps.
Proof.
  revert i j. induction ps as [|p ps IH]; intros i j Hl Ha; [discriminate Hl|].
  cbn [available_from]. destruct j as [|j]; cbn in Hl.
  - injection Hl as ->. rewrite Ha, Nat.add_0_r. apply elem_of_cons. auto.
  - specialize (IH (S i) j Hl Ha). replace (i + S j)%nat with (S i + j)%nat by lia.
    destruct (available b now p); [apply elem_of_cons; auto|exact IH].
Qed.

Variable Score : Type.
Variable proxy_score : ProxyInfo -> Score.
Variable greater : Score -> Score -> bool.

(** [>] on the scores is a strict order, and so is [<=], its negation,
    but for reflexivity. It is so on floats that are not NaN, and a
    score is never NaN: the success rate is a quotient of integers or
    [0.0], and [max(0, x)] is [0] when [x] is NaN. *)
Hypothesis greater_irreflexive : forall a, greater a a = false.
Hypothesis greater_transitive :
  forall a b c, greater a b = true -> greater b c = true -> greater a c = true.
Hypothesis greater_not_transitive :
  forall a b c, greater a b = false -> greater b c = false -> greater a c = false.

(** The scan of [max]: the candidate kept beats every candidate before
    it, and none after it beats it. *)
Lemma max_by_key_scan (candidates before since : list (nat * ProxyInfo))
    (best : nat * ProxyInfo) :
  (forall c, c ∈ before -> greater (proxy_score (snd best)) (proxy_score (snd c)) = true) ->
  (forall c, c ∈ since -> greater (proxy_score (snd c)) (proxy_score (snd best)) = false) ->
  let selected := max_by_key Score proxy_score greater best candidates in
  exists before' after,
    (before ++ best :: since ++ candidates = before' ++ selected :: after)%list /\
    (forall c, c ∈ before' ->
       greater (proxy_score (snd selected)) (proxy_score (snd c)) = true) /\
    (forall c, c ∈ after ->
       greater (proxy_score (snd c)) (proxy_score (snd selected)) = false).
Proof.
  revert before since best.
  induction candidates as [|x rest IH]; intros before since best Hb Hs; cbn [max_by_key].
  - exists before, since. rewrite app_nil_r. auto.
  - destruct (greater (proxy_score (snd x)) (proxy_score (snd best))) eqn:G.
    + destruct (IH (before ++ best :: since)%list [] x) as (b' & a' & E & H1 & H2).
      * intros c Hc. apply elem_of_app in Hc as [Hc|Hc].
        -- exact (greater_transitive _ _ _ G (Hb c Hc)).
        -- apply elem_of_cons in Hc as [->|Hc]; [exact G|].
           destruct (greater (proxy_score (snd x)) (proxy_score (snd c))) eqn:G';
             [reflexivity|].
           rewrite (greater_not_transitive _ _ _ G' (Hs c Hc)) in G. discriminate G.
      * intros c Hc. inversion Hc.
      * exists b', a'. split; [|auto]. rewrite <- E. cbn [app].
        rewrite <- app_assoc. reflexivity.
    + destruct (IH before (since ++ [x])%list best Hb) as (b' & a' & E & H1 & H2).
      * intros c Hc. apply elem_of_app in Hc as [Hc|Hc]; [exact (Hs c Hc)|].
        apply list_elem_of_singleton in Hc as ->. exact G.
      * exists b', a'. split; [|auto]. rewrite <- E, <- app_assoc. reflexivity.
Qed.

(** X22. With the strategy [best_performance] and a pool in which some
    proxy passes the filter, [get_proxy] returns a proxy of the pool
    that passes the filter and whose score is the highest: no proxy that
    passes the filter has a greater score. Of the proxies with that
    score it is the first in the pool: its score is greater than that of
    every proxy before it that passes the filter. The score is the one
    the interpreter computes, whatever it is, as long as [>] orders the
    scores. *)
Theorem best_performance_is_best (pool : Pool) (now now_used : Z) (choice : nat) :
  rotation_strategy pool = "best_performance" ->
  (exists q, q ∈ proxies pool /\ available (ban_duration pool) now q = true) ->
  let result := Selection.get_proxy Score proxy_score greater pool now now_used choice in
  exists i p,
    proxies pool !! i = Some p /\
    available (ban_duration pool) now p = true /\
    fst result = Some {| http := url p; https := url p |} /\
    proxies (snd result) = alter (set_last_used now_used) i (proxies pool) /\
    (forall j q,
       proxies pool !! j = Some q -> available (ban_duration pool) now q = true ->
       greater (proxy_score q) (proxy_score p) = false) /\
    (forall j q,
       (j < i)%nat ->
       proxies pool !! j = Some q -> available (ban_duration pool) now q = true ->
       greater (proxy_score p) (proxy_score q) = true).
Proof.
  intros S (q0 & Hq0 & Ha0) result. subst result. unfold Selection.get_proxy.
  destruct (proxies pool) as [|p0 ps] eqn:E; [inversion Hq0|].
  destruct (available_from (ban_duration pool) now 0 (p0 :: ps)) as [|first others] eqn:F.
  { destruct (available_from_complete _ _ 0 _ _ Hq0 Ha0) as [j Hj].
    rewrite F in Hj. inversion Hj. }
  rewrite S.
  change (String.eqb "best_performance" "round_robin") with false.
  change (String.eqb "best_performance" "random") with false.
  change (String.eqb "best_performance" "best_performance") with true. cbv iota.
  destruct (max_by_key_scan others [] [] first) as (before & after & Hsplit & Hbefore & Hafter);
    [intros c Hc; inversion Hc|intros c Hc; inversion Hc|].
  cbn [app] in Hsplit.
  set (selected := max_by_key Score proxy_score greater first others) in *.
  rewrite Hsplit in F.
  destruct (available_from_ascending _ _ _ _ _ _ _ F) as [Hlow Hhigh].
  assert (Hsel : (fst selected, snd selected) ∈ available_from (ban_duration pool) now 0 (p0 :: ps)).
  { rewrite F. apply elem_of_app. right. apply elem_of_cons. left. now destruct selected. }
  apply available_from_elem in Hsel as (_ & Hl & Ha). rewrite Nat.sub_0_r in Hl.
  assert (Hlisted : forall j q,
            (p0 :: ps) !! j = Some q -> available (ban_duration pool) now q = true ->
            (j, q) ∈ before \/ (j, q) = selected \/ (j, q) ∈ after).
  { intros j q Hj Hq. pose proof (available_from_listed _ _ 0 _ _ _ Hj Hq) as Hin.
    rewrite F in Hin. cbn [Nat.add] in Hin. apply elem_of_app in Hin as [Hin|Hin]; [auto|].
    apply elem_of_cons in Hin as [Hin|Hin]; auto. }
  exists (fst selected), (snd selected). cbn [fst snd proxies set_proxies]. rewrite E.
  split_and!; [exact Hl|exact Ha|reflexivity|reflexivity| |].
  - intros j q Hj Hq. destruct (Hlisted j q Hj Hq) as [Hin|[<-|Hin]].
    + specialize (Hbefore _ Hin). cbn [snd] in Hbefore.
      destruct (greater (proxy_score q) (proxy_score (snd selected))) eqn:G; [|reflexivity].
      pose proof (greater_transitive _ _ _ G Hbefore) as Hcycle.
      rewrite greater_irreflexive in Hcycle. discriminate Hcycle.
    + apply greater_irreflexive.
    + exact (Hafter _ Hin).
  - intros j q Hlt Hj Hq. destruct (Hlisted j q Hj Hq) as [Hin|[<-|Hin]].
    + exact (Hbefore _ Hin).
    + cbn [fst] in Hlt. lia.
    + specialize (Hhigh _ Hin). cbn [fst] in Hhigh. lia.
Qed.

End SelectionFacts.

(** ** The session manager: clearing, restarting, reading *)

Section SessionLifetime.
Import Session.


(** What [get_session] returns depends on the cached bundle of the key,
    on the file of the key, and on the timeout only. *)
Lemma get_session_fst (m m' : Manager) (p : string) (a : option string)
    (now now_file : Z) (r : bool) :
  sessions m !! session_key p a = sessions m' !! session_key p a ->
  files m !! _get_session_filepath m (session_key p a)
    = files m' !! _get_session_filepath m' (session_key p a) ->
  session_timeout m = session_timeout m' ->
  fst (get_session m p a now now_file r) = fst (get_session m' p a now now_file r).
Proof.
  intros Hs Hf Ht. unfold get_session, _load_session_from_file, _is_session_valid,
    _get_session_filepath in *.
  rewrite <- Hs. destruct (sessions m !! session_key p a) as [s|].
  - rewrite <- Ht. destruct (now - last_used s <? _); [reflexivity|].
    cbn [files session_dir session_timeout set_sessions]. rewrite <- Hf, <- Ht.
    destruct (files m !! _) as [[s'|]|]; destruct r; try reflexivity.
    destruct (now_file - last_used s' <? _); reflexivity.
  - rewrite <- Hf, <- Ht.
    destruct (files m !! _) as [[s'|]|]; destruct r; try reflexivity.
    destruct (now_file - last_used s' <? _); reflexivity.
Qed.

(** X28. A session survives a restart of the crawler through its file:
    after a [save_session] whose file was written, a new manager over
    the same directory returns the saved cookies, read back from the
    file, until the timeout has passed since the save, and nothing
    afterwards. When the file could not be written and none was there,
    the session is lost with the cache. *)
Theorem session_survives_restart (m : Manager) (platform : string)
    (cookies : gmap string string) (account_id : option string)
    (metadata : option (gmap string string))
    (now_created now_used now now_file : Z) (write_ok : bool) :
  let saved := save_session m platform cookies account_id metadata now_created now_used write_ok in
  let restarted := new_manager (session_dir m) (session_timeout m) (files saved) in
  let result := fst (get_session restarted platform account_id now now_file true) in
  (write_ok = true ->
   now_file - now_used < Py.timedelta_seconds (session_timeout m) ->
   Session.cookies <$> result = Some cookies) /\
  (write_ok = true ->
   Py.timedelta_seconds (session_timeout m) <= now_file - now_used ->
   result = None) /\
  (write_ok = false ->
   files m !! _get_session_filepath m (session_key platform account_id) = None ->
   result = None).
Proof.
  intros saved restarted result.
  destruct (save_session_cached m platform cookies account_id metadata now_created now_used
              write_ok) as (_ & Ed & s & _ & Hc & Hu & Hf).
  fold saved in Ed, Hf.
  assert (Hfile : files restarted !! _get_session_filepath restarted
                                       (session_key platform account_id)
                  = if write_ok then Some (Pickled s)
                    else files m !! _get_session_filepath m (session_key platform account_id)).
  { rewrite <- Hf. unfold _get_session_filepath. subst restarted. cbn [files session_dir new_manager].
    now rewrite Ed. }
  assert (Hres : result =
                 match (if write_ok then Some (Pickled s)
                        else files m !! _get_session_filepath m
                                          (session_key platform account_id)) with
                 | Some (Pickled s') =>
                     if now_file - last_used s' <? Py.timedelta_seconds (session_timeout m)
                     then Some s' else None
                 | _ => None
                 end).
  { subst result. unfold get_session. subst restarted. cbn [sessions new_manager].
    rewrite lookup_empty. unfold _load_session_from_file. rewrite Hfile.
    destruct (if write_ok then _ else _) as [[s'|]|]; try reflexivity.
    unfold _is_session_valid. cbn [session_timeout].
    destruct (now_file - last_used s' <? _); reflexivity. }
  rewrite Hres. split_and!.
  - intros -> Hv. rewrite Hu. apply Z.ltb_lt in Hv. rewrite Hv. cbn. now rewrite Hc.
  - intros -> Hv. rewrite Hu. apply Z.ltb_ge in Hv. now rewrite Hv.
  - intros -> Hnone. now rewrite Hnone.
Qed.

(** A run of [get_session] calls, each with its platform, its account,
    its readings of the clock and whether its file can be read. *)
Definition read_sessions (m : Manager)
    (reads : list (string * option string * Z * Z * bool)) : Manager :=
  foldl (fun m '(platform, account_id, now, now_file, read_ok) =>
           snd (get_session m platform account_id now now_file read_ok))
        m reads.

Lemma get_session_timeout (m : Manager) (p : string) (a : option string)
    (now now_file : Z) (r : bool) :
  session_timeout (snd (get_session m p a now now_file r)) = session_timeout m.
Proof.
  unfold get_session.
  destruct (sessions m !! session_key p a) as [s|].
  - destruct (_is_session_valid m now s); [reflexivity|].
    destruct (_load_session_from_file _ _ r) as [s'|]; [|reflexivity].
    destruct (_is_session_valid _ now_file s'); reflexivity.
  - destruct (_load_session_from_file _ _ r) as [s'|]; [|reflexivity].
    destruct (_is_session_valid _ now_file s'); reflexivity.
Qed.

Lemma read_sessions_kept (reads : list (string * option string * Z * Z * bool))
    (m : Manager) (t : Z) :
  stamped_by m t ->
  stamped_by (read_sessions m reads) t /\
  session_timeout (read_sessions m reads) = session_timeout m.
Proof.
  unfold read_sessions. revert m.
  induction reads as [|[[[[p a] now] now_file] r] reads IH]; intros m Hm; cbn [foldl];
    [auto|].
  destruct (IH (snd (get_session m p a now now_file r))) as [Hs Ht].
  - apply stamped_by_get, Hm.
  - split; [exact Hs|]. rewrite Ht. apply get_session_timeout.
Qed.

(** X29. Reading a session does not keep it alive: [get_session] never
    renews [last_used], so however often a session is read after it was
    saved, once the timeout has passed since the save no session is
    returned, for any platform whose bundles are not stamped later than
    that save. The clock is taken not to go back. *)
Theorem reading_does_not_refresh (m : Manager) (platform : string)
    (cookies : gmap string string) (account_id : option string)
    (metadata : option (gmap string string)) (now_created now_used : Z) (write_ok : bool)
    (reads : list (string * option string * Z * Z * bool))
    (platform' : string) (account_id' : option string) (now now_file : Z) (read_ok : bool) :
  stamped_by m now_used ->
  Py.timedelta_seconds (session_timeout m) <= now - now_used ->
  now <= now_file ->
  let saved := save_session m platform cookies account_id metadata now_created now_used write_ok in
  fst (get_session (read_sessions saved reads) platform' account_id' now now_file read_ok)
  = None.
Proof.
  intros Hm Hexp Hclock saved.
  assert (Hsaved : stamped_by saved now_used) by (apply stamped_by_save, Hm).
  assert (Htimeout : session_timeout saved = session_timeout m).
  { subst saved. unfold save_session, _save_session_to_file. destruct write_ok; reflexivity. }
  destruct (read_sessions_kept reads saved now_used Hsaved) as [[Hs Hf] Ht].
  apply get_session_expired.
  - intros s Hl. rewrite Ht, Htimeout. specialize (Hs _ _ Hl). lia.
  - intros s Hl. rewrite Ht, Htimeout. specialize (Hf _ _ Hl). lia.
Qed.

Lemma append_cancel_r (x y s : string) : x +:+ s = y +:+ s -> x = y.
Proof.
  assert (Hlen : forall a b : string,
            String.length (a +:+ b) = (String.length a + String.length b)%nat).
  { intros a b. induction a as [|c a IH]; push_append; [reflexivity|].
    cbn [String.length]. now rewrite IH. }
  revert y. induction x as [|a x IH]; intros [|b y]; push_append; intros E.
  - reflexivity.
  - apply (f_equal String.length) in E. cbn [String.length] in E. rewrite Hlen in E. lia.
  - apply (f_equal String.length) in E. cbn [String.length] in E. rewrite Hlen in E. lia.
  - injection E as -> E. now rewrite (IH y E).
Qed.

(** Two keys that do not start with a slash have different files. *)
Lemma session_filepath_inj (m : Manager) (k k' : string) :
  String.prefix "/" k = false -> String.prefix "/" k' = false ->
  _get_session_filepath m k = _get_session_filepath m k' -> k = k'.
Proof.
  intros Hk Hk'. unfold _get_session_filepath, Py.path_join.
  assert (Hrel : forall key, String.prefix "/" key = false ->
            String.prefix "/" (key +:+ ".pkl") = false).
  { intros [|c key] H; [reflexivity|]. push_append. cbn [String.prefix] in *.
    destruct (ascii_dec "/" c); [destruct key; discriminate H|reflexivity]. }
  rewrite (Hrel k Hk), (Hrel k' Hk').
  destruct (_ || _)%bool; intros E.
  - apply append_cancel_l in E. exact (append_cancel_r _ _ _ E).
  - do 2 apply append_cancel_l in E. exact (append_cancel_r _ _ _ E).
Qed.

(** A key without a slash does not start with one. *)
Lemma no_slash_relative (key : string) :
  all_chars not_slash key = true -> String.prefix "/" key = false.
Proof.
  destruct key as [|c key]; [reflexivity|]. cbn [all_chars String.prefix].
  intros H. apply andb_prop in H as [H _]. unfold not_slash in H.
  destruct (ascii_dec "/" c) as [<-|]; [discriminate H|reflexivity].
Qed.

(** X30. Sessions of different keys do not interfere: saving or
    clearing the session of one key changes nothing to what
    [get_session] returns for another key, for keys without a slash.
    The files of the manager are kept by the text of their path. The
    file of a key without a slash is the entry of that name, with
    [.pkl], in the session directory itself, and two different entries
    of one directory are two files. A key with a slash may reach the
    file of another key by another path ([./nsrr] and [nsrr]); nothing
    is said of such keys. *)
Theorem sessions_kept_apart (m : Manager) (platform platform' : string)
    (account_id account_id' : option string) (cookies : gmap string string)
    (metadata : option (gmap string string)) (now_created now_used now now_file : Z)
    (write_ok read_ok : bool) :
  session_key platform account_id <> session_key platform' account_id' ->
  all_chars not_slash (session_key platform account_id) = true ->
  all_chars not_slash (session_key platform' account_id') = true ->
  fst (get_session
         (save_session m platform cookies account_id metadata now_created now_used write_ok)
         platform' account_id' now now_file read_ok)
    = fst (get_session m platform' account_id' now now_file read_ok) /\
  fst (get_session (clear_session m platform account_id)
         platform' account_id' now now_file read_ok)
    = fst (get_session m platform' account_id' now now_file read_ok).
Proof.
  intros Hne Hk Hk'. apply no_slash_relative in Hk, Hk'.
  assert (Hpath : _get_session_filepath m (session_key platform account_id)
                  <> _get_session_filepath m (session_key platform' account_id')).
  { intros E. apply Hne. exact (session_filepath_inj m _ _ Hk Hk' E). }
  split; apply get_session_fst.
  - unfold save_session, _save_session_to_file.
    destruct write_ok; cbn [sessions set_sessions set_files];
      now rewrite lookup_insert_ne.
  - unfold save_session, _save_session_to_file, _get_session_filepath in *.
    destruct write_ok; cbn [files session_dir set_sessions set_files]; [|reflexivity].
    now rewrite lookup_insert_ne.
  - unfold save_session, _save_session_to_file. destruct write_ok; reflexivity.
  - unfold clear_session. cbn [sessions set_sessions set_files].
    now rewrite lookup_delete_ne.
  - unfold clear_session, _get_session_filepath in *.
    cbn [files session_dir set_sessions set_files]. now rewrite lookup_delete_ne.
  - reflexivity.
Qed.

End SessionLifetime.

(** ** Worked instances *)

(** A record with a main file, one supplementary entry without a URL
    and one with a URL. *)
Definition item_with_files : FilePipeline.Item :=
  {| FilePipeline.item_track_id := Some "T1";
     FilePipeline.pdf_url := Some "https://example.org/files/T1.PDF";
     FilePipeline.supplementary_files :=
       [FilePipeline.RefUrl EmptyString;
        FilePipeline.RefUrl "https://example.org/files/table.xlsx"];
     FilePipeline.peer_review_files := [];
     FilePipeline.comments := [] |}.

Example media_requests_paths :
  (fun request => FilePipeline.file_path FilePipeline.simple_url_path request None)
    <$> FilePipeline.get_media_requests item_with_files
  = ["main_file/T1.pdf"; "SI_file/T1/sup_2.xlsx"].
Proof. reflexivity. Qed.

(** A record whose second supplementary entry is a relative link, with
    a peer review file after it. *)
Definition item_with_relative_link : FilePipeline.Item :=
  {| FilePipeline.item_track_id := Some "T1";
     FilePipeline.pdf_url := Some "https://example.org/papers/my paper.PDF";
     FilePipeline.supplementary_files :=
       [FilePipeline.RefUrl "https://example.org/s1.csv";
        FilePipeline.RefUrl "files/s2.csv"];
     FilePipeline.peer_review_files := [FilePipeline.RefUrl "https://example.org/review.pdf"];
     FilePipeline.comments := [] |}.

(** The main file is requested with its URL escaped, the first
    supplementary file as it is; the relative link ends the generator,
    and the peer review file is not requested. *)
Example media_requests_stop_at_relative_link :
  let gen := Generator.get_media_requests Generator.simple_request_url
               item_with_relative_link in
  map (fun r => (FilePipeline.url r, FilePipeline.file_type (FilePipeline.meta r),
                 FilePipeline.file_index (FilePipeline.meta r)))
      (fst gen)
  = [("https://example.org/papers/my%20paper.PDF", Some "main", Some 0);
     ("https://example.org/s1.csv", Some "supplementary", Some 1)]
  /\ snd gen = Some "ValueError"
  /\ length (FilePipeline.get_media_requests item_with_relative_link) = 4%nat.
Proof. cbv zeta. split_and!; vm_compute; reflexivity. Qed.


Lemma media_requests_stored_by_role_witness :
  let request :=
    FilePipeline.file_request "T1" "supplementary" None 2
      "https://example.org/files/table.xlsx"
      (FilePipeline.RefUrl "https://example.org/files/table.xlsx") in
  exists t,
    FilePipeline.item_track_id item_with_files = Some t /\
    FilePipeline.track_id (FilePipeline.meta request) = Some t /\
    FilePipeline.role request <> FilePipeline.Other /\
    String.prefix ("SI_file/" +:+ t +:+ "/sup_" +:+ Py.str_of_int 2 +:+ ".")
      (FilePipeline.file_path FilePipeline.simple_url_path request None) = true.
Proof.
  cbv zeta.
  apply (media_requests_stored_by_role FilePipeline.simple_url_path item_with_files
           (FilePipeline.file_request "T1" "supplementary" None 2
              "https://example.org/files/table.xlsx"
              (FilePipeline.RefUrl "https://example.org/files/table.xlsx")) None).
  apply (list_elem_of_lookup_2 _ 1%nat). reflexivity.
Defined.




Example image_filename_extension :
  let name := Images._generate_image_filename Utf8.encode Images.simple_urlparse_path
                SHA256.hexdigest in
  match name "https://example.org/img/fig1.PNG?size=2" with
  | Returns n => Py.drop 64 n
  | Raises e => e
  end = ".PNG"
  /\ match name "https://example.org/img/" with
     | Returns n => Py.drop 64 n
     | Raises e => e
     end = ".jpg"
  /\ name "http://[abc/fig.png" = Raises "ValueError"
  /\ name (byte 237 +:+ byte 160 +:+ byte 128) = Raises "UnicodeEncodeError".
Proof. cbv zeta. split_and!; vm_compute; reflexivity. Qed.


Lemma back_off_schedule_witness :
  (RateLimit.current_delay
     (RateLimit.stats_of
        (RateLimit.run (RateLimit.new_limiter 1 5 true true)
           (repeat (RateLimit.RecordFailure "example.org") 4)) "example.org")
   == Qmin (1 * (3 # 2) ^ Z.of_nat 4) 5)%Q.
Proof.
  assert (H0 : (0 <= 1)%Q) by discriminate.
  assert (H1 : (1 <= 5)%Q) by discriminate.
  exact (back_off_schedule 1 5 H0 H1 true "example.org" 4).
Defined.

Example back_off_reaches_max_delay :
  (Qmin (1 * (3 # 2) ^ Z.of_nat 3) 5 == 27 # 8)%Q /\ (Qmin (1 * (3 # 2) ^ Z.of_nat 4) 5 == 5)%Q.
Proof. split; vm_compute; reflexivity. Qed.

Lemma domain_of_url_witness :
  RateLimitMiddleware.domain_of ("https:" +:+ "//" +:+ "example.org:8080" +:+ "/a/b")
    = Some "example.org:8080"
  /\ RateLimitMiddleware.domain_of "https:" = None
  /\ RateLimitMiddleware.domain_of ("https:" +:+ "/" +:+ "example.org:8080") = None
  /\ (forall l latency,
        RateLimitMiddleware.process_exception l
          {| RateLimitMiddleware.url := "https:" +:+ "/" +:+ "example.org:8080";
             RateLimitMiddleware.download_latency := latency |} = None).
Proof.
  apply (domain_of_url "https:" "example.org:8080" "/a/b");
    [reflexivity|reflexivity|right; eexists; reflexivity].
Defined.

Lemma responses_counted_once_witness :
  let l := RateLimit.new_limiter 1 5 true true in
  let request := {| RateLimitMiddleware.url := "https://example.org/missing";
                    RateLimitMiddleware.download_latency := None |} in
  let response := {| RateLimitMiddleware.status := 404 |} in
  exists l' l'',
    RateLimitMiddleware.process_response l request response = Some (response, l') /\
    RateLimitMiddleware.process_exception l request = Some l'' /\
    RateLimit.total_requests (RateLimit.stats_of l' "example.org")
      = RateLimit.total_requests (RateLimit.stats_of l "example.org") + 1 /\
    RateLimit.failed_requests (RateLimit.stats_of l' "example.org")
      = RateLimit.failed_requests (RateLimit.stats_of l "example.org")
        + (if RateLimitMiddleware.status response =? 200 then 0 else 1) /\
    RateLimit.success_requests (RateLimit.stats_of l' "example.org")
      = RateLimit.success_requests (RateLimit.stats_of l "example.org")
        + (if RateLimitMiddleware.status response =? 200 then 1 else 0) /\
    RateLimit.total_requests (RateLimit.stats_of l'' "example.org")
      = RateLimit.total_requests (RateLimit.stats_of l "example.org") + 1 /\
    RateLimit.failed_requests (RateLimit.stats_of l'' "example.org")
      = RateLimit.failed_requests (RateLimit.stats_of l "example.org") + 1 /\
    (forall d, d <> "example.org" ->
       RateLimit.stats_of l' d = RateLimit.stats_of l d /\
       RateLimit.stats_of l'' d = RateLimit.stats_of l d).
Proof.
  cbv zeta.
  apply (responses_counted_once (RateLimit.new_limiter 1 5 true true)
           {| RateLimitMiddleware.url := "https://example.org/missing";
              RateLimitMiddleware.download_latency := None |}
           {| RateLimitMiddleware.status := 404 |} "example.org").
  reflexivity.
Defined.

Lemma set_cookie_header_witness :
  SessionMiddleware.set_cookies Utf8.decode (["lang=en"] ++ ["sid=a=b; Path=/"])
  = Returns (<["sid" := "a=b"]> (<["lang" := "en"]> ∅)).
Proof.
  apply (proj1 (set_cookie_header Utf8.decode ["lang=en"] "sid=a=b; Path=/"
                  "sid" "a=b" "; Path=/"
                  eq_refl eq_refl eq_refl (or_intror (ex_intro _ " Path=/" eq_refl)))
           (<["lang" := "en"]> ∅));
    reflexivity.
Defined.

(** The headers of three responses: a cookie with attributes after one
    without; a header without [=]; a header that is not UTF-8 between two
    that are. *)
Example set_cookies_examples :
  (match SessionMiddleware.set_cookies Utf8.decode ["lang=en"; "sid=a=b; Path=/"; "sid=c"] with
   | Returns cookies => Returns (cookies !! "sid", cookies !! "lang", cookies !! "Path")
   | Raises e => Raises e
   end = Returns (Some "c", Some "en", None))
  /\ SessionMiddleware.set_cookies Utf8.decode ["Secure; HttpOnly"] = Returns ∅
  /\ SessionMiddleware.set_cookies Utf8.decode ["sid=abc"; "sid=" +:+ byte 255; "lang=en"]
     = Raises "UnicodeDecodeError".
Proof. split_and!; vm_compute; reflexivity. Qed.

Lemma response_cookies_sent_next_witness :
  exists m',
    SessionMiddleware.process_response Utf8.decode manager_example "biolincc"
      ["sid=abc; Path=/"; "Secure"] 0 0 true = Returns m' /\
    fst (SessionMiddleware.process_request m' "biolincc"
           {[ "sid" := "old"; "lang" := "en" ]} 1000000 1000000 true)
    = {[ "sid" := "abc" ]} ∪ {[ "sid" := "old"; "lang" := "en" ]}.
Proof.
  apply (proj1 (response_cookies_sent_next Utf8.decode manager_example "biolincc"
                  ["sid=abc; Path=/"; "Secure"] {[ "sid" := "old"; "lang" := "en" ]}
                  0 0 1000000 1000000 true true)).
  - vm_compute. reflexivity.
  - intros E. apply (f_equal (fun cookies : gmap string string => cookies !! "sid")) in E.
    vm_compute in E. discriminate E.
  - vm_compute. reflexivity.
Defined.

Example response_cookies_example :
  let sent headers :=
    match SessionMiddleware.process_response Utf8.decode
            (Session.save_session manager_example "biolincc" {[ "sid" := "kept" ]} None None
               0 0 true)
            "biolincc" headers 5 5 true with
    | Returns m =>
        let cookies :=
          fst (SessionMiddleware.process_request m "biolincc"
                 {[ "sid" := "old"; "lang" := "en" ]} 1000000 1000000 true) in
        Returns (cookies !! "sid", cookies !! "lang", cookies !! "Secure")
    | Raises e => Raises e
    end in
  sent ["sid=abc; Path=/"; "Secure"] = Returns (Some "abc", Some "en", None)
  /\ sent ["Secure"] = Returns (Some "kept", Some "en", None)
  /\ sent ["sid=abc"; "sid=" +:+ byte 255] = Raises "UnicodeDecodeError".
Proof. cbv zeta. split_and!; vm_compute; reflexivity. Qed.

(** Two proxies, the first probed healthy and the second not. *)
Definition pool_of_two (rotation_strategy : string) : ProxyPool.Pool :=
  ProxyPool.new_pool ["http://10.0.0.1:8080"; "http://10.0.0.2:8080"] rotation_strategy 1 300
    "http://httpbin.org/ip".

Definition probe_example (i : nat) : ProxyPool.Probe :=
  match i with
  | O => ProxyPool.Healthy (1 # 2) 100
  | S _ => ProxyPool.Unhealthy "timeout"
  end.

Lemma health_check_marks_each_once_witness :
  ProxyPool.proxies (ProxyPool.health_check (pool_of_two "round_robin") probe_example) !! 1%nat
  = Some (probed 1 (ProxyPool.Unhealthy "timeout")
            (ProxyPool.new_proxy "http://10.0.0.2:8080" "http")).
Proof.
  apply (health_check_marks_each_once (pool_of_two "round_robin") probe_example 1
           (ProxyPool.new_proxy "http://10.0.0.2:8080" "http")).
  - apply NoDup_cons. split; [|apply NoDup_singleton].
    intros H. apply list_elem_of_singleton in H. discriminate H.
  - reflexivity.
Defined.

Example health_check_report_example :
  fst (ProxyReports.health_check_report (pool_of_two "round_robin") probe_example)
  = {| ProxyReports.total := 2; ProxyReports.healthy := 1;
       ProxyReports.unhealthy := 1; ProxyReports.banned := 1 |}.
Proof. reflexivity. Qed.

Lemma get_stats_adds_up_witness :
  let stats := ProxyReports.get_stats pool_one_banned in
  (ProxyReports.available_proxies stats + ProxyReports.banned_proxies stats
   = ProxyReports.total_proxies stats) /\
  (0 <= ProxyReports.avg_success_rate stats <= 1)%Q /\
  (ProxyReports.available_proxies stats
   <= Z.of_nat (length (ProxyPool.available_from (ProxyPool.ban_duration pool_one_banned)
                          300000001 0 (ProxyPool.proxies pool_one_banned)))) /\
  (ProxyPool.proxies pool_one_banned = [] ->
   ProxyReports.avg_success_rate stats = 0%Q /\ ProxyReports.avg_response_time stats = 0%Q /\
   ProxyReports.total_proxies stats = 0).
Proof.
  apply (get_stats_adds_up pool_one_banned 300000001).
  repeat constructor; discriminate.
Defined.

(** Three proxies: after a success each, the second and the third have
    the same score, higher than that of the first. *)
Definition pool_of_three : ProxyPool.Pool :=
  ProxyPool.mark_success
    (ProxyPool.mark_success
       (ProxyPool.new_pool ["http://10.0.0.1:8080"; "http://10.0.0.2:8080"; "http://10.0.0.3:8080"]
          "best_performance" 1 300 "http://httpbin.org/ip")
       "http://10.0.0.2:8080" (1 # 2) 10)
    "http://10.0.0.3:8080" (1 # 2) 20.

Lemma best_performance_is_best_witness :
  let result := Selection.get_proxy Q ProxyPool.score Selection.Qgtb pool_of_three 30 30 0 in
  exists i p,
    ProxyPool.proxies pool_of_three !! i = Some p /\
    ProxyPool.available (ProxyPool.ban_duration pool_of_three) 30 p = true /\
    fst result = Some {| ProxyPool.http := ProxyPool.url p; ProxyPool.https := ProxyPool.url p |} /\
    ProxyPool.proxies (snd result)
      = alter (ProxyPool.set_last_used 30) i (ProxyPool.proxies pool_of_three) /\
    (forall j q,
       ProxyPool.proxies pool_of_three !! j = Some q ->
       ProxyPool.available (ProxyPool.ban_duration pool_of_three) 30 q = true ->
       Selection.Qgtb (ProxyPool.score q) (ProxyPool.score p) = false) /\
    (forall j q,
       (j < i)%nat ->
       ProxyPool.proxies pool_of_three !! j = Some q ->
       ProxyPool.available (ProxyPool.ban_duration pool_of_three) 30 q = true ->
       Selection.Qgtb (ProxyPool.score p) (ProxyPool.score q) = true).
Proof.
  apply (best_performance_is_best Q ProxyPool.score Selection.Qgtb
           Qgtb_irreflexive Qgtb_transitive Qgtb_not_transitive pool_of_three 30 30 0).
  - reflexivity.
  - exists (ProxyPool.new_proxy "http://10.0.0.1:8080" "http").
    split; [apply elem_of_cons; left; reflexivity|reflexivity].
Defined.

(** A score computed with less precision: the exact score cut to a
    whole number. *)
Definition coarse_score (p : ProxyPool.ProxyInfo) : Q :=
  let exact := ProxyPool.score p in inject_Z (Qnum exact / Z.pos (Qden exact)).

(** The scores of the three proxies are 30, 95 and 95: the second is
    returned, the first of the two best, and it alone is stamped. When
    the third answers a little faster its exact score is higher and it
    is returned; with the coarse score the two are equal again, and the
    second is returned. *)
Example best_performance_examples :
  let faster :=
    ProxyPool.mark_success pool_of_three "http://10.0.0.3:8080" (2 # 5) 25 in
  map (fun p => Qred (ProxyPool.score p)) (ProxyPool.proxies pool_of_three)
  = [30 # 1; 95 # 1; 95 # 1]
  /\ map (fun p => Qred (ProxyPool.score p)) (ProxyPool.proxies faster)
     = [30 # 1; 95 # 1; 191 # 2]
  /\ ProxyPool.http <$> fst (Selection.get_proxy Q ProxyPool.score Selection.Qgtb
                               pool_of_three 30 30 0)
     = Some "http://10.0.0.2:8080"
  /\ ProxyPool.last_used
       <$> ProxyPool.proxies (snd (Selection.get_proxy Q ProxyPool.score Selection.Qgtb
                                     pool_of_three 30 30 0))
     = [None; Some 30%Z; None]
  /\ ProxyPool.http <$> fst (Selection.get_proxy Q ProxyPool.score Selection.Qgtb
                               faster 30 30 0)
     = Some "http://10.0.0.3:8080"
  /\ ProxyPool.http <$> fst (Selection.get_proxy Q coarse_score Selection.Qgtb
                               faster 30 30 0)
     = Some "http://10.0.0.2:8080".
Proof. cbv zeta. split_and!; vm_compute; reflexivity. Qed.

Lemma round_robin_in_turn_witness :
  exists u,
    (ProxyPool.url <$> ProxyPool.proxies (pool_of_two "round_robin")) !!
      Z.to_nat ((ProxyPool.current_index (pool_of_two "round_robin") + Z.of_nat 2)
                mod Z.of_nat (length (ProxyPool.proxies (pool_of_two "round_robin"))))
      = Some u /\
    ProxyReports.hand_out (pool_of_two "round_robin") [(0, 0, 0%nat); (1, 1, 0%nat); (2, 2, 0%nat)]
      !! 2%nat
      = Some (Some {| ProxyPool.http := u; ProxyPool.https := u |}).
Proof.
  apply (round_robin_in_turn (pool_of_two "round_robin")
           [(0, 0, 0%nat); (1, 1, 0%nat); (2, 2, 0%nat)] 2).
  - reflexivity.
  - repeat constructor.
  - cbn [length]. lia.
  - discriminate.
Defined.

Example round_robin_example :
  ProxyReports.hand_out (pool_of_two "round_robin") [(0, 0, 0%nat); (1, 1, 0%nat); (2, 2, 0%nat)]
  = [ Some {| ProxyPool.http := "http://10.0.0.1:8080"; ProxyPool.https := "http://10.0.0.1:8080" |};
      Some {| ProxyPool.http := "http://10.0.0.2:8080"; ProxyPool.https := "http://10.0.0.2:8080" |};
      Some {| ProxyPool.http := "http://10.0.0.1:8080"; ProxyPool.https := "http://10.0.0.1:8080" |} ].
Proof. reflexivity. Qed.

Lemma middleware_exception_retries_witness :
  let request := {| ProxyMiddleware.dont_use_proxy := false;
                    ProxyMiddleware.proxy := Some "http://10.0.0.1:8080" |} in
  let pool := pool_of_two "round_robin" in
  let p := ProxyPool.new_proxy "http://10.0.0.1:8080" "http" in
  let out := ProxyMiddleware.process_exception pool request "timeout" in
  fst out = Some (ProxyMiddleware.set_proxy request None) /\
  ProxyPool.proxies (snd out) !! 0%nat
    = Some (ProxyPool.with_failure (ProxyPool.max_fail_count pool) p) /\
  (ProxyPool.max_fail_count pool <= ProxyPool.fail_count p + 1 ->
   ProxyPool.is_banned <$> ProxyPool.proxies (snd out) !! 0%nat = Some true) /\
  (forall j, j <> 0%nat -> ProxyPool.proxies (snd out) !! j = ProxyPool.proxies pool !! j) /\
  ProxyMiddleware.process_exception pool (ProxyMiddleware.set_proxy request None) "timeout"
    = (None, pool).
Proof.
  cbv zeta.
  apply (middleware_exception_retries (pool_of_two "round_robin")
           {| ProxyMiddleware.dont_use_proxy := false;
              ProxyMiddleware.proxy := Some "http://10.0.0.1:8080" |}
           "timeout" "http://10.0.0.1:8080" 0
           (ProxyPool.new_proxy "http://10.0.0.1:8080" "http"));
    [reflexivity|discriminate|reflexivity|reflexivity].
Defined.

Lemma reading_does_not_refresh_witness :
  fst (Session.get_session
         (read_sessions
            (Session.save_session manager_example "biolincc" cookies_example None None 0 0 true)
            [("biolincc", None, 10, 10, true); ("biolincc", None, 3599999999, 3599999999, true)])
         "biolincc" None 3600000000 3600000000 true)
  = None.
Proof.
  apply (reading_does_not_refresh manager_example "biolincc" cookies_example None None 0 0 true
           [("biolincc", None, 10, 10, true); ("biolincc", None, 3599999999, 3599999999, true)]
           "biolincc" None 3600000000 3600000000 true).
  - split; intros k session H; unfold manager_example, Session.new_manager in H;
      cbn [Session.sessions Session.files] in H; rewrite lookup_empty in H; discriminate H.
  - vm_compute. discriminate.
  - lia.
Defined.

(** Two platforms of one account, and the same platform with and
    without the account. *)
Lemma sessions_kept_apart_witness :
  (fst (Session.get_session
          (Session.save_session manager_example "biolincc" cookies_example (Some "u1") None
             0 0 true)
          "nsrr" (Some "u1") 10 10 true)
     = fst (Session.get_session manager_example "nsrr" (Some "u1") 10 10 true)
   /\ fst (Session.get_session (Session.clear_session manager_example "biolincc" (Some "u1"))
             "nsrr" (Some "u1") 10 10 true)
      = fst (Session.get_session manager_example "nsrr" (Some "u1") 10 10 true))
  /\ (let saved :=
        Session.save_session manager_example "nsrr" cookies_example None None 0 0 true in
      fst (Session.get_session
             (Session.save_session saved "nsrr" {[ "sid" := "xyz" ]} (Some "u1") None 5 5 true)
             "nsrr" None 10 10 true)
        = fst (Session.get_session saved "nsrr" None 10 10 true)
      /\ fst (Session.get_session (Session.clear_session saved "nsrr" (Some "u1"))
                "nsrr" None 10 10 true)
         = fst (Session.get_session saved "nsrr" None 10 10 true)).
Proof.
  split.
  - apply (sessions_kept_apart manager_example "biolincc" "nsrr" (Some "u1") (Some "u1")
             cookies_example None 0 0 10 10 true true);
      [discriminate|reflexivity|reflexivity].
  - cbv zeta.
    apply (sessions_kept_apart
             (Session.save_session manager_example "nsrr" cookies_example None None 0 0 true)
             "nsrr" "nsrr" (Some "u1") None {[ "sid" := "xyz" ]} None 5 5 10 10 true true);
      [discriminate|reflexivity|reflexivity].
Defined.
